(** * genienlp: evaluation metrics and entity lookup

    A shallow embedding of [genienlp/metrics.py] and [genienlp/ned/main.py].

    Conventions of the embedding.
    - A Python [str] is a [string]; the built-in string methods follow
      CPython on the ASCII range (characters above 127 are carried through
      unchanged and are neither whitespace, punctuation nor word
      characters).
    - A Python [int] is a [Z]; a Python [float] score is a rational [Q]
      (exact arithmetic, no rounding).
    - A function that can raise returns a [result]; the exception class is
      kept so that [except] clauses can be modelled.
    - Objects that the code mutates in place live in an explicit [heap]. *)

From Stdlib Require Import Ascii QArith Lqa DecimalString.
From stdpp Require Import gmap gmultiset strings list sorting.

Local Open Scope Z_scope.

(** ** The Python runtime: exceptions and results *)

Module Py.

Inductive exn : Set :=
| KeyError
| IndexError
| ValueError
| TypeError
| AttributeError
| ZeroDivisionError
| AssertionError.

Inductive result (A : Type) : Type :=
| Ok (a : A)
| Raise (e : exn).

Global Arguments Ok {A} a.
Global Arguments Raise {A} e.

Global Instance result_ret : MRet result := fun _ a => Ok a.

Global Instance result_bind : MBind result := fun _ _ f m =>
  match m with
  | Ok a => f a
  | Raise e => Raise e
  end.

Definition is_ok {A} (m : result A) : bool :=
  match m with Ok _ => true | Raise _ => false end.

(** [for x in l: ...] with a body that may raise. *)
Fixpoint traverse {A B} (f : A -> result B) (l : list A) : result (list B) :=
  match l with
  | [] => Ok []
  | x :: l' =>
      match f x with
      | Ok y => match traverse f l' with
                | Ok ys => Ok (y :: ys)
                | Raise e => Raise e
                end
      | Raise e => Raise e
      end
  end.

(** A loop that threads a state through a body that may raise. *)
Fixpoint fold_result {A B} (f : A -> B -> result A) (l : list B) (a : A) : result A :=
  match l with
  | [] => Ok a
  | x :: l' =>
      match f a x with
      | Ok a' => fold_result f l' a'
      | Raise e => Raise e
      end
  end.

(** [zip(a, b)]: stops at the shorter argument. *)
Fixpoint zip {A B} (a : list A) (b : list B) : list (A * B) :=
  match a, b with
  | x :: a', y :: b' => (x, y) :: zip a' b'
  | _, _ => []
  end.

(** [len(l)] as a Python int. *)
Definition len {A} (l : list A) : Z := Z.of_nat (length l).

Definition len_str (s : string) : Z := Z.of_nat (String.length s).

(** [a / b] on two ints (true division). *)
Definition truediv (a b : Z) : result Q :=
  if b =? 0 then Raise ZeroDivisionError else Ok (inject_Z a / inject_Z b)%Q.

(** [a / b] on floats. *)
Definition fdiv (a b : Q) : result Q :=
  if Qeq_bool b 0 then Raise ZeroDivisionError else Ok (a / b)%Q.

(** [max(l)]: the first maximal element; [ValueError] on an empty list. *)
Definition max_by {A} (gt : A -> A -> bool) (l : list A) : result A :=
  match l with
  | [] => Raise ValueError
  | x :: l' => Ok (fold_left (fun m y => if gt y m then y else m) l' x)
  end.

(** [True > False] is the only strict inequality between two bools. *)
Definition bool_gt (a b : bool) : bool := a && negb b.

Definition Q_gt (a b : Q) : bool := negb (Qle_bool a b).

(** [sum(l)] for a list of bools: an int. *)
Definition sum_bools (l : list bool) : Z :=
  fold_left (fun acc (b : bool) => acc + (if b then 1 else 0)) l 0.

(** [sum(l)] for a list of floats. *)
Definition sum_floats (l : list Q) : Q :=
  fold_left Qplus l (inject_Z 0).

(** [enumerate(l)] *)
Definition enumerate {A} (l : list A) : list (Z * A) :=
  imap (fun i x => (Z.of_nat i, x)) l.

(** [l[i]]: a negative index counts from the end. *)
Definition index {A} (l : list A) (i : Z) : result A :=
  let j := if i <? 0 then i + len l else i in
  if j <? 0 then Raise IndexError
  else match l !! Z.to_nat j with
       | Some x => Ok x
       | None => Raise IndexError
       end.

(** [d[k]] for a dict. *)
Definition getitem {V} (d : gmap string V) (k : string) : result V :=
  match d !! k with
  | Some v => Ok v
  | None => Raise KeyError
  end.

(** [l.sort(key=..., reverse=True)]: stable, the greatest key first. *)
Fixpoint insert_desc {A} (key : A -> nat) (x : A) (l : list A) : list A :=
  match l with
  | [] => [x]
  | y :: l' => if (key x <? key y)%nat then y :: insert_desc key x l' else x :: l
  end.

Definition sort_desc {A} (key : A -> nat) (l : list A) : list A :=
  foldr (insert_desc key) [] l.

(** [l.sort()]: the least element first, for a total order [le]. *)
Fixpoint insert_asc {A} (le : A -> A -> bool) (x : A) (l : list A) : list A :=
  match l with
  | [] => [x]
  | y :: l' => if le x y then x :: l else y :: insert_asc le x l'
  end.

Definition sort_asc {A} (le : A -> A -> bool) (l : list A) : list A :=
  foldr (insert_asc le) [] l.

End Py.

Import Py.

(** ** Python string methods *)

Module Str.

Definition code (c : ascii) : N := N_of_ascii c.

(** [str.isspace] on ASCII: tab, LF, VT, FF, CR, FS, GS, RS, US, space. *)
Definition is_space (c : ascii) : bool :=
  let n := code c in
  ((9 <=? n) && (n <=? 13) || (28 <=? n) && (n <=? 32))%N.

(** Membership in [string.punctuation]. *)
Definition is_punct (c : ascii) : bool :=
  let n := code c in
  ((33 <=? n) && (n <=? 47) || (58 <=? n) && (n <=? 64)
   || (91 <=? n) && (n <=? 96) || (123 <=? n) && (n <=? 126))%N.

Definition is_upper (c : ascii) : bool :=
  let n := code c in ((65 <=? n) && (n <=? 90))%N.

Definition is_lower (c : ascii) : bool :=
  let n := code c in ((97 <=? n) && (n <=? 122))%N.

Definition is_digit (c : ascii) : bool :=
  let n := code c in ((48 <=? n) && (n <=? 57))%N.

(** The class [\w] of the [re] module on ASCII. *)
Definition is_word (c : ascii) : bool :=
  is_upper c || is_lower c || is_digit c || Ascii.eqb c "_".

Definition lower_char (c : ascii) : ascii :=
  if is_upper c then ascii_of_N (code c + 32) else c.

(** [s.lower()] *)
Fixpoint lower (s : string) : string :=
  match s with
  | "" => ""
  | String c r => String (lower_char c) (lower r)
  end.

(** [''.join(ch for ch in s if keep ch)] *)
Fixpoint filter_chars (keep : ascii -> bool) (s : string) : string :=
  match s with
  | "" => ""
  | String c r => if keep c then String c (filter_chars keep r) else filter_chars keep r
  end.

(** [sep.join(l)] *)
Fixpoint join (sep : string) (l : list string) : string :=
  match l with
  | [] => ""
  | [x] => x
  | x :: l' => x +:+ sep +:+ join sep l'
  end.

(** Closes the word that is being read at the head of the text. *)
Definition push (w : string) (ws : list string) : list string :=
  if decide (w = "") then ws else w :: ws.

(** Reads the text from the right: the (possibly empty) run of
    non-whitespace characters at its head, and the words after it. *)
Fixpoint split_go (s : string) : string * list string :=
  match s with
  | "" => ("", [])
  | String c r =>
      let '(w, ws) := split_go r in
      if is_space c then ("", push w ws) else (String c w, ws)
  end.

(** [s.split()]: the maximal runs of non-whitespace characters. *)
Definition split (s : string) : list string :=
  let '(w, ws) := split_go s in push w ws.

(** [s.split(sep)] for a one-character separator: empty pieces are kept. *)
Fixpoint split_on (sep : ascii) (s : string) : list string :=
  match s with
  | "" => [""]
  | String c r =>
      if Ascii.eqb c sep then "" :: split_on sep r
      else match split_on sep r with
           | w :: ws => String c w :: ws
           | [] => [String c ""]
           end
  end.

(** [s.lstrip()], [s.rstrip()], [s.strip()] *)
Fixpoint lstrip (s : string) : string :=
  match s with
  | "" => ""
  | String c r => if is_space c then lstrip r else s
  end.

Fixpoint rstrip (s : string) : string :=
  match s with
  | "" => ""
  | String c r =>
      match rstrip r with
      | "" => if is_space c then "" else String c ""
      | r' => String c r'
      end
  end.

Definition strip (s : string) : string := lstrip (rstrip s).

(** [s.startswith(p)] *)
Fixpoint startswith (p s : string) : bool :=
  match p, s with
  | "", _ => true
  | String a p', String b s' => Ascii.eqb a b && startswith p' s'
  | String _ _, "" => false
  end.

(** [p in s] for two strings. *)
Fixpoint contains (p s : string) : bool :=
  startswith p s ||
  match s with
  | "" => false
  | String _ r => contains p r
  end.

Fixpoint drop (n : nat) (s : string) : string :=
  match n, s with
  | O, _ => s
  | S n', String _ r => drop n' r
  | S _, "" => ""
  end.

(** [s.replace(old, new)] for a non-empty [old]: the occurrences are found
    from the left and do not overlap; [skip] counts the characters of the
    occurrence that is being replaced. *)
Fixpoint replace_go (old new : string) (skip : nat) (s : string) : string :=
  match s with
  | "" => ""
  | String c r =>
      match skip with
      | S k => replace_go old new k r
      | O =>
          if startswith old s
          then new +:+ replace_go old new (String.length old - 1) r
          else String c (replace_go old new 0 r)
      end
  end.

Definition replace (old new s : string) : string := replace_go old new 0 s.

(** [s.split(sep, 1)] when [sep] occurs in [s]: the text before the first
    occurrence and the text after it. *)
Fixpoint split_once (sep s : string) : option (string * string) :=
  if startswith sep s then Some ("", drop (String.length sep) s)
  else match s with
       | "" => None
       | String c r =>
           match split_once sep r with
           | Some (a, b) => Some (String c a, b)
           | None => None
           end
       end.

Fixpoint take (n : nat) (s : string) : string :=
  match n, s with
  | S n', String c r => String c (take n' r)
  | _, _ => ""
  end.

(** The length of the run of digits at the head of [s]. *)
Fixpoint digits_len (s : string) : nat :=
  match s with
  | String c r => if is_digit c then S (digits_len r) else O
  | "" => O
  end.

(** The length of the match of [Col\d+ Cond\d+] at the head of [s]. *)
Definition match_col_cond (s : string) : option nat :=
  if startswith "Col" s then
    let s1 := drop 3 s in
    let d1 := digits_len s1 in
    if (d1 =? 0)%nat then None
    else
      let s2 := drop d1 s1 in
      if startswith " Cond" s2 then
        let d2 := digits_len (drop 5 s2) in
        if (d2 =? 0)%nat then None else Some (3 + d1 + 5 + d2)%nat
      else None
  else None.

(** [re.split('(Col\d+ Cond\d+)', s)]: the pieces between the matches, with
    the matches themselves in between (the pattern is one capturing group).
    The head of the result is the piece that is being read. *)
Fixpoint re_split_go (skip : nat) (s : string) : list string :=
  match s with
  | "" => [""]
  | String c r =>
      match skip with
      | S k => re_split_go k r
      | O =>
          match match_col_cond s with
          | Some (S n) => "" :: take (S n) s :: re_split_go n r
          | _ =>
              match re_split_go 0 r with
              | w :: ws => String c w :: ws
              | [] => [String c ""]
              end
          end
      end
  end.

Definition re_split_col_cond (s : string) : list string := re_split_go 0 s.

(** [str(n)] and ['{}'.format(n)] for an int. *)
Definition of_int (n : Z) : string := NilZero.string_of_int (Z.to_int n).

Definition digit_value (c : ascii) : Z := Z.of_N (code c) - 48.

(** The digits of an int literal, with single underscores between digits. *)
Fixpoint digits_value (acc : Z) (after_digit : bool) (s : string) : option Z :=
  match s with
  | "" => if after_digit then Some acc else None
  | String c r =>
      if is_digit c then digits_value (10 * acc + digit_value c) true r
      else if Ascii.eqb c "_" && after_digit then
        match r with
        | String d _ => if is_digit d then digits_value acc false r else None
        | "" => None
        end
      else None
  end.

(** [int(s)] in base ten. *)
Definition to_int (s : string) : result Z :=
  let body sign t :=
    match digits_value 0 false t with
    | Some n => Ok (sign * n)
    | None => Raise ValueError
    end in
  match strip s with
  | String c r =>
      if Ascii.eqb c "-" then body (-1) r
      else if Ascii.eqb c "+" then body 1 r
      else body 1 (String c r)
  | "" => Raise ValueError
  end.

(** [s.find(sub)]: the position of the first occurrence of [sub] in [s]. *)
Fixpoint find (sub s : string) : option nat :=
  if startswith sub s then Some O
  else match s with
       | "" => None
       | String _ r =>
           match find sub r with
           | Some i => Some (S i)
           | None => None
           end
       end.

(** [s.index(sub)] *)
Definition index (sub s : string) : result Z :=
  match find sub s with
  | Some i => Ok (Z.of_nat i)
  | None => Raise ValueError
  end.

End Str.

(** ** metrics.py *)

Module Metrics.

(** [exact_match] *)
Definition exact_match (prediction ground_truth : string) : bool :=
  bool_decide (prediction = ground_truth).

(** [metric_max_over_ground_truths]: the metric of the prediction against
    each ground truth in turn, then [max] of the scores. *)
Definition metric_max_over_ground_truths {S : Type} (gt : S -> S -> bool)
    (metric_fn : string -> string -> result S)
    (prediction : string) (ground_truths : list string) : result S :=
  scores_for_ground_truths ← traverse (metric_fn prediction) ground_truths;
  max_by gt scores_for_ground_truths.

(** [computeEM] *)
Definition computeEM (outputs : list string) (targets : list (list string)) : result Q :=
  outs ← traverse
    (fun '(o, t) => metric_max_over_ground_truths bool_gt (fun p g => Ok (exact_match p g)) o t)
    (zip outputs targets);
  q ← truediv (sum_bools outs) (len outputs);
  Ok (q * 100)%Q.

(** [normalize_text] and its four local helpers. *)
Definition lower (text : string) : string := Str.lower text.

Definition remove_punc (text : string) : string :=
  Str.filter_chars (fun ch => negb (Str.is_punct ch)) text.

Definition starts_word (text : string) : bool :=
  match text with
  | String c _ => Str.is_word c
  | "" => false
  end.

(** [re.sub(r'\b(a|an|the)\b', ' ', text)], read from the left.
    [prev_word] tells whether the character before [text] is a word
    character, so [\b] holds in front of [text] when exactly one of
    [prev_word] and [starts_word text] does.  The alternatives are tried in
    the order of the pattern, and the scan resumes after a match. *)
Fixpoint remove_articles_from (prev_word : bool) (text : string) : string :=
  match text with
  | "" => ""
  | String c r =>
      if prev_word then String c (remove_articles_from (Str.is_word c) r)
      else if Ascii.eqb c "a" then
        if negb (starts_word r) then String " " (remove_articles_from true r)
        else
          match r with
          | String d r' =>
              if Ascii.eqb d "n" && negb (starts_word r')
              then String " " (remove_articles_from true r')
              else String c (remove_articles_from true r)
          | "" => String c (remove_articles_from true r)
          end
      else if Ascii.eqb c "t" then
        match r with
        | String d (String e r') =>
            if Ascii.eqb d "h" && Ascii.eqb e "e" && negb (starts_word r')
            then String " " (remove_articles_from true r')
            else String c (remove_articles_from true r)
        | _ => String c (remove_articles_from true r)
        end
      else String c (remove_articles_from (Str.is_word c) r)
  end.

Definition remove_articles (text : string) : string :=
  remove_articles_from false text.

Definition white_space_fix (text : string) : string :=
  Str.join " " (Str.split text).

Definition normalize_text (s : string) : string :=
  white_space_fix (remove_articles (remove_punc (lower s))).

(** [f1_score].  A [collections.Counter] is a finite multiset; [&] is the
    multiset intersection and [sum(common.values())] its size. *)
Definition f1_score (prediction ground_truth : string) : result Q :=
  let prediction_tokens := Str.split prediction in
  let ground_truth_tokens := Str.split ground_truth in
  let common : gmultiset string :=
    list_to_set_disj prediction_tokens ∩ list_to_set_disj ground_truth_tokens in
  let num_same := Z.of_nat (size common) in
  if num_same =? 0 then Ok (inject_Z 0)
  else
    precision ← fdiv (1 * inject_Z num_same) (inject_Z (len prediction_tokens));
    recall ← fdiv (1 * inject_Z num_same) (inject_Z (len ground_truth_tokens));
    fdiv (2 * precision * recall) (precision + recall).

(** [computeF1] *)
Definition computeF1 (outputs : list string) (targets : list (list string)) : result Q :=
  outs ← traverse (fun '(o, t) => metric_max_over_ground_truths Q_gt f1_score o t)
    (zip outputs targets);
  q ← fdiv (sum_floats outs) (inject_Z (len outputs));
  Ok (q * 100)%Q.

(** *** Logical forms: [to_lf] and [computeLFEM] *)

(** The values found in a gold SQL query. *)
Inductive pyval : Set :=
| VNone
| VInt (n : Z)
| VStr (s : string).

Global Instance pyval_eq_dec : EqDecision pyval.
Proof. solve_decision. Defined.

(** [str(v)] *)
Definition str (v : pyval) : string :=
  match v with
  | VNone => "None"
  | VInt n => Str.of_int n
  | VStr s => s
  end.

(** Addresses of the objects that are shared and updated in place. *)
Abbreviation loc := positive.

(** The dict [ex['sql']]: its keys are ['sel'], ['conds'] and ['agg'];
    [sql_conds] lists the addresses of the condition lists
    [[column, operator, value]]. *)
Record sql_dict : Set := {
  sql_sel : pyval;
  sql_conds : list loc;
  sql_agg : pyval
}.

Record heap : Type := {
  sqls : gmap loc sql_dict;
  cond_lists : gmap loc (list pyval)
}.

(** An answer record [ex] of the SQL task. *)
Record example : Set := {
  ex_answer : string;
  ex_table_header : list string;
  ex_sql : loc
}.

(** [Query.agg_ops] and [Query.cond_ops] of [tasks/generic_dataset.py],
    which is not part of the sources at hand: taken as parameters. *)
Record Query : Set := {
  agg_ops : list string;
  cond_ops : list string
}.

(** The dict [{'sel': sel, 'conds': full_conditions, 'agg': agg}]. *)
Record logical_form : Set := {
  lf_sel : option Z;
  lf_conds : list (list pyval);
  lf_agg : Z
}.

(** [{x: i for i, x in enumerate(l)}]: a later entry overrides. *)
Definition index_dict (l : list string) : gmap string Z :=
  fold_left (fun d '(i, x) => <[x := i]> d) (enumerate l) ∅.

(** [for col, idx in headers: if col == s: sel = idx] *)
Definition find_sel (headers : list (string * Z)) (s : string) (sel : option Z) : option Z :=
  fold_left (fun sel '(col, idx) => if decide (col = s) then Some idx else sel) headers sel.

(** [l[1:-2]] *)
Definition slice_1_m2 {A} (l : list A) : list A :=
  List.firstn (length l - 3) (List.skipn 1 l).

(** [l[:-1]] *)
Definition slice_m1 {A} (l : list A) : list A :=
  List.firstn (length l - 1) l.

(** The rewriting of the tokens of [x] that contain [tag] ([Col] or
    [Cond]) into the entry of [names] with that number. *)
Definition resolve (tag : string) (names : list string) (x : string) : result string :=
  if Str.contains tag x then
    new_x ← traverse (fun t =>
      if Str.contains tag t then
        idx ← Str.to_int (Str.replace tag "" t);
        index names idx
      else Ok t) (Str.split x);
    Ok (Str.join " " new_x)
  else Ok x.

(** One round of [for i, x in enumerate(conds)]. *)
Definition add_condition (headers_unsorted : list (string * Z)) (conditionals : list string)
    (full_conditions : list (list pyval)) (ix : Z * string) : result (list (list pyval)) :=
  let '(i, x) := ix in
  if i mod 2 =? 0 then
    let x := Str.split x in
    x0 ← index x 0;
    col_num ← Str.to_int (Str.replace "Col" "" x0);
    x1 ← index x 1;
    opp_num ← Str.to_int (Str.replace "Cond" "" x1);
    Ok (full_conditions ++ [[VInt col_num; VInt opp_num]])
  else
    let x := Str.split x in
    last ← index x (-1);
    let x := if decide (last = "and") then slice_m1 x else x in
    let x := Str.join " " x in
    x ← resolve "Col" (map fst headers_unsorted) x;
    x ← resolve "Cond" conditionals x;
    cond ← index full_conditions (-1);
    Ok (slice_m1 full_conditions ++ [cond ++ [VStr x]]).

(** The conditions after [where]. *)
Definition parse_conditions (headers headers_unsorted : list (string * Z))
    (conditionals : list string) (condition_s : string) : result (list (list pyval)) :=
  let condition_s := " " +:+ condition_s +:+ " " in
  let condition_s :=
    fold_left (fun acc (col : string * Z) =>
                 Str.replace (" " +:+ col.1 +:+ " ") (" Col" +:+ Str.of_int col.2 +:+ " ") acc)
              headers condition_s in
  let condition_s := Str.strip condition_s in
  let condition_s :=
    fold_left (fun acc '(idx, col) =>
                 Str.join " "
                   (map (fun t => if decide (t = col) then "Cond" +:+ Str.of_int idx else t)
                        (Str.split acc)))
              (enumerate conditionals) condition_s in
  let s := condition_s in
  let conds := Str.re_split_col_cond s in
  let conds := if len conds =? 0 then [s] else conds in
  let conds := List.filter (fun x => 0 <? len_str (Str.strip x)) conds in
  fold_result (add_condition headers_unsorted conditionals) (enumerate conds) [].

(** [to_lf] *)
Definition to_lf (query : Query) (s : string) (table_header : list string) : result logical_form :=
  let aggs := map Str.lower (agg_ops query) in
  let agg_to_idx := index_dict aggs in
  let conditionals := map Str.lower (cond_ops query) in
  let headers_unsorted := map (fun '(i, y) => (Str.lower y, i)) (enumerate table_header) in
  let headers := sort_desc (fun x : string * Z => String.length x.1) headers_unsorted in
  let '(s, condition_s) :=
    if Str.contains "where" s then
      match Str.split_once "where" s with
      | Some (before, after) => (before, Some after)
      | None => (s, None)
      end
    else (s, None) in
  let s := Str.join " " (slice_1_m2 (Str.split s)) in
  let sel := find_sel headers s None in
  '(sel, agg) ←
    match sel with
    | Some _ => Ok (sel, 0)
    | None =>
        let s := Str.split s in
        s0 ← index s 0;
        agg ← getitem agg_to_idx s0;
        let s := Str.join " " (List.skipn 1 s) in
        Ok (find_sel headers s sel, agg)
    end;
  full_conditions ←
    match condition_s with
    | Some condition_s => parse_conditions headers headers_unsorted conditionals condition_s
    | None => Ok []
    end;
  Ok {| lf_sel := sel; lf_conds := full_conditions; lf_agg := agg |}.

(** [lc[2] = str(lc[2]).lower()] on the condition list at address [c]. *)
Definition lower_cond (h : heap) (c : loc) : result unit * heap :=
  match cond_lists h !! c with
  | None => (Raise KeyError, h)
  | Some lc =>
      match lc !! 2%nat with
      | None => (Raise IndexError, h)
      | Some v =>
          (Ok (), {| sqls := sqls h;
                     cond_lists := <[c := <[2%nat := VStr (Str.lower (str v))]> lc]> (cond_lists h) |})
      end
  end.

(** [for c in conds: ...]: stops at the first condition that raises; the
    conditions before it stay lowercased. *)
Fixpoint lower_conds (h : heap) (conds : list loc) : result unit * heap :=
  match conds with
  | [] => (Ok (), h)
  | c :: conds' =>
      match lower_cond h c with
      | (Ok _, h') => lower_conds h' conds'
      | (Raise e, h') => (Raise e, h')
      end
  end.

Definition sel_eq (sel : option Z) (v : pyval) : bool :=
  match sel, v with
  | None, VNone => true
  | Some n, VInt m => n =? m
  | _, _ => false
  end.

(** [lf == gt]: the two dicts have the same three keys; their values are
    compared, the condition lists through their addresses. *)
Definition lf_eq (h : heap) (lf : logical_form) (gt : sql_dict) : bool :=
  sel_eq (lf_sel lf) (sql_sel gt)
  && bool_decide (Some (lf_conds lf) = mapM (fun c => cond_lists h !! c) (sql_conds gt))
  && bool_decide (VInt (lf_agg lf) = sql_agg gt).

(** The body of the [try] block for the prediction [g] and the record [ex]. *)
Definition lfem_try (query : Query) (g : string) (ex : example) (h : heap) : result bool * heap :=
  match to_lf query g (ex_table_header ex) with
  | Raise e => (Raise e, h)
  | Ok lf =>
      match sqls h !! ex_sql ex with
      | None => (Raise KeyError, h)
      | Some gt =>
          let conds := sql_conds gt in
          match lower_conds h conds with
          | (Raise e, h') => (Raise e, h')
          | (Ok _, h') =>
              let gt' := {| sql_sel := sql_sel gt; sql_conds := conds; sql_agg := sql_agg gt |} in
              let h'' := {| sqls := <[ex_sql ex := gt']> (sqls h'); cond_lists := cond_lists h' |} in
              (Ok (lf_eq h'' lf gt'), h'')
          end
      end
  end.

(** One round of the loop of [computeLFEM]; [except BaseException: continue]
    drops the exception and keeps what was written before it. *)
Definition lfem_step (query : Query)
    (st : Z * Z * list (list string) * heap) (gex : string * example)
    : Z * Z * list (list string) * heap :=
  let '(count, correct, text_answers, h) := st in
  let '(g, ex) := gex in
  let count := count + 1 in
  let text_answers := text_answers ++ [[Str.lower (ex_answer ex)]] in
  match lfem_try query g ex h with
  | (Ok b, h') => (count, correct + (if b then 1 else 0), text_answers, h')
  | (Raise _, h') => (count, correct, text_answers, h')
  end.

(** [computeLFEM] *)
Definition computeLFEM (query : Query) (greedy : list string) (answer : list (list example))
    (h : heap) : result (Q * list (list string)) * heap :=
  match traverse (fun x => index x 0) answer with
  | Raise e => (Raise e, h)
  | Ok answer =>
      let '(count, correct, text_answers, h') :=
        fold_left (lfem_step query) (zip greedy answer) (0, 0, [], h) in
      match truediv correct count with
      | Ok v => (Ok ((v * 100)%Q, text_answers), h')
      | Raise e => (Raise e, h')
      end
  end.

(** *** The other scorers *)

(** [partial_exact_match] *)
Definition partial_exact_match (prediction ground_truth : string) : result Q :=
  let prediction := Str.split prediction in
  let ground_truth := Str.split ground_truth in
  let is_correct_token :=
    map (fun '(p, g) => bool_decide (p = g)) (zip prediction ground_truth) in
  truediv (sum_bools is_correct_token) (len is_correct_token).

(** Ground truths that are no text: the records of the SQL examples, or
    dialogue turns. *)
Definition foreign : Type :=
  (list (list example) + list (list (string * string)))%type.

(** What the scorers get from other modules and from libraries:
    [requote_program] of [util.py], the metrics of [datasets.load_metric],
    [sacrebleu], [pyrouge] and [seqeval].  Each is a function of its
    arguments that gives a score or raises.  What these libraries do with
    ground truths that are no text is not known here: [foreign_score name
    outputs targets lang] stands for the outcome of the scorer of the
    metric [name] on such ground truths. *)
Record externals : Type := {
  foreign_score : string -> list string -> foreign -> string -> result Q;
  requote_program : string -> string;
  precision_metric : list string -> list string -> result Q;
  recall_metric : list string -> list string -> result Q;
  f1_metric : list string -> list string -> result Q;
  bertscore_metric : list string -> list (list string) -> string -> result (list Q);
  ter_corpus_score : list string -> list (list string) -> result Q;
  corpus_bleu : bool -> string -> list string -> list (list string) -> result Q;
  sacrebleu_metric : list string -> list (list string) -> result Q;
  bleu_metric : list (list string) -> list (list (list string)) -> result Q;
  score_summary : list (list string) -> list (list (list string)) -> result (gmap string Q);
  seqeval_f1_score : bool -> list (list string) -> list (list string) -> result Q
}.

(** [structure_match] *)
Definition structure_match (ext : externals) (prediction ground_truth : string) : bool :=
  bool_decide (requote_program ext prediction = requote_program ext ground_truth).

(** [[target[0] for target in targets]] *)
Definition firsts {A} (targets : list (list A)) : result (list A) :=
  traverse (fun target => index target 0) targets.

Definition computeSequenceClassificationPrecision (ext : externals)
    (outputs : list string) (targets : list (list string)) : result Q :=
  targets ← firsts targets; precision_metric ext targets outputs.

Definition computeSequenceClassificationRecall (ext : externals)
    (outputs : list string) (targets : list (list string)) : result Q :=
  targets ← firsts targets; recall_metric ext targets outputs.

Definition computeSequenceClassificationF1 (ext : externals)
    (outputs : list string) (targets : list (list string)) : result Q :=
  targets ← firsts targets; f1_metric ext targets outputs.

Definition computePartialEM (outputs : list string) (targets : list (list string)) : result Q :=
  outs ← traverse (fun '(o, t) => metric_max_over_ground_truths Q_gt partial_exact_match o t)
    (zip outputs targets);
  q ← fdiv (sum_floats outs) (inject_Z (len outputs));
  Ok (q * 100)%Q.

Definition computeSM (ext : externals) (outputs : list string) (targets : list (list string))
    : result Q :=
  outs ← traverse
    (fun '(o, t) => metric_max_over_ground_truths bool_gt
                      (fun p g => Ok (structure_match ext p g)) o t)
    (zip outputs targets);
  q ← truediv (sum_bools outs) (len outputs);
  Ok (q * 100)%Q.

Definition computeBERTScore (ext : externals) (outputs : list string)
    (targets : list (list string)) (lang : string) : result Q :=
  f1 ← bertscore_metric ext outputs targets lang;
  q ← fdiv (sum_floats f1) (inject_Z (len outputs));
  Ok (q * 100)%Q.

(** [[[t[i] for t in targets] for i in range(len(targets[0]))]] *)
Definition by_reference (targets : list (list string)) : result (list (list string)) :=
  t0 ← index targets 0;
  traverse (fun i => traverse (fun t => index t (Z.of_nat i)) targets) (seq 0 (length t0)).

Definition computeTER (ext : externals) (outputs : list string) (targets : list (list string))
    : result Q :=
  targets ← by_reference targets;
  score ← ter_corpus_score ext outputs targets;
  Ok (score * 100)%Q.

Definition computeBLEU (ext : externals) (outputs : list string) (targets : list (list string))
    : result Q :=
  targets ← by_reference targets;
  corpus_bleu ext true "13a" outputs targets.

Definition computeCasedBLEU (ext : externals) (outputs : list string)
    (targets : list (list string)) : result Q :=
  sacrebleu_metric ext outputs targets.

Definition computeT5BLEU (ext : externals) (outputs : list string) (targets : list (list string))
    : result Q :=
  targets ← by_reference targets;
  corpus_bleu ext false "intl" outputs targets.

Definition computeNMTBLEU (ext : externals) (outputs : list string)
    (targets : list (list string)) : result Q :=
  let outputs := map (Str.split_on " ") outputs in
  let targets := map (map (Str.split_on " ")) targets in
  bleu ← bleu_metric ext outputs targets;
  Ok (bleu * 100)%Q.

(** [split_sentences] *)
Definition split_sentences (txt : string) (splitchar : ascii) : list (list string) :=
  map Str.split
    (List.filter (fun s => 0 <? len_str s) (Str.split_on splitchar (Str.strip txt))).

(** [compute_rouge_scores] with its default arguments.  The references of
    an example are kept in the order of their letters [A], [B], ...; the
    pool maps [score_summary] over the examples.  The constructor of
    [Rouge] is taken to succeed. *)
Definition compute_rouge_scores (ext : externals) (summs : list string)
    (refs : list (list string)) : result (list (gmap string Q)) :=
  if negb (len summs =? len refs) then Raise AssertionError
  else
    let rouge_args :=
      map (fun '(summ, ref) =>
             let ref_dict :=
               map (fun r => List.filter (fun x => 0 <? len x) (split_sentences r ".")) ref in
             let s := List.filter (fun x => 0 <? len x) (split_sentences summ ".") in
             (s, ref_dict))
          (zip summs refs) in
    traverse (fun '(s, ref_dict) => score_summary ext s ref_dict) rouge_args.

(** [computeROUGE]; [None] when there is no example. *)
Definition computeROUGE (ext : externals) (greedy : list string) (answer : list (list string))
    : result (option (gmap string Q)) :=
  rouges ← compute_rouge_scores ext greedy answer;
  match rouges with
  | [] => Ok None
  | r0 :: _ =>
      avg ← fold_result
        (fun (avg_rouges : gmap string Q) (key : string) =>
           q ← fdiv (sum_floats (map (fun r : gmap string Q => default (inject_Z 0) (r !! key)) rouges))
                    (inject_Z (len rouges));
           Ok (<[key := (q * 100)%Q]> avg_rouges))
        (map fst (map_to_list r0)) ∅;
      Ok (Some avg)
  end.

(** [rouge[key]] in [compute_metrics] *)
Definition rouge_item (rouge : option (gmap string Q)) (key : string) : result Q :=
  match rouge with
  | None => Raise TypeError
  | Some d => getitem d key
  end.

(** [simplify] *)
Definition simplify (answer : string) : gset string :=
  let simplified := Str.split (Str.lower (Str.strip answer)) in
  let simplified :=
    map (Str.filter_chars (fun c => negb (Str.is_punct c))) simplified in
  list_to_set simplified ∖ {[ "the"; "a"; "an"; "and"; "" ]}.

Definition unanswerable (s : gset string) : bool :=
  bool_decide ("unanswerable" ∈ s) && bool_decide (size s = 1%nat).

(** [score]: the counts [tp, tn, sys_pos, real_pos].  With no gold answer
    [gold] stays the empty list, which equals no set and holds nothing. *)
Definition score (answer : string) (gold : list string) : Z * Z * Z * Z :=
  let gold : option (gset string) :=
    if 0 <? len gold then Some (⋃ (map simplify gold)) else None in
  let answer := simplify answer in
  let gold_unanswerable := from_option unanswerable false gold in
  let tp := if bool_decide (Some answer = gold) && negb gold_unanswerable then 1 else 0 in
  let tn := if bool_decide (Some answer = gold) && gold_unanswerable then 1 else 0 in
  let sys_pos := if negb (unanswerable answer) then 1 else 0 in
  let real_pos := if negb gold_unanswerable then 1 else 0 in
  (tp, tn, sys_pos, real_pos).

(** [computeCF1]: [(f * 100, p * 100, r * 100)] *)
Definition computeCF1 (greedy : list string) (answer : list (list string)) : result (Q * Q * Q) :=
  let '(tp, tn, sys_pos, real_pos) :=
    fold_left (fun '(a, b, c, d) '(g, a') =>
                 let '(tp, tn, sys_pos, real_pos) := score g a' in
                 (a + tp, b + tn, c + sys_pos, d + real_pos))
              (zip greedy answer) (0, 0, 0, 0) in
  if tp =? 0 then Ok (0 * 100, 0 * 100, 0 * 100)%Q
  else
    p ← fdiv (inject_Z tp) (inject_Z sys_pos);
    r ← fdiv (inject_Z tp) (inject_Z real_pos);
    f ← fdiv (2 * p * r) (p + r);
    Ok (f * 100, p * 100, r * 100)%Q.

(** *** Dialogue state tracking *)

(** The value under ['request']: the empty dict of the default state, or
    the list read from the line. *)
Inductive request_slot : Set :=
| NoRequest
| Requests (l : list string).

Global Instance request_slot_eq_dec : EqDecision request_slot.
Proof. solve_decision. Defined.

Record delta_state : Type := {
  inform : gmap string string;
  request : request_slot
}.

(** [to_delta_state]: any exception leaves the default state, which the
    [finally] clause returns. *)
Definition to_delta_state (line : string) : delta_state :=
  let default_state := {| inform := ∅; request := NoRequest |} in
  if bool_decide (line = "None") || bool_decide (Str.strip line = "")
     || bool_decide (Str.strip line = ";")
  then default_state
  else
    match map (fun x => map Str.strip (Str.split_on "," (Str.strip x))) (Str.split_on ";" line) with
    | [inform; request] =>
        let inform_pairs :=
          fold_left (fun (pairs : gmap string string) i =>
                       match Str.split_on ":" i with
                       | [k; v] => <[Str.strip k := Str.strip v]> pairs
                       | _ => pairs
                       end)
                    inform ∅ in
        {| inform := inform_pairs; request := Requests request |}
    | _ => default_state
    end.

(** [update_state]: every slot of [delta] is written into [state]. *)
Definition update_state (state delta : gmap string string) : gmap string string :=
  delta ∪ state.

(** [dict_cmp] *)
Definition dict_cmp (d1 d2 : gmap string string) : bool :=
  let cmp (a b : gmap string string) :=
    bool_decide (map_Forall (fun k1 v1 => b !! k1 = Some v1) a) in
  cmp d1 d2 && cmp d2 d1.

(** The order of the tuples [(turn, prediction, gold, idx)]. *)
Definition example_le (a b : string * string * string * Z) : bool :=
  let '(a0, a1, a2, a3) := a in
  let '(b0, b1, b2, b3) := b in
  match String.compare a0 b0 with
  | Lt => true
  | Gt => false
  | Eq =>
      match String.compare a1 b1 with
      | Lt => true
      | Gt => false
      | Eq =>
          match String.compare a2 b2 with
          | Lt => true
          | Gt => false
          | Eq => a3 <=? b3
          end
      end
  end.

Definition indexed_le (a b : Z * string) : bool :=
  if a.1 =? b.1 then String.leb a.2 b.2 else a.1 <? b.1.

Record dialogue_counts : Type := {
  ldt : option string;
  state : gmap string string;
  answer_state : gmap string string;
  turn_request_positives : Z;
  turn_goal_positives : Z;
  joint_goal_positives : Z
}.

(** One round of [for ex in examples]. *)
Definition dialogue_step (st : dialogue_counts) (ex : string * string * string * Z)
    : dialogue_counts :=
  let '(ex0, ex1, ex2, _) := ex in
  let fresh :=
    match ldt st with
    | None => true
    | Some l =>
        negb (bool_decide (slice_m1 (Str.split_on "_" l) = slice_m1 (Str.split_on "_" ex0)))
    end in
  let state0 := if fresh then ∅ else state st in
  let answer_state0 := if fresh then ∅ else answer_state st in
  let ldt0 := if fresh then Some ex0 else ldt st in
  let delta := to_delta_state ex1 in
  let answer_delta := to_delta_state ex2 in
  let state1 := update_state state0 (inform delta) in
  let answer_state1 := update_state answer_state0 (inform answer_delta) in
  {| ldt := ldt0;
     state := state1;
     answer_state := answer_state1;
     turn_request_positives :=
       turn_request_positives st
       + (if bool_decide (request delta = request answer_delta) then 1 else 0);
     turn_goal_positives :=
       turn_goal_positives st
       + (if dict_cmp (inform delta) (inform answer_delta) then 1 else 0);
     joint_goal_positives :=
       joint_goal_positives st + (if dict_cmp state1 answer_state1 then 1 else 0) |}.

(** [computeDialogue].  [turn_of] reads [a[0][0]] and [a[0][1]] in the
    first element of an answer: the two components of a pair, or the first
    two characters of a string. *)
Definition computeDialogue {A} (turn_of : A -> result (string * string))
    (greedy : list string) (answer : list (list A))
    : result (Q * Q * Q * list (list string)) :=
  examples ← traverse
    (fun '(idx, (g, a)) => a0 ← index a 0; t ← turn_of a0; Ok (t.1, g, t.2, idx))
    (enumerate (zip greedy answer));
  let examples := sort_asc example_le examples in
  let st := fold_left dialogue_step examples
    {| ldt := None; state := ∅; answer_state := ∅;
       turn_request_positives := 0; turn_goal_positives := 0; joint_goal_positives := 0 |} in
  joint_goal_em ← truediv (joint_goal_positives st) (len examples);
  turn_request_em ← truediv (turn_request_positives st) (len examples);
  turn_goal_em ← truediv (turn_goal_positives st) (len examples);
  let answer := map (fun '(_, _, gold, idx) => (idx, gold)) examples in
  let answer := sort_asc indexed_le answer in
  let answer := map (fun x : Z * string => [x.2]) answer in
  Ok ((joint_goal_em * 100)%Q, (turn_request_em * 100)%Q, (turn_goal_em * 100)%Q, answer).

Definition turn_of_pair (a0 : string * string) : result (string * string) := Ok a0.

Definition turn_of_text (a0 : string) : result (string * string) :=
  match a0 with
  | String c0 (String c1 _) => Ok (String c0 "", String c1 "")
  | _ => Raise IndexError
  end.

(** *** The dispatcher *)

(** The answers after the first statement of [compute_metrics]: a list of
    lists of ground truths (strings), of SQL records or of dialogue turns. *)
Inductive nested : Type :=
| TextLists (a : list (list string))
| Records (a : list (list example))
| Turns (a : list (list (string * string))).

(** The argument [answer]: plain strings, which are wrapped one by one, or
    lists already. *)
Inductive answers : Type :=
| Texts (a : list string)
| Lists (a : nested).

Definition nested_is_empty (a : nested) : bool :=
  match a with
  | TextLists [] | Records [] | Turns [] => true
  | _ => false
  end.

(** [if not isinstance(answer[0], list): answer = [[a] for a in answer]] *)
Definition wrap (answer : answers) : result nested :=
  match answer with
  | Texts [] => Raise IndexError
  | Texts a => Ok (TextLists (map (fun x => [x]) a))
  | Lists a => if nested_is_empty a then Raise IndexError else Ok a
  end.

Definition wanted (name : string) (requested_metrics : list string) : bool :=
  bool_decide (name ∈ requested_metrics).

(** [computeEM] on ground truths that are no text.  A [str] equals no
    record and no turn, so [exact_match] gives [False] each time; the rest
    is as in [computeEM]. *)
Definition computeEM_foreign {A} (outputs : list string) (targets : list (list A)) : result Q :=
  outs ← traverse
    (fun '(o, t) => scores ← traverse (fun _ : A => Ok false) t; max_by bool_gt scores)
    (zip outputs targets);
  q ← truediv (sum_bools outs) (len outputs);
  Ok (q * 100)%Q.

(** The scorers that a request selects, one after the other: the first
    that raises ends the call. *)
Fixpoint first_raise (requested_metrics : list string) (scorers : list (string * result Q))
    (last : exn) : exn :=
  match scorers with
  | [] => last
  | (name, score) :: scorers' =>
      if wanted name requested_metrics then
        match score with
        | Raise e => e
        | Ok _ => first_raise requested_metrics scorers' last
        end
      else first_raise requested_metrics scorers' last
  end.

(** [compute_metrics] from [em] on, when the ground truths are no text
    (records without [lfem], turns without [joint_goal_em]).  [computeEM]
    comes first.  When it has returned there is a first prediction, and its
    first ground truth.  Of the scorers that follow, in the order of
    [compute_metrics], [computePartialEM], [computeNMTBLEU], [computeF1] and
    the two [ner] blocks call [split] on that ground truth, which raises
    [AttributeError]; the others hand the ground truths to a library
    ([foreign_score]).  When every requested scorer has returned, the
    answers are normalised and [lower] raises [AttributeError] on the same
    ground truth.  So the call does not return: [foreign_exit] is the
    exception that ends it. *)
Definition foreign_exit (ext : externals) (greedy : list string)
    (requested_metrics : list string) (lang : string) (answer : foreign) : exn :=
  let em :=
    match answer with
    | inl a => computeEM_foreign greedy a
    | inr a => computeEM_foreign greedy a
    end in
  match em with
  | Raise e => e
  | Ok _ =>
      let library name := (name, foreign_score ext name greedy answer lang) in
      first_raise requested_metrics
        [("pem", Raise AttributeError); library "sm"; library "ter"; library "bertscore";
         library "casedbleu"; library "bleu"; library "t5_bleu";
         ("nmt_bleu", Raise AttributeError); library "avg_rouge"; library "sc_precision";
         library "sc_recall"; library "sc_f1"; ("f1", Raise AttributeError);
         ("ner_f1_IOB1", Raise AttributeError); ("ner_f1", Raise AttributeError)]
        AttributeError
  end.

(** The ground truths as text, for the scorers from [em] on. *)
Definition as_texts (ext : externals) (greedy : list string) (requested_metrics : list string)
    (lang : string) (answer : nested) : result (list (list string)) :=
  match answer with
  | TextLists a => Ok a
  | Records a => Raise (foreign_exit ext greedy requested_metrics lang (inl a))
  | Turns a => Raise (foreign_exit ext greedy requested_metrics lang (inr a))
  end.

(** [if name in requested_metrics: v = ...; metric_keys.append(name);
    metric_values.append(v)] *)
Definition add_metric (requested_metrics : list string) (name : string) (compute : result Q)
    (kv : list string * list Q) : result (list string * list Q) :=
  if wanted name requested_metrics then
    v ← compute; Ok (kv.1 ++ [name], kv.2 ++ [v])
  else Ok kv.

(** [convert_IOB2_to_IOB1]: each label is the token list of one sentence;
    the assignment of a string plus a list raises. *)
Fixpoint convert_IOB2_to_IOB1 (cur_category : option (list string))
    (labels : list (list string)) : result unit :=
  match labels with
  | [] => Ok ()
  | label :: labels' =>
      label0 ← index label 0;
      if bool_decide (label0 = "B") && negb (bool_decide (Some (List.skipn 2 label) = cur_category))
      then Raise TypeError
      else convert_IOB2_to_IOB1 (Some (List.skipn 2 label)) labels'
  end.

(** A dict with its keys in the order of their first insertion. *)
Fixpoint dict_set (k : string) (v : Q) (d : list (string * Q)) : list (string * Q) :=
  match d with
  | [] => [(k, v)]
  | (k', v') :: d' =>
      if decide (k = k') then (k, v) :: d' else (k', v') :: dict_set k v d'
  end.

(** [dict(pairs)] and [collections.OrderedDict(pairs)] *)
Definition dict_of (pairs : list (string * Q)) : list (string * Q) :=
  fold_left (fun d '(k, v) => dict_set k v d) pairs [].

Fixpoint dict_get (d : list (string * Q)) (k : string) : result Q :=
  match d with
  | [] => Raise KeyError
  | (k', v) :: d' => if decide (k = k') then Ok v else dict_get d' k
  end.

(** The part of [compute_metrics] between the [lfem] block and the last two
    statements: the scorers, which only read their arguments, fill
    [metric_keys] and [metric_values]. *)
Definition collect_metrics (ext : externals) (greedy : list string)
    (requested_metrics : list string) (lang : string)
    (st : list string * list Q * nested) : result (list string * list Q * nested) :=
  let '(metric_keys, metric_values, answer) := st in
  '(kv, answer) ←
    (if wanted "joint_goal_em" requested_metrics then
       '(joint_goal_em, request_em, turn_goal_em, answer) ←
         match answer with
         | Turns a => computeDialogue turn_of_pair greedy a
         | TextLists a => computeDialogue turn_of_text greedy a
         | Records a => computeDialogue (fun _ : example => Raise KeyError) greedy a
         end;
       let avg_dialogue := ((joint_goal_em + request_em) / 2)%Q in
       Ok (metric_keys ++ ["joint_goal_em"; "turn_request_em"; "turn_goal_em"; "avg_dialogue"],
           metric_values ++ [joint_goal_em; request_em; turn_goal_em; avg_dialogue],
           TextLists answer)
     else Ok (metric_keys, metric_values, answer));
  texts ← as_texts ext greedy requested_metrics lang answer;
  em ← computeEM greedy texts;
  let kv := (kv.1 ++ ["em"], kv.2 ++ [em]) in
  kv ← add_metric requested_metrics "pem" (computePartialEM greedy texts) kv;
  kv ← add_metric requested_metrics "sm" (computeSM ext greedy texts) kv;
  kv ← add_metric requested_metrics "ter" (computeTER ext greedy texts) kv;
  kv ← add_metric requested_metrics "bertscore" (computeBERTScore ext greedy texts lang) kv;
  kv ← add_metric requested_metrics "casedbleu" (computeCasedBLEU ext greedy texts) kv;
  kv ← add_metric requested_metrics "bleu" (computeBLEU ext greedy texts) kv;
  kv ← add_metric requested_metrics "t5_bleu" (computeT5BLEU ext greedy texts) kv;
  kv ← add_metric requested_metrics "nmt_bleu" (computeNMTBLEU ext greedy texts) kv;
  kv ←
    (if wanted "avg_rouge" requested_metrics then
       rouge ← computeROUGE ext greedy texts;
       r1 ← rouge_item rouge "rouge_1_f_score";
       r2 ← rouge_item rouge "rouge_2_f_score";
       rl ← rouge_item rouge "rouge_l_f_score";
       let avg_rouge := ((r1 + r2 + rl) / 3)%Q in
       r1 ← rouge_item rouge "rouge_1_f_score";
       r2 ← rouge_item rouge "rouge_2_f_score";
       rl ← rouge_item rouge "rouge_l_f_score";
       Ok (kv.1 ++ ["rouge1"; "rouge2"; "rougeL"; "avg_rouge"],
           kv.2 ++ [r1; r2; rl; avg_rouge])
     else Ok kv);
  kv ← add_metric requested_metrics "sc_precision"
         (computeSequenceClassificationPrecision ext greedy texts) kv;
  kv ← add_metric requested_metrics "sc_recall"
         (computeSequenceClassificationRecall ext greedy texts) kv;
  kv ← add_metric requested_metrics "sc_f1"
         (computeSequenceClassificationF1 ext greedy texts) kv;
  kv ← add_metric requested_metrics "f1" (computeF1 greedy texts) kv;
  kv ← add_metric requested_metrics "ner_f1_IOB1"
         (let greedy_processed := map Str.split greedy in
          answer0 ← firsts texts;
          let answer_processed := map Str.split answer0 in
          convert_IOB2_to_IOB1 None greedy_processed;;
          convert_IOB2_to_IOB1 None answer_processed;;
          f1 ← seqeval_f1_score ext true greedy_processed answer_processed;
          Ok (f1 * 100)%Q) kv;
  kv ← add_metric requested_metrics "ner_f1"
         (let greedy_processed := map Str.split greedy in
          answer0 ← firsts texts;
          let answer_processed := map Str.split answer0 in
          f1 ← seqeval_f1_score ext false greedy_processed answer_processed;
          Ok (f1 * 100)%Q) kv;
  let norm_greedy := map normalize_text greedy in
  let norm_answer := map (map normalize_text) texts in
  kv ← add_metric requested_metrics "nf1" (computeF1 norm_greedy norm_answer) kv;
  kv ← add_metric requested_metrics "nem" (computeEM norm_greedy norm_answer) kv;
  kv ←
    (if wanted "corpus_f1" requested_metrics then
       '(corpus_f1, precision, recall) ← computeCF1 norm_greedy norm_answer;
       Ok (kv.1 ++ ["corpus_f1"; "precision"; "recall"], kv.2 ++ [corpus_f1; precision; recall])
     else Ok kv);
  Ok (kv, answer).

(** The last two statements: [metric_dict = dict(zip(metric_keys,
    metric_values))], then the ordered dict of the requested metrics. *)
Definition select_metrics (requested_metrics : list string) (kv : list string * list Q)
    : result (list (string * Q)) :=
  let metric_dict := dict_of (zip kv.1 kv.2) in
  pairs ← traverse (fun key => v ← dict_get metric_dict key; Ok (key, v)) requested_metrics;
  Ok (dict_of pairs).

(** The [lfem] block, the only part that writes into its arguments. *)
Definition lfem_block (query : Query) (greedy : list string) (answer : nested) (h : heap)
    : result (list string * list Q * nested) * heap :=
  match answer with
  | Records a =>
      match computeLFEM query greedy a h with
      | (Ok (lfem, answer), h') => (Ok (["lfem"], [lfem], TextLists answer), h')
      | (Raise e, h') => (Raise e, h')
      end
  | TextLists a =>
      (_ ← firsts a;
       if bool_decide (zip greedy a = []) then Raise ZeroDivisionError else Raise TypeError, h)
  | Turns a =>
      (_ ← firsts a;
       if bool_decide (zip greedy a = []) then Raise ZeroDivisionError else Raise TypeError, h)
  end.

(** [compute_metrics] up to the last two statements: [metric_keys],
    [metric_values] and the answers as the scorers leave them. *)
Definition compute_scores (ext : externals) (query : Query)
    (greedy : list string) (answer : answers) (requested_metrics : list string)
    (lang : string) (h : heap) : result (list string * list Q * nested) * heap :=
  match wrap answer with
  | Raise e => (Raise e, h)
  | Ok answer =>
      let '(st, h') :=
        if wanted "lfem" requested_metrics then lfem_block query greedy answer h
        else (Ok ([], [], answer), h) in
      (st ≫= collect_metrics ext greedy requested_metrics lang, h')
  end.

(** [compute_metrics] *)
Definition compute_metrics (ext : externals) (query : Query)
    (greedy : list string) (answer : answers) (requested_metrics : list string)
    (lang : string) (h : heap) : result (list (string * Q) * nested) * heap :=
  let '(scores, h') := compute_scores ext query greedy answer requested_metrics lang h in
  ('(kv, answer) ← scores;
   metric_dict ← select_metrics requested_metrics kv;
   Ok (metric_dict, answer), h').

End Metrics.

(** ** ned/main.py *)

Module Ned.

(** *** The alias trie

    [marisa_trie.Trie] is a library class; it is modelled by a prefix tree
    with the three operations the module uses: construction from keys,
    [key in trie] and [trie.keys(prefix)]. *)
#[local] Unset Elimination Schemes.
Inductive trie : Set :=
| Node (final : bool) (children : list (ascii * trie)).
#[local] Set Elimination Schemes.

Definition empty : trie := Node false [].

Definition final (t : trie) : bool :=
  match t with Node f _ => f end.

Definition children (t : trie) : list (ascii * trie) :=
  match t with Node _ cs => cs end.

Fixpoint find_child (c : ascii) (cs : list (ascii * trie)) : option trie :=
  match cs with
  | [] => None
  | (c', t) :: cs' => if Ascii.eqb c c' then Some t else find_child c cs'
  end.

(** Puts [t] under the character [c], in place of the child it has there. *)
Fixpoint set_child (c : ascii) (t : trie) (cs : list (ascii * trie)) : list (ascii * trie) :=
  match cs with
  | [] => [(c, t)]
  | (c', t') :: cs' => if Ascii.eqb c c' then (c, t) :: cs' else (c', t') :: set_child c t cs'
  end.

Fixpoint insert (key : string) (t : trie) {struct key} : trie :=
  match key with
  | "" => Node true (children t)
  | String c r =>
      Node (final t)
        (set_child c (insert r (default empty (find_child c (children t)))) (children t))
  end.

(** [marisa_trie.Trie(keys)] *)
Definition Trie (keys : list string) : trie :=
  fold_left (fun t key => insert key t) keys empty.

(** [key in trie] *)
Fixpoint member (key : string) (t : trie) {struct key} : bool :=
  match key with
  | "" => final t
  | String c r =>
      match find_child c (children t) with
      | Some t' => member r t'
      | None => false
      end
  end.

(** Every key below a node, each without the path that leads to the node. *)
Fixpoint keys_of (t : trie) : list string :=
  match t with
  | Node f cs =>
      (if f then [""] else [])
      ++ flat_map (fun '(c, t') => map (String c) (keys_of t')) cs
  end.

Fixpoint subtrie (prefix : string) (t : trie) {struct prefix} : option trie :=
  match prefix with
  | "" => Some t
  | String c r =>
      match find_child c (children t) with
      | Some t' => subtrie r t'
      | None => None
      end
  end.

(** [trie.keys(prefix)]: the keys that start with [prefix], in the order of
    the tree. *)
Definition keys (t : trie) (prefix : string) : list string :=
  match subtrie prefix t with
  | Some t' => map (String.append prefix) (keys_of t')
  | None => []
  end.

(** *** The disambiguator object *)

(** The attributes of [self] that the lookups read.  [typeqid2id],
    [unk_id] and [max_features_size] are set by
    [AbstractEntityDisambiguator], which is not part of the sources at
    hand. *)
Record disambiguator : Type := {
  all_aliases : trie;
  alias2type : gmap string string;
  typeqid2id : gmap string Z;
  unk_id : Z;
  max_features_size : Z
}.

(** What comes from [ned_utils.py] and from [nltk]: [is_banned] and
    [normalize_text] of [ned_utils], and the tagger [nltk.pos_tag]. *)
Record helpers : Type := {
  is_banned : string -> bool;
  normalize_text : string -> string;
  pos_tag : list string -> list (string * string)
}.

(** Modelled from the spec: [has_overlap] of [ned_utils.py], which is not
    part of the sources at hand.  It tells whether the token span
    [start, end) overlaps a previously recorded match [[type, beg, end]]. *)
Definition has_overlap (start end_ : Z) (used_aliases : list (Z * Z * Z)) : bool :=
  existsb (fun '(_, alias_start, alias_end) => (start <? alias_end) && (alias_start <? end_))
          used_aliases.

(** [[x] * n] *)
Definition times {A} (x : A) (n : Z) : list A := replicate (Z.to_nat n) x.

(** The windows of [n] consecutive tokens, from the left. *)
Fixpoint windows (n : nat) (tokens : list string) : list (list string) :=
  match tokens with
  | [] => []
  | _ :: tokens' =>
      if (n <=? length tokens)%nat then List.firstn n tokens :: windows n tokens' else []
  end.

(** [nltk.ngrams(tokens, n)] as in nltk 3.7 and later: the windows of
    length [n]; nothing for [n = 0]; [itertools.tee] raises for a negative
    [n].  (Earlier 3.x releases yield the 1-grams for [n <= 0].) *)
Definition ngrams (tokens : list string) (n : Z) : result (list (list string)) :=
  if n <? 0 then Raise ValueError
  else if n =? 0 then Ok []
  else Ok (windows (Z.to_nat n) tokens).

(** [range(hi, lo - 1, -1)]: [count] numbers from [hi] downwards. *)
Fixpoint countdown (hi : Z) (count : nat) : list Z :=
  match count with
  | O => []
  | S count' => hi :: countdown (hi - 1) count'
  end.

Definition range_down (hi lo : Z) : list Z :=
  countdown hi (Z.to_nat (hi - lo + 1)).

(** [l[beg:end] = new] *)
Definition clip (n i : Z) : Z :=
  if i <? 0 then Z.max 0 (i + n) else Z.min i n.

Definition slice_assign {A} (l : list A) (beg end_ : Z) (new : list A) : list A :=
  let lo := clip (len l) beg in
  let hi := Z.max lo (clip (len l) end_) in
  List.firstn (Z.to_nat lo) l ++ new ++ List.skipn (Z.to_nat hi) l.

(** The state of the scan: the counters [start] and [end] and the matches
    recorded so far. *)
Definition scan_state : Type := Z * Z * list (Z * Z * Z).

(** One round of [for gram in ngrams]. *)
Definition scan_gram (self : disambiguator) (env : helpers) (verbs : list string)
    (st : scan_state) (gram : list string) : result scan_state :=
  let '(start, end_, used_aliases) := st in
  let start := start + 1 in
  let end_ := end_ + 1 in
  let gram_text := normalize_text env (Str.join " " gram) in
  if negb (is_banned env gram_text) && negb (bool_decide (gram_text ∈ verbs))
     && member gram_text (all_aliases self)
  then
    if has_overlap start end_ used_aliases then Ok (start, end_, used_aliases)
    else
      type ← getitem (alias2type self) gram_text;
      Ok (start, end_,
          used_aliases ++ [(default (unk_id self) (typeqid2id self !! type), start, end_)])
  else Ok (start, end_, used_aliases).

(** One round of [for n in range(max_entity_len, min_entity_len - 1, -1)]. *)
Definition scan_length (self : disambiguator) (env : helpers) (tokens verbs : list string)
    (used_aliases : list (Z * Z * Z)) (n : Z) : result (list (Z * Z * Z)) :=
  grams ← ngrams tokens n;
  st ← fold_result (scan_gram self env verbs) grams (-1, n - 1, used_aliases);
  Ok st.2.

(** The first two loops of [lookup_ngrams]: the recorded matches. *)
Definition scan_ngrams (self : disambiguator) (env : helpers) (tokens : list string)
    (min_entity_len max_entity_len : Z) : result (list (Z * Z * Z)) :=
  let max_entity_len := Z.min max_entity_len (len tokens) in
  let min_entity_len := Z.min min_entity_len (len tokens) in
  let pos_tagged := pos_tag env tokens in
  let verbs := map fst (List.filter (fun x : string * string => Str.startswith "V" x.2) pos_tagged) in
  fold_result (scan_length self env tokens verbs)
    (range_down max_entity_len min_entity_len) [].

(** [lookup_ngrams] *)
Definition lookup_ngrams (self : disambiguator) (env : helpers) (tokens : list string)
    (min_entity_len max_entity_len : Z) : result (list (list Z)) :=
  let tokens_type_ids :=
    times (times (unk_id self) (max_features_size self)) (len tokens) in
  used_aliases ← scan_ngrams self env tokens min_entity_len max_entity_len;
  Ok (fold_left
        (fun tokens_type_ids '(type_id, beg, end_) =>
           slice_assign tokens_type_ids beg end_
             (times (times type_id (max_features_size self)) (end_ - beg)))
        used_aliases tokens_type_ids).

(** The inner [while] of [lookup_smaller]: how many tokens of the key are
    found, in order, at the head of [rest]. *)
Fixpoint match_tokens (rest key_tokenized : list string) : nat :=
  match rest, key_tokenized with
  | t :: rest', k :: key' => if decide (t = k) then S (match_tokens rest' key') else O
  | _, _ => O
  end.

(** [for key in matched_items]: the number of tokens that the first key
    which matches and is not banned covers, with their entries. *)
Fixpoint try_keys (self : disambiguator) (env : helpers) (rest : list string)
    (matched_items : list string) : result (option (nat * list (list Z))) :=
  match matched_items with
  | [] => Ok None
  | key :: matched_items' =>
      type ← getitem (alias2type self) key;
      let key_tokenized := Str.split key in
      let j := match_tokens rest key_tokenized in
      if (j =? length key_tokenized)%nat then
        if is_banned env (Str.join " " key_tokenized)
        then try_keys self env rest matched_items'
        else
          entries ← traverse
            (fun _ => id ← getitem (typeqid2id self) type;
                      Ok [id * max_features_size self])
            (seq 0 j);
          Ok (Some (j, entries))
      else try_keys self env rest matched_items'
  end.

(** The outer [while i < len(tokens)] of [lookup_smaller]; [None] when the
    loop is still running after [fuel] rounds. *)
Fixpoint lookup_smaller_from (fuel : nat) (self : disambiguator) (env : helpers)
    (tokens : list string) (i : nat) (tokens_type_ids : list (list Z))
    : option (result (list (list Z))) :=
  if (length tokens <=? i)%nat then Some (Ok tokens_type_ids)
  else
    match fuel with
    | O => None
    | S fuel' =>
        let token := default "" (tokens !! i) in
        let matched_items :=
          sort_desc String.length (keys (all_aliases self) token) in
        match try_keys self env (List.skipn i tokens) matched_items with
        | Raise e => Some (Raise e)
        | Ok (Some (j, entries)) =>
            lookup_smaller_from fuel' self env tokens (i + j) (tokens_type_ids ++ entries)
        | Ok None =>
            lookup_smaller_from fuel' self env tokens (i + 1)
              (tokens_type_ids ++ [[unk_id self * max_features_size self]])
        end
    end.

(** [lookup_smaller] *)
Definition lookup_smaller (fuel : nat) (self : disambiguator) (env : helpers)
    (tokens : list string) : option (result (list (list Z))) :=
  lookup_smaller_from fuel self env tokens 0 [].

(** [tokens[i:end]] *)
Definition slice {A} (l : list A) (i end_ : nat) : list A :=
  List.firstn (end_ - i) (List.skipn i l).

(** The inner [while end > i] of [lookup_longer]: the greatest [end] for
    which the tokens from [i] to [end] are an alias; [width] is [end - i]. *)
Fixpoint longest_alias (self : disambiguator) (tokens : list string) (i width : nat)
    : option (nat * string) :=
  match width with
  | O => None
  | S width' =>
      let end_ := (i + width)%nat in
      let tokens_str := Str.join " " (slice tokens i end_) in
      if member tokens_str (all_aliases self) then Some (end_, tokens_str)
      else longest_alias self tokens i width'
  end.

(** The outer [while i < length] of [lookup_longer]. *)
Fixpoint lookup_longer_from (fuel : nat) (self : disambiguator)
    (tokens : list string) (i : nat) (tokens_type_ids : list (list Z))
    : option (result (list (list Z))) :=
  if (length tokens <=? i)%nat then Some (Ok tokens_type_ids)
  else
    match fuel with
    | O => None
    | S fuel' =>
        match longest_alias self tokens i (length tokens - i) with
        | Some (end_, tokens_str) =>
            match traverse
                    (fun _ => type ← getitem (alias2type self) tokens_str;
                              id ← getitem (typeqid2id self) type;
                              Ok [id * max_features_size self])
                    (seq i (end_ - i)) with
            | Ok entries =>
                lookup_longer_from fuel' self tokens end_ (tokens_type_ids ++ entries)
            | Raise e => Some (Raise e)
            end
        | None =>
            lookup_longer_from fuel' self tokens (i + 1)
              (tokens_type_ids ++ [[unk_id self * max_features_size self]])
        end
    end.

(** [lookup_longer] *)
Definition lookup_longer (fuel : nat) (self : disambiguator) (tokens : list string)
    : option (result (list (list Z))) :=
  lookup_longer_from fuel self tokens 0 [].

(** One round of [for ent in entities] in [lookup_entities]. *)
Definition label_entity (self : disambiguator) (tokens_text : string)
    (tokens_type_ids : list (list Z)) (ent : string) : result (list (list Z)) :=
  if negb (member ent (all_aliases self)) then Ok tokens_type_ids
  else
    let ent_num_tokens := len (Str.split_on " " ent) in
    idx ← Str.index ent tokens_text;
    let token_pos :=
      len (Str.split_on " " (Str.strip (Str.take (Z.to_nat idx) tokens_text))) in
    type ← getitem (alias2type self) ent;
    let type := default (unk_id self) (typeqid2id self !! type) in
    Ok (slice_assign tokens_type_ids token_pos (token_pos + ent_num_tokens)
          (times (times type (max_features_size self)) ent_num_tokens)).

(** [lookup_entities] *)
Definition lookup_entities (self : disambiguator) (tokens entities : list string)
    : result (list (list Z)) :=
  let tokens_type_ids :=
    times (times (unk_id self) (max_features_size self)) (len tokens) in
  let tokens_text := Str.join " " tokens in
  fold_result (label_entity self tokens_text) entities tokens_type_ids.

(** [lookup]; [database_lookup_method] is [None] by default. *)
Definition lookup (fuel : nat) (self : disambiguator) (env : helpers) (tokens : list string)
    (database_lookup_method : option string) (min_entity_len max_entity_len : Z)
    : option (result (list (list Z))) :=
  let tokens_type_ids :=
    times (times (unk_id self) (max_features_size self)) (len tokens) in
  if decide (database_lookup_method = Some "smaller_first") then
    lookup_smaller fuel self env tokens
  else if decide (database_lookup_method = Some "longer_first") then
    lookup_longer fuel self tokens
  else if decide (database_lookup_method = Some "ngrams") then
    Some (lookup_ngrams self env tokens min_entity_len max_entity_len)
  else Some (Ok tokens_type_ids).

(** [NaiveEntityDisambiguator.__init__] and
    [EntityOracleEntityDisambiguator.__init__]: [base] is the object that
    the constructor of the base class leaves, [loaded] the dict read from
    [alias2type.json]. *)
Definition NaiveEntityDisambiguator (base : disambiguator) (loaded : gmap string string)
    : disambiguator :=
  {| all_aliases := Trie (map fst (map_to_list loaded));
     alias2type := loaded;
     typeqid2id := typeqid2id base;
     unk_id := unk_id base;
     max_features_size := max_features_size base |}.

Definition EntityOracleEntityDisambiguator (base : disambiguator)
    (loaded : gmap string string) : disambiguator :=
  {| all_aliases := Trie (map fst (map_to_list loaded));
     alias2type := loaded;
     typeqid2id := typeqid2id base;
     unk_id := unk_id base;
     max_features_size := max_features_size base |}.

End Ned.

(** * Properties *)

(** ** Generic facts about the runtime *)

Lemma traverse_ok {A B} (f : A -> B) (l : list A) :
  traverse (fun x => Ok (f x)) l = Ok (map f l).
Proof. induction l as [|x l IH]; simpl; [done|]. by rewrite IH. Qed.

Lemma traverse_ext {A B} (f g : A -> result B) (l : list A) :
  Forall (fun x => f x = g x) l -> traverse f l = traverse g l.
Proof.
  induction 1 as [|x l Hx _ IH]; simpl; [done|]. by rewrite Hx, IH.
Qed.

Lemma traverse_length {A B} (f : A -> result B) (l : list A) (r : list B) :
  traverse f l = Ok r -> length r = length l.
Proof.
  revert r. induction l as [|x l IH]; intros r; simpl.
  - by intros [= <-].
  - destruct (f x); [|done]. destruct (traverse f l); [|done].
    intros [= <-]. simpl. f_equal. by apply IH.
Qed.

Lemma zip_length {A B} (a : list A) (b : list B) :
  length b = length a -> length (zip a b) = length a.
Proof.
  revert b. induction a as [|x a IH]; intros [|y b]; simpl; try done.
  intros [= H]. f_equal. by apply IH.
Qed.

Lemma sum_bools_from (l : list bool) (k : Z) :
  fold_left (fun acc (b : bool) => acc + (if b then 1 else 0)) l k
  = k + Z.of_nat (length (filter (fun b => b = true) l)).
Proof.
  revert k. induction l as [|b l IH]; intros k; simpl; [lia|].
  rewrite IH. destruct b.
  - rewrite filter_cons_True by done. simpl length. lia.
  - rewrite filter_cons_False by done. lia.
Qed.

Lemma sum_bools_count (l : list bool) :
  sum_bools l = Z.of_nat (length (filter (fun b => b = true) l)).
Proof. unfold sum_bools. rewrite sum_bools_from. lia. Qed.

(** ** Exact match *)

Lemma max_bools_from (l : list bool) (b : bool) :
  fold_left (fun m y => if bool_gt y m then y else m) l b = b || existsb id l.
Proof.
  revert b. induction l as [|y l IH]; intros b; simpl.
  - by rewrite orb_false_r.
  - rewrite IH. by destruct y, b.
Qed.

Lemma existsb_exact_match (o : string) (t : list string) :
  existsb id (map (Metrics.exact_match o) t) = bool_decide (o ∈ t).
Proof.
  induction t as [|g t IH]; simpl.
  - done.
  - rewrite IH. unfold Metrics.exact_match, id.
    destruct (decide (o = g)) as [->|Hne].
    + rewrite bool_decide_eq_true_2 by done. simpl.
      symmetry. apply bool_decide_eq_true. by left.
    + rewrite (bool_decide_eq_false_2 (o = g)) by done. simpl.
      apply bool_decide_ext. rewrite elem_of_cons.
      split; [by right | by intros [?|?]].
Qed.

(** The best exact-match score of one prediction: whether it is one of its
    ground truths. *)
Lemma max_exact_match (o : string) (t : list string) :
  t <> [] ->
  Metrics.metric_max_over_ground_truths bool_gt
    (fun p g => Ok (Metrics.exact_match p g)) o t = Ok (bool_decide (o ∈ t)).
Proof.
  intros Ht. unfold Metrics.metric_max_over_ground_truths.
  rewrite traverse_ok. simpl.
  destruct t as [|g t]; [done|]. simpl.
  rewrite max_bools_from. f_equal.
  exact (existsb_exact_match o (g :: t)).
Qed.

(** The number of predictions that are equal to one of their ground truths. *)
Definition em_hits (outputs : list string) (targets : list (list string)) : nat :=
  length (filter (fun ot : string * list string => ot.1 ∈ ot.2) (zip outputs targets)).

Lemma em_outs (outputs : list string) (targets : list (list string)) :
  Forall (fun t => t <> []) targets ->
  traverse
    (fun '(o, t) => Metrics.metric_max_over_ground_truths bool_gt
                      (fun p g => Ok (Metrics.exact_match p g)) o t)
    (zip outputs targets)
  = Ok (map (fun ot : string * list string => bool_decide (ot.1 ∈ ot.2)) (zip outputs targets)).
Proof.
  intros Hne. rewrite <- traverse_ok. apply traverse_ext.
  revert targets Hne. induction outputs as [|o outputs IH]; intros [|t targets] Hne;
    simpl; try constructor.
  - apply max_exact_match. by inversion Hne.
  - apply IH. by inversion Hne.
Qed.

Lemma count_true_map {A} (P : A -> Prop) `{!forall x, Decision (P x)} (l : list A) :
  length (filter (fun b => b = true) (map (fun x => bool_decide (P x)) l))
  = length (filter P l).
Proof.
  induction l as [|x l IH]; simpl; [done|].
  destruct (decide (P x)) as [HP|HP].
  - rewrite (filter_cons_True P) by done.
    rewrite filter_cons_True by (by apply bool_decide_eq_true). simpl. by rewrite IH.
  - rewrite (filter_cons_False P) by done.
    rewrite filter_cons_False; [done|].
    rewrite bool_decide_eq_false_2 by done. done.
Qed.

(** C2. For non-empty [outputs], as many [targets], each a non-empty list of
    ground truths, [computeEM] returns 100 times the fraction of the
    predictions that are equal to at least one of their ground truths. *)
Theorem computeEM_spec (outputs : list string) (targets : list (list string)) :
  outputs <> [] ->
  length targets = length outputs ->
  Forall (fun t => t <> []) targets ->
  exists q, Metrics.computeEM outputs targets = Ok q /\
    (q == 100 * (inject_Z (Z.of_nat (em_hits outputs targets))
                 / inject_Z (Z.of_nat (length outputs))))%Q.
Proof.
  intros Hout Hlen Hne. unfold Metrics.computeEM.
  rewrite (em_outs _ _ Hne). simpl.
  unfold truediv, len.
  destruct (Z.eqb_spec (Z.of_nat (length outputs)) 0) as [H0|H0].
  { destruct outputs; [done|]. simpl in H0. lia. }
  simpl. eexists. split; [reflexivity|].
  rewrite sum_bools_count.
  rewrite (count_true_map (fun ot : string * list string => ot.1 ∈ ot.2)).
  fold (em_hits outputs targets). ring.
Qed.

Lemma computeEM_spec_witness :
  exists q, Metrics.computeEM ["a"; "b"; "c"] [["a"; "x"]; ["y"]; ["z"; "c"]] = Ok q /\
    (q == 100 * (inject_Z (Z.of_nat (em_hits ["a"; "b"; "c"] [["a"; "x"]; ["y"]; ["z"; "c"]]))
                 / inject_Z (Z.of_nat 3)))%Q.
Proof.
  apply (computeEM_spec ["a"; "b"; "c"] [["a"; "x"]; ["y"]; ["z"; "c"]]).
  - done.
  - reflexivity.
  - repeat constructor; done.
Defined.

(** ** Token-level F1 *)

(** The shared token count of two token lists, with multiplicity: each token
    of [a] is paired with one occurrence of the same token in [b] that is
    not paired yet. *)
Fixpoint remove_one (x : string) (l : list string) : list string :=
  match l with
  | [] => []
  | y :: l' => if decide (x = y) then l' else y :: remove_one x l'
  end.

Fixpoint shared_tokens (a b : list string) : nat :=
  match a with
  | [] => 0%nat
  | x :: a' =>
      if decide (x ∈ b) then S (shared_tokens a' (remove_one x b))
      else shared_tokens a' b
  end.

Lemma size_list_to_set_disj (l : list string) :
  size (list_to_set_disj l : gmultiset string) = length l.
Proof.
  induction l as [|x l IH]; simpl.
  - done.
  - rewrite gmultiset_size_disj_union, gmultiset_size_singleton, IH. done.
Qed.

Lemma list_to_set_disj_remove_one (x : string) (l : list string) :
  x ∈ l ->
  (list_to_set_disj l : gmultiset string) = {[+ x +]} ⊎ list_to_set_disj (remove_one x l).
Proof.
  induction l as [|y l IH]; intros Hx.
  - by apply elem_of_nil in Hx.
  - simpl. destruct (decide (x = y)) as [->|Hne]; [done|].
    apply elem_of_cons in Hx as [?|Hx]; [done|].
    simpl. rewrite (IH Hx). multiset_solver.
Qed.

Lemma counter_and_size (a b : list string) :
  size (list_to_set_disj a ∩ list_to_set_disj b : gmultiset string) = shared_tokens a b.
Proof.
  revert b. induction a as [|x a IH]; intros b; simpl.
  - replace (∅ ∩ list_to_set_disj b : gmultiset string) with (∅ : gmultiset string)
      by multiset_solver.
    apply gmultiset_size_empty.
  - destruct (decide (x ∈ b)) as [Hx|Hx].
    + rewrite (list_to_set_disj_remove_one x b Hx).
      replace (({[+ x +]} ⊎ list_to_set_disj a) ∩
               ({[+ x +]} ⊎ list_to_set_disj (remove_one x b)) : gmultiset string)
        with ({[+ x +]} ⊎ (list_to_set_disj a ∩ list_to_set_disj (remove_one x b))
              : gmultiset string) by multiset_solver.
      rewrite gmultiset_size_disj_union, gmultiset_size_singleton, IH. done.
    + rewrite <- IH. f_equal.
      assert (multiplicity x (list_to_set_disj b : gmultiset string) = 0%nat) as Hx'.
      { apply not_elem_of_multiplicity. by rewrite elem_of_list_to_set_disj. }
      apply gmultiset_eq. intros y.
      rewrite !multiplicity_intersection, multiplicity_disj_union.
      rewrite multiplicity_singleton. case_decide; subst; lia.
Qed.

Lemma shared_tokens_le_l (a b : list string) : (shared_tokens a b <= length a)%nat.
Proof.
  rewrite <- counter_and_size, <- (size_list_to_set_disj a).
  apply gmultiset_subseteq_size. multiset_solver.
Qed.

Lemma shared_tokens_le_r (a b : list string) : (shared_tokens a b <= length b)%nat.
Proof.
  rewrite <- counter_and_size, <- (size_list_to_set_disj b).
  apply gmultiset_subseteq_size. multiset_solver.
Qed.

Lemma shared_tokens_0 (a b : list string) :
  shared_tokens a b = 0%nat <-> (forall t, t ∈ a -> t ∉ b).
Proof.
  revert b. induction a as [|x a IH]; intros b; simpl.
  - split; [|done]. intros _ t Ht. by apply elem_of_nil in Ht.
  - destruct (decide (x ∈ b)) as [Hx|Hx].
    + split; [done|]. intros H. exfalso. apply (H x); [by left|done].
    + rewrite IH. split.
      * intros H t [->|Ht]%elem_of_cons; [done|by apply H].
      * intros H t Ht. apply H. by right.
Qed.

Lemma fdiv_ok (a b : Q) : ~ (b == 0)%Q -> fdiv a b = Ok (a / b)%Q.
Proof.
  intros Hb. unfold fdiv. destruct (Qeq_bool b 0) eqn:E; [|done].
  by apply Qeq_bool_eq in E.
Qed.

Lemma harmonic_mean_bounds (s n m : Q) :
  (0 < s -> s <= n -> s <= m ->
   0 <= 2 * (s / n) * (s / m) / (s / n + s / m) <= 1)%Q.
Proof.
  intros Hs Hn Hm.
  assert (0 < n)%Q as Hn0 by lra. assert (0 < m)%Q as Hm0 by lra.
  assert (2 * (s / n) * (s / m) / (s / n + s / m) == 2 * s / (n + m))%Q as ->.
  { field. repeat split; try lra.
    all: intros H; assert (0 < s * m)%Q by (apply Qmult_lt_0_compat; lra);
      assert (0 < s * n)%Q by (apply Qmult_lt_0_compat; lra); lra. }
  split.
  - apply Qle_shift_div_l; lra.
  - apply Qle_shift_div_r; lra.
Qed.

(** [f1_score] returns, and what it returns: the divisions it makes are by
    numbers that are not zero. *)
Lemma f1_score_value (prediction ground_truth : string) :
  let pt := Str.split prediction in
  let gt := Str.split ground_truth in
  let same := inject_Z (Z.of_nat (shared_tokens pt gt)) in
  let precision := (1 * same / inject_Z (Z.of_nat (length pt)))%Q in
  let recall := (1 * same / inject_Z (Z.of_nat (length gt)))%Q in
  Metrics.f1_score prediction ground_truth
  = Ok (if (shared_tokens pt gt =? 0)%nat then inject_Z 0
        else (2 * precision * recall / (precision + recall))%Q).
Proof.
  intros pt gt same precision recall. unfold Metrics.f1_score.
  fold pt gt. rewrite counter_and_size.
  pose proof (shared_tokens_le_l pt gt) as Hl.
  pose proof (shared_tokens_le_r pt gt) as Hr.
  destruct (Z.eqb_spec (Z.of_nat (shared_tokens pt gt)) 0) as [Hz|Hz].
  - by replace (shared_tokens pt gt) with 0%nat by lia.
  - destruct (Nat.eqb_spec (shared_tokens pt gt) 0) as [Hn|_]; [lia|].
    assert (0 < same)%Q as Hs.
    { unfold same. rewrite <- (Zlt_Qlt 0). lia. }
    assert (same <= inject_Z (Z.of_nat (length pt)))%Q as Hsn.
    { unfold same. rewrite <- Zle_Qle. lia. }
    assert (same <= inject_Z (Z.of_nat (length gt)))%Q as Hsm.
    { unfold same. rewrite <- Zle_Qle. lia. }
    unfold len. fold same.
    rewrite fdiv_ok by lra. cbn [mbind result_bind].
    rewrite fdiv_ok by lra. cbn [mbind result_bind].
    fold precision recall.
    assert (0 < precision)%Q as Hp by (apply Qlt_shift_div_l; lra).
    assert (0 < recall)%Q as Hq by (apply Qlt_shift_div_l; lra).
    by rewrite fdiv_ok by lra.
Qed.

(** C6. [f1_score] splits both strings on whitespace; it returns 0 when the
    two token lists share no token, and otherwise the harmonic mean
    [2*p*r/(p+r)] of the precision [p] and the recall [r], the shared token
    count (with multiplicity) over the number of prediction tokens and over
    the number of ground-truth tokens; the value lies between 0 and 1. *)
Theorem f1_score_spec (prediction ground_truth : string) :
  let pt := Str.split prediction in
  let gt := Str.split ground_truth in
  let same := inject_Z (Z.of_nat (shared_tokens pt gt)) in
  let p := (same / inject_Z (Z.of_nat (length pt)))%Q in
  let r := (same / inject_Z (Z.of_nat (length gt)))%Q in
  exists f1, Metrics.f1_score prediction ground_truth = Ok f1 /\
    ((forall t, t ∈ pt -> t ∉ gt) -> f1 = inject_Z 0) /\
    ((exists t, t ∈ pt /\ t ∈ gt) -> f1 == 2 * p * r / (p + r))%Q /\
    (0 <= f1 <= 1)%Q.
Proof.
  intros pt gt same p r. rewrite f1_score_value. fold pt gt same.
  eexists. split; [reflexivity|].
  pose proof (shared_tokens_le_l pt gt) as Hl.
  pose proof (shared_tokens_le_r pt gt) as Hr.
  pose proof (shared_tokens_0 pt gt) as H0.
  destruct (Nat.eqb_spec (shared_tokens pt gt) 0) as [Hz|Hz].
  - split; [done|]. split; [|split; unfold Qle; simpl; lia].
    intros (t & Ht1 & Ht2). exfalso. by apply (proj1 H0 Hz t).
  - assert (0 < same)%Q as Hs.
    { unfold same. rewrite <- (Zlt_Qlt 0). lia. }
    assert (same <= inject_Z (Z.of_nat (length pt)))%Q as Hsn.
    { unfold same. rewrite <- Zle_Qle. lia. }
    assert (same <= inject_Z (Z.of_nat (length gt)))%Q as Hsm.
    { unfold same. rewrite <- Zle_Qle. lia. }
    assert (2 * (1 * same / inject_Z (Z.of_nat (length pt)))
              * (1 * same / inject_Z (Z.of_nat (length gt)))
              / (1 * same / inject_Z (Z.of_nat (length pt))
                 + 1 * same / inject_Z (Z.of_nat (length gt)))
            == 2 * p * r / (p + r))%Q as Heq.
    { unfold p, r. by rewrite !Qmult_1_l. }
    split; [|split].
    + intros Hno. exfalso. by apply Hz, H0.
    + intros _. exact Heq.
    + rewrite Heq. unfold p, r. apply harmonic_mean_bounds; done.
Qed.

Lemma f1_score_spec_witness :
  exists f1, Metrics.f1_score "the cat sat" "a cat" = Ok f1 /\
    (f1 == 2 * (1 / 3) * (1 / 2) / (1 / 3 + 1 / 2))%Q /\ (0 <= f1 <= 1)%Q.
Proof.
  destruct (f1_score_spec "the cat sat" "a cat") as (f1 & Hf & _ & Hshared & Hb).
  exists f1. split; [exact Hf|]. split; [|exact Hb].
  rewrite Hshared.
  - vm_compute. reflexivity.
  - exists "cat". split; apply (bool_decide_unpack _); vm_compute; exact I.
Defined.

(** ** Text normalisation *)

Lemma string_length_ind (P : string -> Prop) :
  (forall s, (forall t, (String.length t < String.length s)%nat -> P t) -> P s) ->
  forall s, P s.
Proof.
  intros H s. induction s as [s IH] using (induction_ltof1 _ String.length).
  apply H. exact IH.
Qed.

Fixpoint all_chars (P : ascii -> bool) (s : string) : bool :=
  match s with
  | "" => true
  | String c r => P c && all_chars P r
  end.

Lemma all_chars_app (P : ascii -> bool) (a b : string) :
  all_chars P (a +:+ b) = all_chars P a && all_chars P b.
Proof.
  induction a as [|c a IH]; simpl; [done|]. rewrite IH. by rewrite andb_assoc.
Qed.

Lemma lower_char_not_upper (c : ascii) : Str.is_upper (Str.lower_char c) = false.
Proof. by destruct c as [[] [] [] [] [] [] [] []]. Qed.

Lemma space_not_word (c : ascii) : Str.is_space c = true -> Str.is_word c = false.
Proof. by destruct c as [[] [] [] [] [] [] [] []]. Qed.

Lemma lower_fixed (s : string) :
  all_chars (fun c => negb (Str.is_upper c)) s = true -> Str.lower s = s.
Proof.
  induction s as [|c s IH]; simpl; [done|].
  intros [Hc Hs]%andb_true_iff. rewrite (IH Hs). unfold Str.lower_char.
  by destruct (Str.is_upper c).
Qed.

Lemma filter_chars_fixed (keep : ascii -> bool) (s : string) :
  all_chars keep s = true -> Str.filter_chars keep s = s.
Proof.
  induction s as [|c s IH]; simpl; [done|].
  intros [Hc Hs]%andb_true_iff. by rewrite Hc, (IH Hs).
Qed.

Lemma all_chars_lower (s : string) :
  all_chars (fun c => negb (Str.is_upper c)) (Str.lower s) = true.
Proof.
  induction s as [|c s IH]; simpl; [done|].
  by rewrite lower_char_not_upper, IH.
Qed.

Lemma all_chars_filter_keep (keep : ascii -> bool) (s : string) :
  all_chars keep (Str.filter_chars keep s) = true.
Proof.
  induction s as [|c s IH]; simpl; [done|].
  destruct (keep c) eqn:E; simpl; [by rewrite E|done].
Qed.

Lemma all_chars_filter (P keep : ascii -> bool) (s : string) :
  all_chars P s = true -> all_chars P (Str.filter_chars keep s) = true.
Proof.
  induction s as [|c s IH]; simpl; [done|].
  intros [Hc Hs]%andb_true_iff.
  destruct (keep c); simpl; [by rewrite Hc, IH|by apply IH].
Qed.

(** Characters that [lower] and [remove_punc] leave alone. *)
Definition plain (c : ascii) : bool :=
  negb (Str.is_upper c) && negb (Str.is_punct c).

Lemma all_chars_and (P Q : ascii -> bool) (s : string) :
  all_chars (fun c => P c && Q c) s = all_chars P s && all_chars Q s.
Proof.
  induction s as [|c s IH]; simpl; [done|]. rewrite IH.
  destruct (P c), (Q c), (all_chars P s), (all_chars Q s); done.
Qed.

Lemma plain_remove_punc_lower (s : string) :
  all_chars plain (Metrics.remove_punc (Metrics.lower s)) = true.
Proof.
  unfold plain. rewrite all_chars_and. apply andb_true_iff. split.
  - apply all_chars_filter, all_chars_lower.
  - apply (all_chars_filter_keep (fun ch => negb (Str.is_punct ch))).
Qed.

(** The scan of [remove_articles_from], one step at a time: the length of
    the match of [(a|an|the)\b] at the head of the text, 0 when there is
    none. *)
Definition head_is (k : ascii) (s : string) : bool :=
  match s with
  | String c _ => Ascii.eqb c k
  | "" => false
  end.

Definition tail (s : string) : string :=
  match s with
  | String _ r => r
  | "" => ""
  end.

Definition article_at (s : string) : nat :=
  if head_is "a" s && negb (Metrics.starts_word (tail s)) then 1
  else if head_is "a" s && head_is "n" (tail s)
          && negb (Metrics.starts_word (tail (tail s))) then 2
  else if head_is "t" s && head_is "h" (tail s) && head_is "e" (tail (tail s))
          && negb (Metrics.starts_word (tail (tail (tail s)))) then 3
  else 0.

Lemma remove_articles_step (prev : bool) (c : ascii) (r : string) :
  Metrics.remove_articles_from prev (String c r) =
  match (if prev then 0 else article_at (String c r))%nat with
  | O => String c (Metrics.remove_articles_from (Str.is_word c) r)
  | S k => String " " (Metrics.remove_articles_from true (Str.drop k r))
  end.
Proof.
  destruct prev; [done|].
  unfold article_at. cbn [head_is tail Metrics.remove_articles_from].
  destruct (Ascii.eqb c "a") eqn:Ea.
  { apply Ascii.eqb_eq in Ea as ->.
    destruct (Metrics.starts_word r) eqn:Er; cbn [negb andb]; [|done].
    destruct r as [|d r']; [done|]. cbn [head_is tail].
    destruct (Ascii.eqb d "n" && negb (Metrics.starts_word r')) eqn:En; [done|].
    replace (Ascii.eqb "a" "t") with false by done. done. }
  cbn [andb].
  destruct (Ascii.eqb c "t") eqn:Et.
  { apply Ascii.eqb_eq in Et as ->.
    destruct r as [|d [|e r']]; cbn [head_is tail andb]; try done.
    - by rewrite andb_false_r.
    - destruct (Ascii.eqb d "h" && Ascii.eqb e "e" && negb (Metrics.starts_word r'));
        done. }
  done.
Qed.

Lemma drop_1 (s : string) : Str.drop 1 s = tail s.
Proof. by destruct s. Qed.

Lemma drop_2 (s : string) : Str.drop 2 s = tail (tail s).
Proof. by destruct s as [|? []]. Qed.

Lemma article_at_drop (s : string) (k : nat) :
  article_at s = S k -> Metrics.starts_word (Str.drop k (tail s)) = false.
Proof.
  unfold article_at.
  repeat (case_match; [intros [= <-]; rewrite ?drop_1, ?drop_2; cbn [Str.drop];
    repeat match goal with
           | H : _ && _ = true |- _ => apply andb_true_iff in H as [? H]
           end;
    by apply negb_true_iff|]); done.
Qed.

Lemma article_at_word (s : string) (k : nat) :
  article_at s = S k -> Metrics.starts_word s = true.
Proof.
  unfold article_at. intros H.
  assert (head_is "a" s = true \/ head_is "t" s = true) as Hh.
  { destruct (head_is "a" s); [by left|]. destruct (head_is "t" s); [by right|].
    simpl in H. done. }
  destruct s as [|c r]; [by destruct Hh|]. simpl in *.
  by destruct Hh as [->%Ascii.eqb_eq | ->%Ascii.eqb_eq].
Qed.

Lemma article_at_length (s : string) (k : nat) :
  article_at s = S k -> (String.length (Str.drop k (tail s)) < String.length s)%nat.
Proof.
  intros H. pose proof (article_at_word _ _ H) as Hw.
  destruct s as [|c r]; [done|]. simpl.
  clear. revert r. induction k as [|k IH]; intros r; simpl; [lia|].
  destruct r as [|d r]; simpl; [lia|]. specialize (IH r). lia.
Qed.

Lemma all_chars_drop (P : ascii -> bool) (k : nat) (s : string) :
  all_chars P s = true -> all_chars P (Str.drop k s) = true.
Proof.
  revert s. induction k as [|k IH]; intros s; [done|].
  destruct s as [|c r]; simpl; [done|].
  intros [_ Hr]%andb_true_iff. by apply IH.
Qed.

Lemma all_chars_remove_articles (P : ascii -> bool) (prev : bool) (s : string) :
  P " "%char = true ->
  all_chars P s = true -> all_chars P (Metrics.remove_articles_from prev s) = true.
Proof.
  intros Hsp. revert prev.
  induction s as [s IH] using string_length_ind.
  intros prev Hs. destruct s as [|c r]; [done|].
  rewrite remove_articles_step.
  pose proof Hs as Hs'. simpl in Hs'. apply andb_true_iff in Hs' as [Hc Hr].
  destruct (if prev then 0 else article_at (String c r))%nat as [|k] eqn:E.
  - simpl. rewrite Hc. apply IH; [simpl; lia|done].
  - simpl. rewrite Hsp. destruct prev; [done|].
    apply IH; [apply (article_at_length _ _ E)|by apply all_chars_drop].
Qed.

(** [clean prev s]: the scan finds no article in [s]. *)
Fixpoint clean (prev : bool) (s : string) : bool :=
  match s with
  | "" => true
  | String c r =>
      match (if prev then 0 else article_at s)%nat with
      | O => clean (Str.is_word c) r
      | S _ => false
      end
  end.

Lemma clean_fixed (prev : bool) (s : string) :
  clean prev s = true -> Metrics.remove_articles_from prev s = s.
Proof.
  revert prev. induction s as [|c r IH]; intros prev; [done|].
  rewrite remove_articles_step. cbn [clean].
  destruct (if prev then 0 else article_at (String c r))%nat; [|done].
  intros H. by rewrite (IH _ H).
Qed.

Lemma article_at_not_word (s : string) :
  Metrics.starts_word s = false -> article_at s = 0%nat.
Proof.
  intros H. destruct (article_at s) as [|k] eqn:E; [done|].
  apply article_at_word in E. congruence.
Qed.

Lemma remove_articles_prev (s : string) :
  Metrics.starts_word s = false ->
  Metrics.remove_articles_from true s = Metrics.remove_articles_from false s.
Proof.
  intros H. destruct s as [|c r]; [done|].
  rewrite !remove_articles_step. by rewrite (article_at_not_word _ H).
Qed.

Lemma head_is_remove_articles (k : ascii) (s : string) :
  head_is k (Metrics.remove_articles_from true s) = head_is k s.
Proof. by destruct s. Qed.

Lemma starts_word_remove_articles (s : string) :
  Metrics.starts_word (Metrics.remove_articles_from true s) = Metrics.starts_word s.
Proof. by destruct s. Qed.

Lemma tail_remove_articles (k : ascii) (s : string) :
  Str.is_word k = true -> head_is k s = true ->
  tail (Metrics.remove_articles_from true s) = Metrics.remove_articles_from true (tail s).
Proof.
  intros Hk. destruct s as [|c r]; [done|]. simpl.
  by intros ->%Ascii.eqb_eq; rewrite Hk.
Qed.

(** Inside a word the scan copies its input, so what follows a word
    character decides a match in the output as it does in the input. *)
Lemma article_at_remove_articles (c : ascii) (r : string) :
  Str.is_word c = true ->
  article_at (String c (Metrics.remove_articles_from true r)) = article_at (String c r).
Proof.
  intros Hc. unfold article_at. cbn [head_is tail].
  rewrite !head_is_remove_articles, starts_word_remove_articles.
  destruct (Ascii.eqb c "a" && negb (Metrics.starts_word r)); [done|].
  destruct (head_is "n" r) eqn:Hn.
  { rewrite (tail_remove_articles "n") by done.
    rewrite starts_word_remove_articles.
    destruct (Ascii.eqb c "a" && true && negb (Metrics.starts_word (tail r))); [done|].
    destruct r as [|d r']; [done|]. simpl in Hn. apply Ascii.eqb_eq in Hn as ->.
    by rewrite !andb_false_r. }
  rewrite !andb_false_r. cbn [andb].
  destruct (head_is "h" r) eqn:Hh; [|by rewrite !andb_false_r].
  rewrite (tail_remove_articles "h") by done.
  rewrite head_is_remove_articles.
  destruct (head_is "e" (tail r)) eqn:He; [|by rewrite !andb_false_r].
  rewrite (tail_remove_articles "e") by done.
  by rewrite starts_word_remove_articles.
Qed.

Lemma article_at_space (s : string) : article_at (String " " s) = 0%nat.
Proof. done. Qed.

Lemma clean_remove_articles (prev : bool) (s : string) :
  clean prev (Metrics.remove_articles_from prev s) = true.
Proof.
  revert prev. induction s as [s IH] using string_length_ind.
  intros prev. destruct s as [|c r]; [done|].
  rewrite remove_articles_step.
  destruct (if prev then 0 else article_at (String c r))%nat as [|k] eqn:E.
  - cbn [clean].
    assert ((if prev then 0 else
              article_at (String c (Metrics.remove_articles_from (Str.is_word c) r)))%nat
            = 0%nat) as ->.
    { destruct prev; [done|].
      destruct (Str.is_word c) eqn:Hc.
      - by rewrite article_at_remove_articles.
      - by apply article_at_not_word. }
    apply IH. simpl. lia.
  - destruct prev; [done|]. cbn [clean].
    rewrite article_at_space. replace (Str.is_word " ") with false by done.
    pose proof (article_at_drop _ _ E) as Hd. cbn [tail] in Hd.
    rewrite (remove_articles_prev _ Hd).
    apply IH. apply (article_at_length _ _ E).
Qed.

Lemma app_cons (c : ascii) (a b : string) : String c a +:+ b = String c (a +:+ b).
Proof. done. Qed.

Lemma app_nil (b : string) : "" +:+ b = b.
Proof. done. Qed.

Lemma not_word_neq (c k : ascii) :
  Str.is_word c = false -> Str.is_word k = true -> Ascii.eqb c k = false.
Proof.
  intros Hc Hk. destruct (Ascii.eqb c k) eqn:E; [|done].
  apply Ascii.eqb_eq in E. congruence.
Qed.

(** A character that is not a word character ends the text as far as the
    pattern can see. *)
Lemma head_is_app (k c : ascii) (a b : string) :
  Str.is_word c = false -> Str.is_word k = true ->
  head_is k (a +:+ String c b) = head_is k a.
Proof.
  intros Hc Hk. destruct a; [|done]. simpl. by apply not_word_neq.
Qed.

Lemma starts_word_app (c : ascii) (a b : string) :
  Str.is_word c = false ->
  Metrics.starts_word (a +:+ String c b) = Metrics.starts_word a.
Proof. intros Hc. by destruct a. Qed.

Lemma tail_app (a b : string) : a <> "" -> tail (a +:+ b) = tail a +:+ b.
Proof. by destruct a. Qed.

Lemma article_at_app (c : ascii) (a b : string) :
  Str.is_word c = false ->
  article_at (a +:+ String c b) = article_at a.
Proof.
  intros Hc.
  destruct a as [|x a]; [by rewrite app_nil, article_at_not_word|].
  unfold article_at.
  rewrite !app_cons. cbn [head_is tail].
  rewrite starts_word_app by done.
  rewrite (head_is_app "n"), (head_is_app "h") by done.
  destruct a as [|y a]; [cbn [head_is]; by rewrite !andb_false_r|].
  rewrite !app_cons. cbn [head_is tail].
  rewrite starts_word_app by done.
  rewrite (head_is_app "e") by done.
  destruct a as [|z a]; [cbn [head_is]; by rewrite !andb_false_r|].
  rewrite !app_cons. cbn [head_is tail].
  by rewrite starts_word_app.
Qed.

Lemma clean_app (prev : bool) (c : ascii) (a b : string) :
  Str.is_word c = false ->
  clean prev (a +:+ String c b) = clean prev a && clean false b.
Proof.
  intros Hc. revert prev. induction a as [|x a IH]; intros prev.
  - rewrite app_nil. cbn [clean andb].
    rewrite (article_at_not_word (String c b)) by done.
    rewrite Hc. by destruct prev.
  - rewrite app_cons. cbn [clean]. rewrite <- app_cons, article_at_app by done.
    destruct (if prev then 0 else article_at (String x a))%nat; [apply IH|done].
Qed.

Lemma clean_join (l : list string) :
  clean false (Str.join " " l) = forallb (clean false) l.
Proof.
  induction l as [|x l IH]; [done|].
  destruct l as [|y l]; [simpl; by rewrite andb_true_r|].
  change (Str.join " " (x :: y :: l)) with (x +:+ String " " (Str.join " " (y :: l))).
  rewrite clean_app by done. by rewrite IH.
Qed.

Lemma forallb_push (P : string -> bool) (w : string) (ws : list string) :
  P "" = true -> forallb P (Str.push w ws) = P w && forallb P ws.
Proof.
  intros HP. unfold Str.push. destruct (decide (w = "")) as [->|]; [by rewrite HP|done].
Qed.

(** The word read at the head of a text is followed by whitespace or by the
    end of the text. *)
Lemma split_go_head (s : string) :
  s = (Str.split_go s).1 \/
  exists sp rest, Str.is_space sp = true /\ s = (Str.split_go s).1 +:+ String sp rest.
Proof.
  induction s as [|c r IH]; [by left|].
  simpl. destruct (Str.split_go r) as [w ws] eqn:E. simpl in IH.
  destruct (Str.is_space c) eqn:Hc; simpl.
  - right. by exists c, r.
  - destruct IH as [->|(sp & rest & Hsp & ->)]; [by left|].
    right. by exists sp, rest.
Qed.

Lemma clean_split_go (prev : bool) (s : string) :
  clean prev s = clean prev (Str.split_go s).1 && forallb (clean false) (Str.split_go s).2.
Proof.
  revert prev. induction s as [|c r IH]; intros prev; [done|].
  pose proof (split_go_head r) as Hhead.
  simpl. destruct (Str.split_go r) as [w ws] eqn:E. simpl in IH, Hhead.
  destruct (Str.is_space c) eqn:Hc; simpl.
  - rewrite (article_at_not_word (String c r)) by (by apply space_not_word).
    rewrite (space_not_word c Hc), forallb_push by done.
    destruct prev; apply IH.
  - assert (article_at (String c r) = article_at (String c w)) as ->.
    { destruct Hhead as [->|(sp & rest & Hsp & ->)]; [done|].
      rewrite <- app_cons. apply article_at_app. by apply space_not_word. }
    destruct (if prev then 0 else article_at (String c w))%nat; [apply IH|done].
Qed.

Lemma clean_white_space_fix (s : string) :
  clean false s = true -> clean false (Metrics.white_space_fix s) = true.
Proof.
  unfold Metrics.white_space_fix, Str.split. rewrite clean_join.
  rewrite (clean_split_go false s). destruct (Str.split_go s) as [w ws]. simpl.
  by rewrite forallb_push.
Qed.

(** A word of [split]: not empty and free of whitespace. *)
Definition is_token (w : string) : Prop :=
  w <> "" /\ all_chars (fun c => negb (Str.is_space c)) w = true.

Lemma Forall_push (P : string -> Prop) (w : string) (ws : list string) :
  (w <> "" -> P w) -> Forall P ws -> Forall P (Str.push w ws).
Proof.
  intros Hw Hws. unfold Str.push. destruct (decide (w = "")); [done|].
  constructor; auto.
Qed.

Lemma split_go_tokens (s : string) :
  all_chars (fun c => negb (Str.is_space c)) (Str.split_go s).1 = true /\
  Forall is_token (Str.split_go s).2.
Proof.
  induction s as [|c r [IHw IHws]]; [done|].
  simpl. destruct (Str.split_go r) as [w ws]. simpl in *.
  destruct (Str.is_space c) eqn:Hc; simpl.
  - split; [done|]. apply Forall_push; [|done]. by intros ?.
  - by rewrite Hc.
Qed.

Lemma split_tokens (s : string) : Forall is_token (Str.split s).
Proof.
  unfold Str.split. destruct (split_go_tokens s) as [Hw Hws].
  destruct (Str.split_go s) as [w ws]. simpl in *.
  apply Forall_push; [|done]. by intros ?.
Qed.

Lemma split_go_token_app (w s : string) :
  all_chars (fun c => negb (Str.is_space c)) w = true ->
  Str.split_go (w +:+ String " " s) = (w, Str.split s).
Proof.
  induction w as [|c w IH]; intros Hw.
  - rewrite app_nil. unfold Str.split. simpl. by destruct (Str.split_go s).
  - simpl in Hw. apply andb_true_iff in Hw as [Hc Hw].
    rewrite app_cons. simpl. rewrite (IH Hw).
    apply negb_true_iff in Hc. by rewrite Hc.
Qed.

Lemma split_go_token (w : string) :
  all_chars (fun c => negb (Str.is_space c)) w = true -> Str.split_go w = (w, []).
Proof.
  induction w as [|c w IH]; intros Hw; [done|].
  simpl in Hw. apply andb_true_iff in Hw as [Hc Hw].
  simpl. rewrite (IH Hw). apply negb_true_iff in Hc. by rewrite Hc.
Qed.

(** [' '.join(l).split()] gives [l] back when [l] is a list of words. *)
Lemma split_join (l : list string) :
  Forall is_token l -> Str.split (Str.join " " l) = l.
Proof.
  induction 1 as [|x l [Hx1 Hx2] Hl IH]; [done|].
  destruct l as [|y l].
  - simpl. unfold Str.split. rewrite (split_go_token x Hx2).
    unfold Str.push. by destruct (decide (x = "")).
  - change (Str.join " " (x :: y :: l)) with (x +:+ String " " (Str.join " " (y :: l))).
    unfold Str.split at 1. rewrite (split_go_token_app x _ Hx2), IH.
    unfold Str.push. by destruct (decide (x = "")).
Qed.

Lemma white_space_fix_idem (s : string) :
  Metrics.white_space_fix (Metrics.white_space_fix s) = Metrics.white_space_fix s.
Proof.
  unfold Metrics.white_space_fix. by rewrite split_join by apply split_tokens.
Qed.

Lemma all_chars_split_go (P : ascii -> bool) (s : string) :
  all_chars P s = true ->
  all_chars P (Str.split_go s).1 = true /\
  forallb (all_chars P) (Str.split_go s).2 = true.
Proof.
  induction s as [|c r IH]; [done|].
  simpl. intros [Hc Hr]%andb_true_iff. destruct (IH Hr) as [Hw Hws].
  destruct (Str.split_go r) as [w ws]. simpl in *.
  destruct (Str.is_space c); simpl.
  - split; [done|]. rewrite forallb_push by done. by rewrite Hw, Hws.
  - by rewrite Hc, Hw, Hws.
Qed.

Lemma all_chars_join (P : ascii -> bool) (l : list string) :
  P " "%char = true -> forallb (all_chars P) l = true ->
  all_chars P (Str.join " " l) = true.
Proof.
  intros Hsp. induction l as [|x l IH]; [done|].
  simpl forallb. intros [Hx Hl]%andb_true_iff.
  destruct l as [|y l]; [done|].
  change (Str.join " " (x :: y :: l)) with (x +:+ String " " (Str.join " " (y :: l))).
  rewrite all_chars_app. cbn [all_chars]. rewrite Hx, Hsp. by apply IH.
Qed.

Lemma all_chars_white_space_fix (P : ascii -> bool) (s : string) :
  P " "%char = true -> all_chars P s = true ->
  all_chars P (Metrics.white_space_fix s) = true.
Proof.
  intros Hsp Hs. unfold Metrics.white_space_fix, Str.split.
  destruct (all_chars_split_go P s Hs) as [Hw Hws].
  destruct (Str.split_go s) as [w ws]. simpl in *.
  apply all_chars_join; [done|]. rewrite forallb_push by done. by rewrite Hw, Hws.
Qed.

(** C10. [normalize_text] is idempotent. *)
Theorem normalize_text_idempotent (s : string) :
  Metrics.normalize_text (Metrics.normalize_text s) = Metrics.normalize_text s.
Proof.
  unfold Metrics.normalize_text at 1.
  set (t := Metrics.normalize_text s).
  assert (all_chars plain t = true) as Hplain.
  { apply all_chars_white_space_fix; [done|].
    apply all_chars_remove_articles; [done|]. apply plain_remove_punc_lower. }
  unfold plain in Hplain. rewrite all_chars_and in Hplain.
  apply andb_true_iff in Hplain as [Hup Hpunct].
  unfold Metrics.lower. rewrite (lower_fixed t Hup).
  unfold Metrics.remove_punc. rewrite (filter_chars_fixed _ t Hpunct).
  assert (clean false t = true) as Hclean.
  { apply clean_white_space_fix, clean_remove_articles. }
  unfold Metrics.remove_articles. rewrite (clean_fixed false t Hclean).
  apply white_space_fix_idem.
Qed.

(** ** Logical-form exact match *)

(** A gold condition list with its value lowercased, as [computeLFEM]
    leaves it; [None] when the list has no value at index 2. *)
Definition lowered (lc : list Metrics.pyval) : option (list Metrics.pyval) :=
  v ← lc !! 2%nat; Some (<[2%nat := Metrics.VStr (Str.lower (Metrics.str v))]> lc).

(** The condition at address [c] as it reads once lowercased. *)
Definition cond_view (h : Metrics.heap) (c : positive) : option (list Metrics.pyval) :=
  Metrics.cond_lists h !! c ≫= lowered.

(** The gold SQL of a record with its condition values lowercased. *)
Definition gold_lowered (h : Metrics.heap) (ex : Metrics.example)
    : option (Metrics.pyval * list (list Metrics.pyval) * Metrics.pyval) :=
  gt ← Metrics.sqls h !! Metrics.ex_sql ex;
  conds ← mapM (cond_view h) (Metrics.sql_conds gt);
  Some (Metrics.sql_sel gt, conds, Metrics.sql_agg gt).

(** The prediction parses into a logical form that equals the gold SQL. *)
Definition lf_matches (query : Metrics.Query) (h : Metrics.heap)
    (g : string) (ex : Metrics.example) : bool :=
  match Metrics.to_lf query g (Metrics.ex_table_header ex), gold_lowered h ex with
  | Ok lf, Some (sel, conds, agg) =>
      Metrics.sel_eq (Metrics.lf_sel lf) sel
      && bool_decide (Metrics.lf_conds lf = conds)
      && bool_decide (Metrics.VInt (Metrics.lf_agg lf) = agg)
  | _, _ => false
  end.

(** What the heap may have become: the same SQL dicts, and conditions that
    read the same once lowercased. *)
Definition same_view (h0 h : Metrics.heap) : Prop :=
  Metrics.sqls h = Metrics.sqls h0 /\ forall c, cond_view h c = cond_view h0 c.

Lemma lower_idem (s : string) : Str.lower (Str.lower s) = Str.lower s.
Proof.
  induction s as [|c s IH]; simpl; [done|]. rewrite IH. f_equal.
  unfold Str.lower_char at 1. by rewrite lower_char_not_upper.
Qed.

Lemma lowered_idem (lc lc' : list Metrics.pyval) :
  lowered lc = Some lc' -> lowered lc' = Some lc'.
Proof.
  unfold lowered. destruct (lc !! 2%nat) as [v|] eqn:E; [|done].
  simpl. intros [= <-].
  rewrite list_lookup_insert_eq by (by apply lookup_lt_Some in E).
  simpl. by rewrite lower_idem, list_insert_insert_eq.
Qed.

Lemma lower_cond_ok (h : Metrics.heap) (c : positive) (lc' : list Metrics.pyval) :
  cond_view h c = Some lc' ->
  Metrics.lower_cond h c =
    (Ok (), {| Metrics.sqls := Metrics.sqls h;
               Metrics.cond_lists := <[c := lc']> (Metrics.cond_lists h) |}).
Proof.
  unfold cond_view, Metrics.lower_cond, lowered.
  destruct (Metrics.cond_lists h !! c) as [lc|]; [|done]. simpl.
  destruct (lc !! 2%nat) as [v|]; [|done]. simpl. by intros [= <-].
Qed.

Lemma lower_cond_raise (h : Metrics.heap) (c : positive) :
  cond_view h c = None ->
  exists e, Metrics.lower_cond h c = (Raise e, h).
Proof.
  unfold cond_view, Metrics.lower_cond, lowered.
  destruct (Metrics.cond_lists h !! c) as [lc|]; [|by eexists]. simpl.
  destruct (lc !! 2%nat) as [v|]; [done|]. by eexists.
Qed.

Lemma cond_view_insert (h : Metrics.heap) (c : positive) (lc' : list Metrics.pyval) (c' : positive) :
  cond_view h c = Some lc' ->
  cond_view {| Metrics.sqls := Metrics.sqls h;
               Metrics.cond_lists := <[c := lc']> (Metrics.cond_lists h) |} c'
  = cond_view h c'.
Proof.
  intros Hc. unfold cond_view at 1. simpl.
  destruct (decide (c = c')) as [<-|Hne].
  - rewrite lookup_insert_eq. simpl. rewrite Hc.
    unfold cond_view in Hc. destruct (Metrics.cond_lists h !! c); [|done].
    by apply lowered_idem in Hc.
  - by rewrite lookup_insert_ne.
Qed.

(** The loop over the conditions: it completes exactly when every condition
    has a value to lowercase, and then every condition of the list is
    stored in its lowercased form. *)
Lemma lower_conds_spec (conds : list positive) (h : Metrics.heap) :
  exists r h', Metrics.lower_conds h conds = (r, h') /\
    same_view h h' /\
    (forall c lc, Metrics.cond_lists h !! c = Some lc -> lowered lc = Some lc ->
                  Metrics.cond_lists h' !! c = Some lc) /\
    match r with
    | Ok _ => forall c, c ∈ conds ->
                is_Some (cond_view h c) /\ Metrics.cond_lists h' !! c = cond_view h c
    | Raise _ => exists c, c ∈ conds /\ cond_view h c = None
    end.
Proof.
  revert h. induction conds as [|c conds IH]; intros h.
  - exists (Ok ()), h. split; [done|]. split; [done|]. split; [done|].
    intros c' Hc'. by apply elem_of_nil in Hc'.
  - simpl. destruct (cond_view h c) as [lc'|] eqn:Hv.
    + rewrite (lower_cond_ok h c lc' Hv).
      set (h1 := {| Metrics.sqls := Metrics.sqls h;
                    Metrics.cond_lists := <[c := lc']> (Metrics.cond_lists h) |}).
      destruct (IH h1) as (r & h' & -> & [Hs Hview] & Hfix & Hr).
      assert (forall c', cond_view h1 c' = cond_view h c') as Hview1
        by (intros c'; by apply cond_view_insert).
      assert (lowered lc' = Some lc') as Hlc'.
      { unfold cond_view in Hv. destruct (Metrics.cond_lists h !! c); [|done].
        by apply lowered_idem in Hv. }
      exists r, h'. split; [done|]. split; [|split].
      * split; [done|]. intros c'. by rewrite Hview, Hview1.
      * intros c' lc Hc' Hlc. apply Hfix; [|done]. subst h1. simpl.
        destruct (decide (c = c')) as [<-|Hne].
        -- rewrite lookup_insert_eq. f_equal.
           unfold cond_view in Hv. rewrite Hc' in Hv. simpl in Hv. congruence.
        -- by rewrite lookup_insert_ne.
      * destruct r as [[]|e].
        -- intros c' [->|Hc']%elem_of_cons.
           ++ split; [by rewrite Hv|]. rewrite Hv. apply Hfix; [|done].
              subst h1. simpl. by rewrite lookup_insert_eq.
           ++ rewrite <- Hview1. by apply Hr.
        -- destruct Hr as (c' & Hc' & Hnone). exists c'. split; [by right|].
           by rewrite <- Hview1.
    + destruct (lower_cond_raise h c Hv) as [e ->].
      exists (Raise e), h. split; [done|]. split; [done|]. split; [done|].
      exists c. split; [by left|done].
Qed.

Lemma same_view_trans (h0 h1 h2 : Metrics.heap) :
  same_view h0 h1 -> same_view h1 h2 -> same_view h0 h2.
Proof.
  intros [Hs1 Hv1] [Hs2 Hv2]. split; [congruence|].
  intros c. by rewrite Hv2, Hv1.
Qed.

Lemma gold_lowered_same_view (h0 h : Metrics.heap) (ex : Metrics.example) :
  same_view h0 h -> gold_lowered h ex = gold_lowered h0 ex.
Proof.
  intros [Hs Hv]. unfold gold_lowered. rewrite Hs.
  destruct (Metrics.sqls h0 !! Metrics.ex_sql ex) as [gt|]; [|done]. simpl.
  by rewrite (mapM_ext _ _ _ Hv).
Qed.

(** The [try] block on one example: it yields whether the prediction
    matches the gold SQL, or raises when there is no match to be had. *)
Lemma lfem_try_spec (query : Metrics.Query) (g : string) (ex : Metrics.example)
    (h0 h : Metrics.heap) :
  same_view h0 h ->
  exists r h', Metrics.lfem_try query g ex h = (r, h') /\ same_view h0 h' /\
    match r with
    | Ok b => b = lf_matches query h0 g ex
    | Raise _ => lf_matches query h0 g ex = false
    end.
Proof.
  intros Hsame. unfold Metrics.lfem_try, lf_matches.
  rewrite <- (gold_lowered_same_view h0 h ex Hsame).
  destruct (Metrics.to_lf query g (Metrics.ex_table_header ex)) as [lf|e].
  2:{ by exists (Raise e), h. }
  unfold gold_lowered.
  destruct (Metrics.sqls h !! Metrics.ex_sql ex) as [gt|] eqn:Hgt.
  2:{ by exists (Raise KeyError), h. }
  simpl.
  destruct (lower_conds_spec (Metrics.sql_conds gt) h) as (r & h' & -> & Hview & _ & Hr).
  destruct r as [[]|e].
  - assert ({| Metrics.sql_sel := Metrics.sql_sel gt; Metrics.sql_conds := Metrics.sql_conds gt;
               Metrics.sql_agg := Metrics.sql_agg gt |} = gt) as -> by (by destruct gt).
    assert (mapM (fun c => Metrics.cond_lists h' !! c) (Metrics.sql_conds gt)
            = mapM (cond_view h) (Metrics.sql_conds gt)) as Hconds.
    { apply Forall_mapM_ext, Forall_forall. intros c Hc. by apply Hr. }
    assert (is_Some (mapM (cond_view h) (Metrics.sql_conds gt))) as [conds Hsome].
    { apply mapM_is_Some, Forall_forall. intros c Hc. by apply Hr. }
    eexists _, _. split; [reflexivity|]. split.
    + apply (same_view_trans h0 h); [done|]. destruct Hview as [Hs Hv].
      split; [|done]. simpl. rewrite Hs. by apply insert_id.
    + unfold Metrics.lf_eq. cbn [Metrics.cond_lists].
      rewrite Hconds, Hsome. simpl. f_equal. f_equal.
      apply bool_decide_ext. split; congruence.
  - exists (Raise e), h'. split; [done|]. split.
    + by apply (same_view_trans h0 h).
    + destruct Hr as (c & Hc & Hnone).
      assert (mapM (cond_view h) (Metrics.sql_conds gt) = None) as ->; [|done].
      apply mapM_None, Exists_exists. by exists c.
Qed.

(** The number of examples whose prediction matches the gold SQL. *)
Definition lfem_hits (query : Metrics.Query) (h : Metrics.heap)
    (pairs : list (string * Metrics.example)) : Z :=
  Z.of_nat (length (filter (fun ge : string * Metrics.example =>
                              lf_matches query h ge.1 ge.2 = true) pairs)).

Lemma lfem_loop (query : Metrics.Query) (h0 : Metrics.heap)
    (pairs : list (string * Metrics.example))
    (count correct : Z) (text_answers : list (list string)) (h : Metrics.heap) :
  same_view h0 h ->
  exists h', fold_left (Metrics.lfem_step query) pairs (count, correct, text_answers, h)
    = (count + len pairs, correct + lfem_hits query h0 pairs,
       text_answers ++ map (fun ge : string * Metrics.example =>
                              [Str.lower (Metrics.ex_answer ge.2)]) pairs, h')
    /\ same_view h0 h'.
Proof.
  revert count correct text_answers h.
  induction pairs as [|[g ex] pairs IH]; intros count correct text_answers h Hsame.
  - exists h. split; [|done]. simpl. unfold len, lfem_hits. simpl.
    by rewrite !Z.add_0_r, app_nil_r.
  - simpl. destruct (lfem_try_spec query g ex h0 h Hsame) as (r & h1 & -> & Hsame1 & Hr).
    assert (forall b, b = lf_matches query h0 g ex ->
      lfem_hits query h0 ((g, ex) :: pairs)
      = (if b then 1 else 0) + lfem_hits query h0 pairs) as Hhits.
    { intros b ->. unfold lfem_hits.
      destruct (lf_matches query h0 g ex) eqn:E.
      - rewrite filter_cons_True by done. simpl length. lia.
      - rewrite filter_cons_False by (simpl; congruence). lia. }
    destruct r as [b|e].
    + destruct (IH (count + 1) (correct + (if b then 1 else 0))
                   (text_answers ++ [[Str.lower (Metrics.ex_answer ex)]]) h1 Hsame1)
        as (h' & -> & Hsame').
      exists h'. split; [|done]. rewrite (Hhits b Hr). unfold len. simpl length.
      rewrite <- app_assoc. simpl.
      repeat match goal with |- (_, _) = (_, _) => f_equal end; lia.
    + destruct (IH (count + 1) correct
                   (text_answers ++ [[Str.lower (Metrics.ex_answer ex)]]) h1 Hsame1)
        as (h' & -> & Hsame').
      exists h'. split; [|done]. rewrite (Hhits false) by done. unfold len. simpl length.
      rewrite <- app_assoc. simpl.
      repeat match goal with |- (_, _) = (_, _) => f_equal end; lia.
Qed.

Lemma heads_ok {A} (answer : list (list A)) :
  Forall (fun x => x <> []) answer ->
  traverse (fun x => index x 0) answer = Ok (omap head answer).
Proof.
  induction 1 as [|x answer Hx _ IH]; [done|].
  simpl. rewrite IH. destruct x as [|a x]; [done|]. done.
Qed.

Lemma heads_length {A} (answer : list (list A)) :
  Forall (fun x => x <> []) answer -> length (omap head answer) = length answer.
Proof.
  intros H. apply (traverse_length (fun x => index x 0)). by apply heads_ok.
Qed.

(** C3. On a non-empty list of predictions and as many answer records
    [computeLFEM] does not raise.  Every example counts in the denominator;
    an example whose prediction does not parse ([to_lf] raises) counts for
    nothing in the numerator; the score is 100 times the number of examples
    whose logical form equals the gold SQL with its condition values
    lowercased, over the number of examples. *)
Theorem computeLFEM_spec (query : Metrics.Query) (greedy : list string)
    (answer : list (list Metrics.example)) (h : Metrics.heap) :
  greedy <> [] ->
  length answer = length greedy ->
  Forall (fun x => x <> []) answer ->
  let pairs := zip greedy (omap head answer) in
  exists score h',
    Metrics.computeLFEM query greedy answer h
    = (Ok (score, map (fun ge : string * Metrics.example =>
                         [Str.lower (Metrics.ex_answer ge.2)]) pairs), h') /\
    (score == 100 * (inject_Z (lfem_hits query h pairs)
                     / inject_Z (Z.of_nat (length greedy))))%Q /\
    (forall g ex, is_ok (Metrics.to_lf query g (Metrics.ex_table_header ex)) = false ->
                  lf_matches query h g ex = false).
Proof.
  intros Hne Hlen Hall pairs. unfold Metrics.computeLFEM.
  rewrite (heads_ok answer Hall). fold pairs.
  destruct (lfem_loop query h pairs 0 0 [] h) as (h' & -> & _); [by split|].
  assert (len pairs = Z.of_nat (length greedy)) as Hn.
  { unfold len, pairs. rewrite zip_length; [done|]. by rewrite heads_length. }
  unfold truediv. rewrite !Z.add_0_l, Hn.
  destruct (Z.eqb_spec (Z.of_nat (length greedy)) 0) as [H0|H0].
  { destruct greedy; [done|]. simpl in H0. lia. }
  eexists _, h'. split; [reflexivity|]. split; [ring|].
  intros g ex Hraise. unfold lf_matches.
  by destruct (Metrics.to_lf query g (Metrics.ex_table_header ex)).
Qed.

(** A WikiSQL table, a gold query [SELECT COUNT(Name) WHERE Age > 30] and
    two predictions, the second of which does not parse. *)
Definition wikisql : Metrics.Query :=
  {| Metrics.agg_ops := [""; "MAX"; "MIN"; "COUNT"; "SUM"; "AVG"];
     Metrics.cond_ops := ["="; ">"; "<"; "OP"] |}.

Definition people_heap : Metrics.heap :=
  {| Metrics.sqls :=
       {[ 1%positive := {| Metrics.sql_sel := Metrics.VInt 0;
                           Metrics.sql_conds := [2%positive];
                           Metrics.sql_agg := Metrics.VInt 3 |} ]};
     Metrics.cond_lists :=
       {[ 2%positive := [Metrics.VInt 1; Metrics.VInt 1; Metrics.VInt 30] ]} |}.

Definition people_record : Metrics.example :=
  {| Metrics.ex_answer := "Bob";
     Metrics.ex_table_header := ["Name"; "Age"];
     Metrics.ex_sql := 1%positive |}.

Definition people_greedy : list string :=
  ["select count name from table where age > 30"; "no query"].

Lemma computeLFEM_spec_witness :
  let pairs := zip people_greedy (omap head [[people_record]; [people_record]]) in
  exists score h',
    Metrics.computeLFEM wikisql people_greedy [[people_record]; [people_record]] people_heap
    = (Ok (score, map (fun ge : string * Metrics.example =>
                         [Str.lower (Metrics.ex_answer ge.2)]) pairs), h') /\
    (score == 100 * (inject_Z (lfem_hits wikisql people_heap pairs)
                     / inject_Z (Z.of_nat (length people_greedy))))%Q /\
    (forall g ex, is_ok (Metrics.to_lf wikisql g (Metrics.ex_table_header ex)) = false ->
                  lf_matches wikisql people_heap g ex = false).
Proof.
  apply (computeLFEM_spec wikisql people_greedy [[people_record]; [people_record]] people_heap).
  - done.
  - reflexivity.
  - repeat constructor; done.
Defined.

Example computeLFEM_people :
  (Metrics.computeLFEM wikisql people_greedy [[people_record]; [people_record]] people_heap).1
  = Ok ((100 # 2)%Q, [["bob"]; ["bob"]]).
Proof. vm_compute. reflexivity. Qed.

(** ** The dispatcher *)

(** Scorers from outside that are never called in the examples below. *)
Definition no_externals : Metrics.externals :=
  {| Metrics.foreign_score := fun _ _ _ _ => Raise TypeError;
     Metrics.requote_program := fun s => s;
     Metrics.precision_metric := fun _ _ => Raise ValueError;
     Metrics.recall_metric := fun _ _ => Raise ValueError;
     Metrics.f1_metric := fun _ _ => Raise ValueError;
     Metrics.bertscore_metric := fun _ _ _ => Raise ValueError;
     Metrics.ter_corpus_score := fun _ _ => Raise ValueError;
     Metrics.corpus_bleu := fun _ _ _ _ => Raise ValueError;
     Metrics.sacrebleu_metric := fun _ _ => Raise ValueError;
     Metrics.bleu_metric := fun _ _ => Raise ValueError;
     Metrics.score_summary := fun _ _ => Raise ValueError;
     Metrics.seqeval_f1_score := fun _ _ _ => Raise ValueError |}.

(** The names that [compute_metrics] can put into [metric_keys], in the
    order in which it does. *)
Definition metric_names : list string :=
  ["lfem"; "joint_goal_em"; "turn_request_em"; "turn_goal_em"; "avg_dialogue"; "em"; "pem";
   "sm"; "ter"; "bertscore"; "casedbleu"; "bleu"; "t5_bleu"; "nmt_bleu";
   "rouge1"; "rouge2"; "rougeL"; "avg_rouge"; "sc_precision"; "sc_recall"; "sc_f1"; "f1";
   "ner_f1_IOB1"; "ner_f1"; "nf1"; "nem"; "corpus_f1"; "precision"; "recall"].

(** The name whose presence in [requested_metrics] makes [compute_metrics]
    compute [name]: the name itself, or the metric under whose test a group
    of metrics is computed. *)
Definition leader (name : string) : string :=
  if bool_decide (name ∈ ["turn_request_em"; "turn_goal_em"; "avg_dialogue"]) then "joint_goal_em"
  else if bool_decide (name ∈ ["rouge1"; "rouge2"; "rougeL"]) then "avg_rouge"
  else if bool_decide (name ∈ ["precision"; "recall"]) then "corpus_f1"
  else name.

(** Whether [name] enters [metric_keys]; [em] always does. *)
Definition produced (requested_metrics : list string) (name : string) : bool :=
  bool_decide (name = "em") || Metrics.wanted (leader name) requested_metrics.

(** Whether every requested name is a metric that the call produces. *)
Definition served (requested_metrics : list string) : bool :=
  forallb (fun name => bool_decide (name ∈ metric_names) && produced requested_metrics name)
          requested_metrics.

Lemma add_metric_keys (requested_metrics : list string) (name : string) (compute : result Q)
    (kv kv' : list string * list Q) :
  Metrics.add_metric requested_metrics name compute kv = Ok kv' ->
  kv'.1 = kv.1 ++ (if Metrics.wanted name requested_metrics then [name] else []) /\
  (length kv.2 = length kv.1 -> length kv'.2 = length kv'.1).
Proof.
  unfold Metrics.add_metric. destruct (Metrics.wanted name requested_metrics).
  - destruct compute as [v|]; [|done]. intros [= <-]. simpl.
    split; [done|]. intros H. by rewrite !length_app, H.
  - intros [= <-]. by rewrite app_nil_r.
Qed.

Lemma collect_metrics_keys (ext : Metrics.externals) (greedy : list string)
    (requested_metrics : list string) (lang : string)
    (metric_keys : list string) (metric_values : list Q) (answer answer' : Metrics.nested)
    (kv : list string * list Q) :
  Metrics.collect_metrics ext greedy requested_metrics lang (metric_keys, metric_values, answer)
  = Ok (kv, answer') ->
  kv.1 = metric_keys
         ++ (if Metrics.wanted "joint_goal_em" requested_metrics
             then ["joint_goal_em"; "turn_request_em"; "turn_goal_em"; "avg_dialogue"] else [])
         ++ ["em"]
         ++ (if Metrics.wanted "pem" requested_metrics then ["pem"] else [])
         ++ (if Metrics.wanted "sm" requested_metrics then ["sm"] else [])
         ++ (if Metrics.wanted "ter" requested_metrics then ["ter"] else [])
         ++ (if Metrics.wanted "bertscore" requested_metrics then ["bertscore"] else [])
         ++ (if Metrics.wanted "casedbleu" requested_metrics then ["casedbleu"] else [])
         ++ (if Metrics.wanted "bleu" requested_metrics then ["bleu"] else [])
         ++ (if Metrics.wanted "t5_bleu" requested_metrics then ["t5_bleu"] else [])
         ++ (if Metrics.wanted "nmt_bleu" requested_metrics then ["nmt_bleu"] else [])
         ++ (if Metrics.wanted "avg_rouge" requested_metrics
             then ["rouge1"; "rouge2"; "rougeL"; "avg_rouge"] else [])
         ++ (if Metrics.wanted "sc_precision" requested_metrics then ["sc_precision"] else [])
         ++ (if Metrics.wanted "sc_recall" requested_metrics then ["sc_recall"] else [])
         ++ (if Metrics.wanted "sc_f1" requested_metrics then ["sc_f1"] else [])
         ++ (if Metrics.wanted "f1" requested_metrics then ["f1"] else [])
         ++ (if Metrics.wanted "ner_f1_IOB1" requested_metrics then ["ner_f1_IOB1"] else [])
         ++ (if Metrics.wanted "ner_f1" requested_metrics then ["ner_f1"] else [])
         ++ (if Metrics.wanted "nf1" requested_metrics then ["nf1"] else [])
         ++ (if Metrics.wanted "nem" requested_metrics then ["nem"] else [])
         ++ (if Metrics.wanted "corpus_f1" requested_metrics
             then ["corpus_f1"; "precision"; "recall"] else []) /\
  (length metric_values = length metric_keys -> length kv.2 = length kv.1).
Proof.
  unfold Metrics.collect_metrics.
  repeat match goal with
         | |- (_ ≫= _) = Ok _ -> _ =>
             let E := fresh "E" in
             match goal with
             | |- (?m ≫= _) = _ -> _ => destruct m as [?|] eqn:E; [|done]; cbn [mbind result_bind]
             end
         | |- (let '(_, _) := ?p in _) = Ok _ -> _ => destruct p
         end.
  intros [= <- <-].
  assert (p.1 = metric_keys
                ++ (if Metrics.wanted "joint_goal_em" requested_metrics
                    then ["joint_goal_em"; "turn_request_em"; "turn_goal_em"; "avg_dialogue"]
                    else []) /\
          (length metric_values = length metric_keys -> length p.2 = length p.1)) as [Hd Hdl].
  { destruct (Metrics.wanted "joint_goal_em" requested_metrics).
    - destruct (match answer with Metrics.TextLists _ => _ | _ => _ end)
        as [[[[? ?] ?] ?]|]; [|done].
      injection E as <- <-. simpl. split; [done|].
      intros H. by rewrite !length_app, H.
    - injection E as <- <-. simpl. by rewrite app_nil_r. }
  assert (a9.1 = a8.1
                 ++ (if Metrics.wanted "avg_rouge" requested_metrics
                     then ["rouge1"; "rouge2"; "rougeL"; "avg_rouge"] else []) /\
          (length a8.2 = length a8.1 -> length a9.2 = length a9.1)) as [Hr Hrl].
  { destruct (Metrics.wanted "avg_rouge" requested_metrics).
    - repeat match type of E10 with
             | (?m ≫= _) = Ok _ => destruct m; [cbn [mbind result_bind] in E10|done]
             end.
      injection E10 as <-. simpl. split; [done|].
      intros H. by rewrite !length_app, H.
    - injection E10 as <-. by rewrite app_nil_r. }
  assert (a18.1 = a17.1
                  ++ (if Metrics.wanted "corpus_f1" requested_metrics
                      then ["corpus_f1"; "precision"; "recall"] else []) /\
          (length a17.2 = length a17.1 -> length a18.2 = length a18.1)) as [Hc Hcl].
  { destruct (Metrics.wanted "corpus_f1" requested_metrics).
    - destruct (Metrics.computeCF1 _ _) as [[[? ?] ?]|]; [|done].
      injection E19 as <-. simpl. split; [done|].
      intros H. by rewrite !length_app, H.
    - injection E19 as <-. by rewrite app_nil_r. }
  clear E E10 E19.
  repeat match goal with
         | E : Metrics.add_metric _ _ _ _ = Ok _ |- _ => apply add_metric_keys in E as [? ?]
         end.
  simpl in *. split.
  - repeat match goal with H : _ = _ ++ _ |- _ => rewrite H; clear H end.
    by rewrite <- !app_assoc.
  - intros Hlen.
    repeat match goal with H : length _ = length _ -> _ |- _ => apply H; clear H end.
    rewrite !length_app. f_equal. auto.
Qed.

Lemma produced_names (requested_metrics : list string) :
  List.filter (produced requested_metrics) metric_names
  = (if Metrics.wanted "lfem" requested_metrics then ["lfem"] else [])
    ++ (if Metrics.wanted "joint_goal_em" requested_metrics
        then ["joint_goal_em"; "turn_request_em"; "turn_goal_em"; "avg_dialogue"] else [])
    ++ ["em"]
    ++ (if Metrics.wanted "pem" requested_metrics then ["pem"] else [])
    ++ (if Metrics.wanted "sm" requested_metrics then ["sm"] else [])
    ++ (if Metrics.wanted "ter" requested_metrics then ["ter"] else [])
    ++ (if Metrics.wanted "bertscore" requested_metrics then ["bertscore"] else [])
    ++ (if Metrics.wanted "casedbleu" requested_metrics then ["casedbleu"] else [])
    ++ (if Metrics.wanted "bleu" requested_metrics then ["bleu"] else [])
    ++ (if Metrics.wanted "t5_bleu" requested_metrics then ["t5_bleu"] else [])
    ++ (if Metrics.wanted "nmt_bleu" requested_metrics then ["nmt_bleu"] else [])
    ++ (if Metrics.wanted "avg_rouge" requested_metrics
        then ["rouge1"; "rouge2"; "rougeL"; "avg_rouge"] else [])
    ++ (if Metrics.wanted "sc_precision" requested_metrics then ["sc_precision"] else [])
    ++ (if Metrics.wanted "sc_recall" requested_metrics then ["sc_recall"] else [])
    ++ (if Metrics.wanted "sc_f1" requested_metrics then ["sc_f1"] else [])
    ++ (if Metrics.wanted "f1" requested_metrics then ["f1"] else [])
    ++ (if Metrics.wanted "ner_f1_IOB1" requested_metrics then ["ner_f1_IOB1"] else [])
    ++ (if Metrics.wanted "ner_f1" requested_metrics then ["ner_f1"] else [])
    ++ (if Metrics.wanted "nf1" requested_metrics then ["nf1"] else [])
    ++ (if Metrics.wanted "nem" requested_metrics then ["nem"] else [])
    ++ (if Metrics.wanted "corpus_f1" requested_metrics
        then ["corpus_f1"; "precision"; "recall"] else []).
Proof.
  change metric_names with
    (["lfem"] ++ ["joint_goal_em"; "turn_request_em"; "turn_goal_em"; "avg_dialogue"]
     ++ ["em"] ++ ["pem"] ++ ["sm"] ++ ["ter"] ++ ["bertscore"] ++ ["casedbleu"] ++ ["bleu"]
     ++ ["t5_bleu"] ++ ["nmt_bleu"] ++ ["rouge1"; "rouge2"; "rougeL"; "avg_rouge"]
     ++ ["sc_precision"] ++ ["sc_recall"] ++ ["sc_f1"] ++ ["f1"] ++ ["ner_f1_IOB1"]
     ++ ["ner_f1"] ++ ["nf1"] ++ ["nem"] ++ ["corpus_f1"; "precision"; "recall"]).
  rewrite !List.filter_app. cbn [List.filter]. unfold produced.
  repeat match goal with
         | |- context [leader ?name] =>
             let l := eval vm_compute in (leader name) in change (leader name) with l
         end.
  repeat match goal with
         | |- context [bool_decide (?name = "em")] =>
             let b := eval vm_compute in (bool_decide (name = "em")) in
             change (bool_decide (name = "em")) with b
         end.
  cbn [orb].
  by destruct (Metrics.wanted "joint_goal_em" requested_metrics),
       (Metrics.wanted "avg_rouge" requested_metrics),
       (Metrics.wanted "corpus_f1" requested_metrics).
Qed.

Lemma lfem_block_keys (query : Metrics.Query) (greedy : list string) (answer : Metrics.nested)
    (h h' : Metrics.heap) (metric_keys : list string) (metric_values : list Q)
    (answer' : Metrics.nested) :
  Metrics.lfem_block query greedy answer h = (Ok (metric_keys, metric_values, answer'), h') ->
  metric_keys = ["lfem"] /\ length metric_values = length metric_keys.
Proof.
  destruct answer as [a|a|a]; simpl.
  - destruct (Metrics.firsts a); simpl; [|done]. by destruct (bool_decide _).
  - destruct (Metrics.computeLFEM query greedy a h) as [[[lfem ans]|e] h1]; [|done].
    by intros [= <- <- <- <-].
  - destruct (Metrics.firsts a); simpl; [|done]. by destruct (bool_decide _).
Qed.

(** The keys that the scorers leave behind: the names that are produced, in
    the order of [metric_names], with one value each. *)
Lemma compute_scores_keys (ext : Metrics.externals) (query : Metrics.Query)
    (greedy : list string) (answer : Metrics.answers) (requested_metrics : list string)
    (lang : string) (h h' : Metrics.heap) (kv : list string * list Q)
    (answer' : Metrics.nested) :
  Metrics.compute_scores ext query greedy answer requested_metrics lang h
  = (Ok (kv, answer'), h') ->
  kv.1 = List.filter (produced requested_metrics) metric_names /\
  length kv.2 = length kv.1.
Proof.
  unfold Metrics.compute_scores. rewrite produced_names.
  destruct (Metrics.wrap answer) as [answer0|]; [|done].
  destruct (Metrics.wanted "lfem" requested_metrics).
  - destruct (Metrics.lfem_block query greedy answer0 h) as [[[[mk mv] a]|] h1] eqn:Hl; [|done].
    apply lfem_block_keys in Hl as [-> Hlen]. cbn [mbind result_bind].
    destruct (Metrics.collect_metrics _ _ _ _ _) as [[kv0 a0]|] eqn:Hc; [|done].
    intros [= <- <- <-]. apply collect_metrics_keys in Hc as [Hk Hv]. auto.
  - cbn [mbind result_bind].
    destruct (Metrics.collect_metrics _ _ _ _ _) as [[kv0 a0]|] eqn:Hc; [|done].
    intros [= <- <- <-]. apply collect_metrics_keys in Hc as [Hk Hv]. auto.
Qed.

Lemma dict_set_fresh (k : string) (v : Q) (d : list (string * Q)) :
  k ∉ map fst d -> Metrics.dict_set k v d = d ++ [(k, v)].
Proof.
  induction d as [|[k' v'] d IH]; simpl; [done|].
  intros Hk. apply not_elem_of_cons in Hk as [Hne Hk].
  destruct (decide (k = k')); [done|]. by rewrite IH.
Qed.

Lemma dict_of_nodup_from (pairs d : list (string * Q)) :
  NoDup (map fst d ++ map fst pairs) ->
  fold_left (fun d '(k, v) => Metrics.dict_set k v d) pairs d = d ++ pairs.
Proof.
  revert d. induction pairs as [|[k v] pairs IH]; intros d Hnd; simpl.
  - by rewrite app_nil_r.
  - simpl in Hnd. rewrite dict_set_fresh.
    + rewrite IH; [by rewrite <- app_assoc|].
      rewrite map_app. simpl. by rewrite <- app_assoc.
    + apply NoDup_app in Hnd as (_ & Hnd & _). intros Hk.
      apply (Hnd k Hk). by left.
Qed.

Lemma dict_of_nodup (pairs : list (string * Q)) :
  NoDup (map fst pairs) -> Metrics.dict_of pairs = pairs.
Proof. intros H. by apply (dict_of_nodup_from pairs []). Qed.

Lemma dict_set_keys (k : string) (v : Q) (d : list (string * Q)) :
  map fst (Metrics.dict_set k v d)
  = if bool_decide (k ∈ map fst d) then map fst d else map fst d ++ [k].
Proof.
  induction d as [|[k' v'] d IH]; simpl; [done|].
  destruct (decide (k = k')) as [->|Hne]; simpl.
  - rewrite bool_decide_eq_true_2; [done|]. by left.
  - rewrite IH. destruct (decide (k ∈ map fst d)) as [Hin|Hnot].
    + rewrite !bool_decide_eq_true_2; [done| |done]. by right.
    + rewrite !bool_decide_eq_false_2; [done| |done].
      by intros [?|?]%elem_of_cons.
Qed.

Lemma dict_set_elem (x : string * Q) (k : string) (v : Q) (d : list (string * Q)) :
  x ∈ Metrics.dict_set k v d -> x = (k, v) \/ x ∈ d.
Proof.
  induction d as [|[k' v'] d IH]; simpl.
  - intros ->%list_elem_of_singleton. by left.
  - destruct (decide (k = k')) as [->|Hne].
    + intros [->|Hx]%elem_of_cons; [by left|]. right. by right.
    + intros [->|Hx]%elem_of_cons; [right; by left|].
      destruct (IH Hx) as [->|Hd]; [by left|]. right. by right.
Qed.

Lemma dict_of_from (pairs d : list (string * Q)) :
  let r := fold_left (fun d '(k, v) => Metrics.dict_set k v d) pairs d in
  (NoDup (map fst d) -> NoDup (map fst r)) /\
  (forall k, k ∈ map fst r <-> k ∈ map fst d \/ k ∈ map fst pairs) /\
  (forall x, x ∈ r -> x ∈ d \/ x ∈ pairs).
Proof.
  revert d. induction pairs as [|[k v] pairs IH]; intros d; simpl.
  - split; [done|]. split; [|by left].
    intros k. split; [by left|]. by intros [?|?%elem_of_nil].
  - destruct (IH (Metrics.dict_set k v d)) as (Hnd & Hkeys & Helem).
    split; [|split].
    + intros Hd. apply Hnd. rewrite dict_set_keys.
      destruct (decide (k ∈ map fst d)) as [Hin|Hnot].
      * by rewrite bool_decide_eq_true_2.
      * rewrite bool_decide_eq_false_2 by done.
        apply NoDup_app. split; [done|]. split; [|apply NoDup_singleton].
        by intros k' Hk' ->%list_elem_of_singleton.
    + intros k'. rewrite Hkeys, dict_set_keys, elem_of_cons.
      destruct (decide (k ∈ map fst d)) as [Hin|Hnot].
      * rewrite bool_decide_eq_true_2 by done.
        split; [intros [?|?]; auto|]. intros [?|[->|?]]; auto.
      * rewrite bool_decide_eq_false_2 by done.
        rewrite elem_of_app, list_elem_of_singleton.
        split; [intros [[?|?]|?]; auto|]. intros [?|[?|?]]; auto.
    + intros x Hx. destruct (Helem x Hx) as [Hd|Hp].
      * destruct (dict_set_elem _ _ _ _ Hd) as [->|Hd']; [|by left].
        right. by left.
      * right. by right.
Qed.

Lemma dict_get_spec (d : list (string * Q)) (k : string) :
  match Metrics.dict_get d k with
  | Ok v => (k, v) ∈ d
  | Raise e => e = KeyError /\ k ∉ map fst d
  end.
Proof.
  induction d as [|[k' v'] d IH]; simpl.
  - split; [done|]. apply not_elem_of_nil.
  - destruct (decide (k = k')) as [->|Hne]; [by left|].
    destruct (Metrics.dict_get d k) as [v|e].
    + by right.
    + destruct IH as [-> Hk]. split; [done|]. by intros [?|?]%elem_of_cons.
Qed.

Lemma zip_keys {A B} (ks : list A) (vs : list B) :
  length vs = length ks -> map fst (zip ks vs) = ks.
Proof.
  revert vs. induction ks as [|k ks IH]; intros [|v vs]; simpl; try done.
  intros [= H]. by rewrite IH.
Qed.

(** The last two statements of [compute_metrics]: the requested names are
    looked up one after the other; the first that is not a key raises
    [KeyError]. *)
Lemma select_metrics_spec (requested_metrics : list string) (kv : list string * list Q) :
  length kv.2 = length kv.1 ->
  if forallb (fun name => bool_decide (name ∈ kv.1)) requested_metrics then
    exists metric_dict,
      Metrics.select_metrics requested_metrics kv = Ok metric_dict /\
      (NoDup requested_metrics -> map fst metric_dict = requested_metrics) /\
      NoDup (map fst metric_dict) /\
      (forall key, key ∈ map fst metric_dict <-> key ∈ requested_metrics) /\
      Forall (fun x => x ∈ zip kv.1 kv.2) metric_dict
  else Metrics.select_metrics requested_metrics kv = Raise KeyError.
Proof.
  intros Hlen. unfold Metrics.select_metrics.
  set (metric_dict := Metrics.dict_of (zip kv.1 kv.2)).
  assert (forall key, key ∈ map fst metric_dict <-> key ∈ kv.1) as Hkeys.
  { intros key. unfold metric_dict, Metrics.dict_of.
    rewrite (proj1 (proj2 (dict_of_from (zip kv.1 kv.2) [])) key), zip_keys by done.
    split; [by intros [?%elem_of_nil|?]|by right]. }
  assert (forall x, x ∈ metric_dict -> x ∈ zip kv.1 kv.2) as Helem.
  { intros x Hx. by destruct (proj2 (proj2 (dict_of_from (zip kv.1 kv.2) [])) x Hx)
      as [?%elem_of_nil|?]. }
  assert (match traverse (fun key => v ← Metrics.dict_get metric_dict key; Ok (key, v))
                  requested_metrics with
          | Ok pairs =>
              forallb (fun name => bool_decide (name ∈ kv.1)) requested_metrics = true /\
              map fst pairs = requested_metrics /\ Forall (fun x => x ∈ metric_dict) pairs
          | Raise e =>
              forallb (fun name => bool_decide (name ∈ kv.1)) requested_metrics = false /\
              e = KeyError
          end) as Ht.
  { clearbody metric_dict. induction requested_metrics as [|key l IH]; simpl; [done|].
    pose proof (dict_get_spec metric_dict key) as Hg.
    destruct (Metrics.dict_get metric_dict key) as [v|e]; simpl.
    - rewrite bool_decide_eq_true_2.
      2:{ apply Hkeys. apply (list_elem_of_fmap_2 fst _ (key, v)), Hg. }
      simpl. destruct (traverse _ l) as [pairs|e]; simpl.
      + destruct IH as (-> & <- & Hall). split; [done|]. split; [done|]. by constructor.
      + done.
    - destruct Hg as [-> Hk]. rewrite bool_decide_eq_false_2; [done|].
      by rewrite <- Hkeys. }
  destruct (traverse _ requested_metrics) as [pairs|e]; simpl.
  - destruct Ht as (-> & Hfst & Hall).
    destruct (dict_of_from pairs []) as (Hnd & Hk & He).
    exists (Metrics.dict_of pairs). split; [done|]. split; [|split; [|split]].
    + intros Hreq. rewrite dict_of_nodup; [done|]. by rewrite Hfst.
    + apply Hnd. constructor.
    + intros key. unfold Metrics.dict_of. rewrite Hk, Hfst.
      split; [by intros [?%elem_of_nil|?]|by right].
    + apply Forall_forall. intros x Hx. apply Helem.
      destruct (He x Hx) as [?%elem_of_nil|Hp]; [done|].
      by apply (proj1 (Forall_forall _ _) Hall).
  - by destruct Ht as [-> ->].
Qed.

Lemma served_keys (requested_metrics : list string) :
  forallb (fun name => bool_decide (name ∈ List.filter (produced requested_metrics) metric_names))
          requested_metrics
  = served requested_metrics.
Proof.
  unfold served.
  assert (forall l : list string,
            forallb (fun name =>
                       bool_decide (name ∈ List.filter (produced requested_metrics) metric_names)) l
            = forallb (fun name => bool_decide (name ∈ metric_names)
                                   && produced requested_metrics name) l) as H; [|apply H].
  generalize metric_names. intros names.
  induction l as [|name l IH]; cbn [forallb]; [done|]. rewrite IH. f_equal.
  destruct (produced requested_metrics name) eqn:Hp.
  - rewrite andb_true_r. apply bool_decide_ext.
    rewrite !list_elem_of_In, filter_In. tauto.
  - rewrite andb_false_r. apply bool_decide_eq_false.
    rewrite list_elem_of_In, filter_In. intros [_ H]. congruence.
Qed.

(** *** The metrics that need no library *)

(** The metrics that [metrics.py] computes by itself on texts. *)
Definition builtin : list string :=
  ["em"; "f1"; "nf1"; "nem"; "corpus_f1"; "precision"; "recall"].

Lemma traverse_total {A B} (f : A -> result B) (l : list A) :
  Forall (fun x => exists y, f x = Ok y) l -> exists r, traverse f l = Ok r.
Proof.
  induction 1 as [|x l [y Hy] _ [r IH]]; simpl; [by eexists|].
  rewrite Hy, IH. by eexists.
Qed.

Lemma zip_nonempty {A} (outputs : list A) (targets : list (list string)) :
  Forall (fun t => t <> []) targets ->
  Forall (fun ot : A * list string => ot.2 <> []) (zip outputs targets).
Proof.
  intros H. revert outputs. induction H as [|t targets Ht _ IH]; intros [|o outputs];
    simpl; constructor; auto.
Qed.

Lemma computeEM_total (outputs : list string) (targets : list (list string)) :
  outputs <> [] -> Forall (fun t => t <> []) targets ->
  exists q, Metrics.computeEM outputs targets = Ok q.
Proof.
  intros Hout Hne. unfold Metrics.computeEM. rewrite (em_outs _ _ Hne). simpl.
  unfold truediv, len.
  destruct (Z.eqb_spec (Z.of_nat (length outputs)) 0) as [H0|H0].
  { destruct outputs; [done|]. simpl in H0. lia. }
  by eexists.
Qed.

Lemma traverse_nonempty {A B} (f : A -> result B) (l : list A) (r : list B) :
  traverse f l = Ok r -> l <> [] -> r <> [].
Proof.
  intros H Hl Hr. apply traverse_length in H. rewrite Hr in H. by destruct l.
Qed.

Lemma computeF1_total (outputs : list string) (targets : list (list string)) :
  outputs <> [] -> Forall (fun t => t <> []) targets ->
  exists q, Metrics.computeF1 outputs targets = Ok q.
Proof.
  intros Hout Hne. unfold Metrics.computeF1.
  destruct (traverse_total
              (fun '(o, t) => Metrics.metric_max_over_ground_truths Q_gt Metrics.f1_score o t)
              (zip outputs targets)) as [outs ->].
  { eapply Forall_impl; [apply (zip_nonempty outputs targets Hne)|].
    intros [o t] Ht. cbn [snd] in Ht. unfold Metrics.metric_max_over_ground_truths.
    destruct (traverse_total (Metrics.f1_score o) t) as [scores Hs].
    { apply Forall_forall. intros g _.
      eexists. apply f1_score_value. }
    rewrite Hs. cbn [mbind result_bind].
    pose proof (traverse_nonempty _ _ _ Hs Ht) as Hn.
    destruct scores; [done|]. by eexists. }
  cbn [mbind result_bind]. rewrite fdiv_ok; [by eexists|].
  unfold len. destruct outputs; [done|].
  unfold Qeq. cbn [Qnum Qden inject_Z length]. lia.
Qed.

Lemma score_bounds (answer : string) (gold : list string) :
  let '(tp, tn, sys_pos, real_pos) := Metrics.score answer gold in
  0 <= tp /\ tp <= sys_pos /\ tp <= real_pos.
Proof.
  unfold Metrics.score.
  generalize (Metrics.simplify answer). intros ans.
  generalize (if 0 <? len gold then Some (⋃ map Metrics.simplify gold) else None).
  intros gold'.
  destruct (decide (Some ans = gold')) as [<-|Hne].
  - rewrite !bool_decide_eq_true_2 by done. cbn [from_option andb].
    destruct (Metrics.unanswerable ans); cbn [negb]; lia.
  - rewrite !bool_decide_eq_false_2 by done. cbn [andb].
    destruct (negb (Metrics.unanswerable ans)), (negb (from_option Metrics.unanswerable false gold'));
      lia.
Qed.

Lemma computeCF1_total (greedy : list string) (answer : list (list string)) :
  exists scores, Metrics.computeCF1 greedy answer = Ok scores.
Proof.
  unfold Metrics.computeCF1.
  assert (forall (pairs : list (string * list string)) (st : Z * Z * Z * Z),
            (let '(tp, tn, sys_pos, real_pos) := st in
             0 <= tp /\ tp <= sys_pos /\ tp <= real_pos) ->
            let '(tp, tn, sys_pos, real_pos) :=
              fold_left (fun '(a, b, c, d) '(g, a') =>
                           let '(tp, tn, sys_pos, real_pos) := Metrics.score g a' in
                           (a + tp, b + tn, c + sys_pos, d + real_pos)) pairs st in
            0 <= tp /\ tp <= sys_pos /\ tp <= real_pos) as Hfold.
  { induction pairs as [|[g a'] pairs IH]; intros [[[tp tn] sp] rp] Hst; [done|].
    cbn [fold_left]. apply IH.
    pose proof (score_bounds g a') as Hs.
    destruct (Metrics.score g a') as [[[tp' tn'] sp'] rp']. lia. }
  specialize (Hfold (zip greedy answer) (0, 0, 0, 0)).
  destruct (fold_left _ _ _) as [[[tp tn] sp] rp].
  destruct Hfold as (H0 & Hs & Hr); [lia|].
  destruct (Z.eqb_spec tp 0) as [Hz|Hz]; [by eexists|].
  assert (0 < inject_Z tp)%Q as Htp by (rewrite <- (Zlt_Qlt 0); lia).
  assert (inject_Z tp <= inject_Z sp)%Q as Hsp by (by rewrite <- Zle_Qle).
  assert (inject_Z tp <= inject_Z rp)%Q as Hrp by (by rewrite <- Zle_Qle).
  rewrite fdiv_ok by lra. cbn [mbind result_bind].
  rewrite fdiv_ok by lra. cbn [mbind result_bind].
  assert (0 < inject_Z tp / inject_Z sp)%Q by (apply Qlt_shift_div_l; lra).
  assert (0 < inject_Z tp / inject_Z rp)%Q by (apply Qlt_shift_div_l; lra).
  rewrite fdiv_ok by lra. by eexists.
Qed.

Lemma not_wanted (name : string) (requested_metrics : list string) :
  requested_metrics ⊆ builtin -> bool_decide (name ∈ builtin) = false ->
  Metrics.wanted name requested_metrics = false.
Proof.
  intros Hsub Hname. apply bool_decide_eq_false. intros Hin.
  apply bool_decide_eq_false in Hname. apply Hname, Hsub, Hin.
Qed.

Lemma add_metric_skip (requested_metrics : list string) (name : string) (compute : result Q)
    (kv : list string * list Q) :
  Metrics.wanted name requested_metrics = false ->
  Metrics.add_metric requested_metrics name compute kv = Ok kv.
Proof. intros H. unfold Metrics.add_metric. by rewrite H. Qed.

Lemma add_metric_total (requested_metrics : list string) (name : string) (compute : result Q)
    (kv : list string * list Q) :
  (exists v, compute = Ok v) ->
  exists kv', Metrics.add_metric requested_metrics name compute kv = Ok kv'.
Proof.
  intros [v ->]. unfold Metrics.add_metric.
  destruct (Metrics.wanted name requested_metrics); by eexists.
Qed.

Lemma normalized_nonempty (texts : list (list string)) :
  Forall (fun t => t <> []) texts ->
  Forall (fun t => t <> []) (map (map Metrics.normalize_text) texts).
Proof.
  intros H. apply Forall_fmap. eapply Forall_impl; [exact H|].
  intros t Ht. by destruct t.
Qed.

(** On texts with at least one ground truth each, the scorers of the
    metrics in [builtin] all return. *)
Lemma collect_metrics_builtin (ext : Metrics.externals) (greedy : list string)
    (requested_metrics : list string) (lang : string)
    (metric_keys : list string) (metric_values : list Q) (texts : list (list string)) :
  requested_metrics ⊆ builtin -> greedy <> [] -> Forall (fun t => t <> []) texts ->
  exists scores,
    Metrics.collect_metrics ext greedy requested_metrics lang
      (metric_keys, metric_values, Metrics.TextLists texts) = Ok scores.
Proof.
  intros Hsub Hg Ht. unfold Metrics.collect_metrics.
  rewrite (not_wanted "joint_goal_em"), (not_wanted "avg_rouge") by done.
  cbn [mbind result_bind Metrics.as_texts].
  destruct (computeEM_total greedy texts Hg Ht) as [em ->]. cbn [mbind result_bind].
  repeat (rewrite add_metric_skip by (by apply not_wanted); cbn [mbind result_bind]).
  match goal with |- context [Metrics.add_metric _ "f1" ?c ?kv] =>
    destruct (add_metric_total requested_metrics "f1" c kv) as [kv1 ->];
      [by apply computeF1_total|] end.
  cbn [mbind result_bind].
  repeat (rewrite add_metric_skip by (by apply not_wanted); cbn [mbind result_bind]).
  assert (map Metrics.normalize_text greedy <> []) as Hng by (by destruct greedy).
  pose proof (normalized_nonempty texts Ht) as Hnt.
  match goal with |- context [Metrics.add_metric _ "nf1" ?c ?kv] =>
    destruct (add_metric_total requested_metrics "nf1" c kv) as [kv2 ->];
      [by apply computeF1_total|] end.
  cbn [mbind result_bind].
  match goal with |- context [Metrics.add_metric _ "nem" ?c ?kv] =>
    destruct (add_metric_total requested_metrics "nem" c kv) as [kv3 ->];
      [by apply computeEM_total|] end.
  cbn [mbind result_bind].
  destruct (Metrics.wanted "corpus_f1" requested_metrics); [|by eexists].
  destruct (computeCF1_total (map Metrics.normalize_text greedy)
              (map (map Metrics.normalize_text) texts)) as [[[f p] r] ->].
  by eexists.
Qed.

Lemma compute_scores_builtin (ext : Metrics.externals) (query : Metrics.Query)
    (greedy texts : list string) (requested_metrics : list string) (lang : string)
    (h : Metrics.heap) :
  requested_metrics ⊆ builtin -> greedy <> [] -> length texts = length greedy ->
  exists scores,
    Metrics.compute_scores ext query greedy (Metrics.Texts texts) requested_metrics lang h
    = (Ok scores, h).
Proof.
  intros Hsub Hg Hlen. unfold Metrics.compute_scores.
  destruct texts as [|t texts]; [by destruct greedy|]. cbn [Metrics.wrap].
  rewrite (not_wanted "lfem") by done. cbn [mbind result_bind].
  destruct (collect_metrics_builtin ext greedy requested_metrics lang [] []
              (map (fun x => [x]) (t :: texts)) Hsub Hg) as [scores ->]; [|by eexists].
  apply Forall_fmap, Forall_forall. by intros x _.
Qed.

(** C1 (failing input). The docstring of [compute_metrics] lists
    [precision] and [recall] among the metrics of which [requested_metrics]
    holds a subset.  A request for [precision] alone, or for [recall] alone,
    raises [KeyError] at the last statement: the two enter [metric_keys]
    only under [if 'corpus_f1' in requested_metrics].  With [corpus_f1]
    beside it the same call returns, with a score for [precision]. *)
Theorem compute_metrics_precision_alone :
  Metrics.compute_metrics no_externals wikisql ["x"] (Metrics.Texts ["x"]) ["precision"] "en"
    {| Metrics.sqls := ∅; Metrics.cond_lists := ∅ |}
  = (Raise KeyError, {| Metrics.sqls := ∅; Metrics.cond_lists := ∅ |}) /\
  Metrics.compute_metrics no_externals wikisql ["x"] (Metrics.Texts ["x"]) ["recall"] "en"
    {| Metrics.sqls := ∅; Metrics.cond_lists := ∅ |}
  = (Raise KeyError, {| Metrics.sqls := ∅; Metrics.cond_lists := ∅ |}) /\
  Metrics.compute_metrics no_externals wikisql ["x"] (Metrics.Texts ["x"])
    ["precision"; "corpus_f1"] "en" {| Metrics.sqls := ∅; Metrics.cond_lists := ∅ |}
  = (Ok ([("precision", (100 # 1)%Q); ("corpus_f1", (200 # 2)%Q)], Metrics.TextLists [["x"]]),
     {| Metrics.sqls := ∅; Metrics.cond_lists := ∅ |}).
Proof. vm_compute. repeat split; reflexivity. Qed.

(** *** The value under each name *)

(** The metrics that [compute_metrics] computes from the predictions and
    the ground truths as texts, each with the call that stands under its
    name in [compute_metrics]; a member of a group has its part of the
    result of the group. *)
Definition scorers (ext : Metrics.externals) (greedy : list string)
    (texts : list (list string)) (lang : string) : list (string * result Q) :=
  let norm_greedy := map Metrics.normalize_text greedy in
  let norm_answer := map (map Metrics.normalize_text) texts in
  let rouge key := rouge ← Metrics.computeROUGE ext greedy texts; Metrics.rouge_item rouge key in
  let corpus (part : Q * Q * Q -> Q) :=
    scores ← Metrics.computeCF1 norm_greedy norm_answer; Ok (part scores) in
  [("em", Metrics.computeEM greedy texts);
   ("pem", Metrics.computePartialEM greedy texts);
   ("sm", Metrics.computeSM ext greedy texts);
   ("ter", Metrics.computeTER ext greedy texts);
   ("bertscore", Metrics.computeBERTScore ext greedy texts lang);
   ("casedbleu", Metrics.computeCasedBLEU ext greedy texts);
   ("bleu", Metrics.computeBLEU ext greedy texts);
   ("t5_bleu", Metrics.computeT5BLEU ext greedy texts);
   ("nmt_bleu", Metrics.computeNMTBLEU ext greedy texts);
   ("rouge1", rouge "rouge_1_f_score");
   ("rouge2", rouge "rouge_2_f_score");
   ("rougeL", rouge "rouge_l_f_score");
   ("avg_rouge",
    r1 ← rouge "rouge_1_f_score"; r2 ← rouge "rouge_2_f_score"; rl ← rouge "rouge_l_f_score";
    Ok ((r1 + r2 + rl) / 3)%Q);
   ("sc_precision", Metrics.computeSequenceClassificationPrecision ext greedy texts);
   ("sc_recall", Metrics.computeSequenceClassificationRecall ext greedy texts);
   ("sc_f1", Metrics.computeSequenceClassificationF1 ext greedy texts);
   ("f1", Metrics.computeF1 greedy texts);
   ("ner_f1_IOB1",
    let greedy_processed := map Str.split greedy in
    answer0 ← Metrics.firsts texts;
    let answer_processed := map Str.split answer0 in
    Metrics.convert_IOB2_to_IOB1 None greedy_processed;;
    Metrics.convert_IOB2_to_IOB1 None answer_processed;;
    f1 ← Metrics.seqeval_f1_score ext true greedy_processed answer_processed;
    Ok (f1 * 100)%Q);
   ("ner_f1",
    let greedy_processed := map Str.split greedy in
    answer0 ← Metrics.firsts texts;
    let answer_processed := map Str.split answer0 in
    f1 ← Metrics.seqeval_f1_score ext false greedy_processed answer_processed;
    Ok (f1 * 100)%Q);
   ("nf1", Metrics.computeF1 norm_greedy norm_answer);
   ("nem", Metrics.computeEM norm_greedy norm_answer);
   ("corpus_f1", corpus (fun scores => scores.1.1));
   ("precision", corpus (fun scores => scores.1.2));
   ("recall", corpus (fun scores => scores.2))].

(** [computeDialogue(greedy, answer)] in [compute_metrics]: the turn and
    the gold state are the two items of a turn, or the first two characters
    of a text; a record has no item [0]. *)
Definition dialogue_scores (greedy : list string) (answer : Metrics.nested)
    : result (Q * Q * Q * list (list string)) :=
  match answer with
  | Metrics.TextLists a => Metrics.computeDialogue Metrics.turn_of_text greedy a
  | Metrics.Records a => Metrics.computeDialogue (fun _ : Metrics.example => Raise KeyError) greedy a
  | Metrics.Turns a => Metrics.computeDialogue Metrics.turn_of_pair greedy a
  end.

(** What the entry [x] of the returned dict holds, [texts] being the
    answers that are returned beside it: the score that the scorer of the
    name returns on the predictions and [texts]; for [lfem], the score of
    [computeLFEM] on the records that were given; for the four dialogue
    metrics, their part of what [computeDialogue] returns (on the answers
    that were given, when [lfem] is not requested as well). *)
Definition scored (ext : Metrics.externals) (query : Metrics.Query) (greedy : list string)
    (answer : Metrics.answers) (requested_metrics : list string) (lang : string)
    (h h' : Metrics.heap) (texts : list (list string)) (x : string * Q) : Prop :=
  (x.1, Ok x.2) ∈ scorers ext greedy texts lang \/
  (x.1 = "lfem" /\
   exists a, Metrics.wrap answer = Ok (Metrics.Records a) /\
             exists text_answers,
               Metrics.computeLFEM query greedy a h = (Ok (x.2, text_answers), h')) \/
  (exists before joint_goal_em request_em turn_goal_em,
     ("lfem" ∉ requested_metrics -> Metrics.wrap answer = Ok before) /\
     dialogue_scores greedy before = Ok (joint_goal_em, request_em, turn_goal_em, texts) /\
     x ∈ [("joint_goal_em", joint_goal_em); ("turn_request_em", request_em);
          ("turn_goal_em", turn_goal_em);
          ("avg_dialogue", ((joint_goal_em + request_em) / 2)%Q)]).

(** No name stands twice in [scorers], and none is [lfem] or a dialogue
    metric: [scored] tells one value for each name. *)
Lemma scorers_names (ext : Metrics.externals) (greedy : list string)
    (texts : list (list string)) (lang : string) :
  ["lfem"; "joint_goal_em"; "turn_request_em"; "turn_goal_em"; "avg_dialogue"]
  ++ map fst (scorers ext greedy texts lang) = metric_names.
Proof. reflexivity. Qed.

(** The entries that the scorers write, all with a property [P]. *)
Definition entries (P : string * Q -> Prop) (kv : list string * list Q) : Prop :=
  length kv.2 = length kv.1 /\ Forall P (zip kv.1 kv.2).

Lemma zip_app {A B} (a a' : list A) (b b' : list B) :
  length b = length a -> zip (a ++ a') (b ++ b') = zip a b ++ zip a' b'.
Proof.
  revert b. induction a as [|x a IH]; intros [|y b]; simpl; try done.
  intros [= H]. by rewrite IH.
Qed.

Lemma entries_app (P : string * Q -> Prop) (kv : list string * list Q)
    (names : list string) (values : list Q) :
  entries P kv -> length values = length names -> Forall P (zip names values) ->
  entries P (kv.1 ++ names, kv.2 ++ values).
Proof.
  intros [Hlen HP] Hl Hnew. split; cbn [fst snd].
  - by rewrite !length_app, Hlen, Hl.
  - rewrite zip_app by done. by apply Forall_app.
Qed.

Lemma add_metric_entries (P : string * Q -> Prop) (requested_metrics : list string)
    (name : string) (compute : result Q) (kv kv' : list string * list Q) :
  entries P kv -> (forall v, compute = Ok v -> P (name, v)) ->
  Metrics.add_metric requested_metrics name compute kv = Ok kv' ->
  entries P kv'.
Proof.
  intros Hkv HP. unfold Metrics.add_metric.
  destruct (Metrics.wanted name requested_metrics); [|by intros [= <-]].
  destruct compute as [v|]; [|done]. cbn [mbind result_bind]. intros [= <-].
  apply entries_app; [done|done|]. repeat constructor. by apply HP.
Qed.

(** The place of a name in [scorers]. *)
Ltac in_scorers :=
  unfold scorers; cbv zeta;
  repeat first [ apply list_elem_of_here | apply list_elem_of_further ].

Section blocks.

Variable ext : Metrics.externals.
Variable greedy : list string.
Variable texts : list (list string).
Variable lang : string.
Variable requested_metrics : list string.
Variable P : string * Q -> Prop.
Hypothesis Hin :
  forall name c v, (name, c) ∈ scorers ext greedy texts lang -> c = Ok v -> P (name, v).

Lemma add_metric_scored (name : string) (compute : result Q) (kv kv' : list string * list Q) :
  (name, compute) ∈ scorers ext greedy texts lang ->
  entries P kv ->
  Metrics.add_metric requested_metrics name compute kv = Ok kv' ->
  entries P kv'.
Proof.
  intros Hname Hkv. apply add_metric_entries; [done|].
  intros v Hv. by apply (Hin name compute).
Qed.

Lemma rouge_block_entries (kv kv' : list string * list Q) :
  entries P kv ->
  (if Metrics.wanted "avg_rouge" requested_metrics then
     rouge ← Metrics.computeROUGE ext greedy texts;
     r1 ← Metrics.rouge_item rouge "rouge_1_f_score";
     r2 ← Metrics.rouge_item rouge "rouge_2_f_score";
     rl ← Metrics.rouge_item rouge "rouge_l_f_score";
     let avg_rouge := ((r1 + r2 + rl) / 3)%Q in
     r1 ← Metrics.rouge_item rouge "rouge_1_f_score";
     r2 ← Metrics.rouge_item rouge "rouge_2_f_score";
     rl ← Metrics.rouge_item rouge "rouge_l_f_score";
     Ok (kv.1 ++ ["rouge1"; "rouge2"; "rougeL"; "avg_rouge"],
         kv.2 ++ [r1; r2; rl; avg_rouge])
   else Ok kv) = Ok kv' ->
  entries P kv'.
Proof.
  intros Hkv. destruct (Metrics.wanted "avg_rouge" requested_metrics); [|by intros [= <-]].
  destruct (Metrics.computeROUGE ext greedy texts) as [rouge|] eqn:Hrouge; [|done].
  cbn [mbind result_bind].
  destruct (Metrics.rouge_item rouge "rouge_1_f_score") as [r1|] eqn:H1; [|done].
  cbn [mbind result_bind].
  destruct (Metrics.rouge_item rouge "rouge_2_f_score") as [r2|] eqn:H2; [|done].
  cbn [mbind result_bind].
  destruct (Metrics.rouge_item rouge "rouge_l_f_score") as [rl|] eqn:Hl; [|done].
  cbn [mbind result_bind]. intros [= <-].
  apply entries_app; [done|done|].
  repeat (apply Forall_cons; split); [| | | |apply Forall_nil_2].
  - apply (Hin "rouge1" _ r1 ltac:(in_scorers)). by rewrite Hrouge.
  - apply (Hin "rouge2" _ r2 ltac:(in_scorers)). by rewrite Hrouge.
  - apply (Hin "rougeL" _ rl ltac:(in_scorers)). by rewrite Hrouge.
  - apply (Hin "avg_rouge" _ ((r1 + r2 + rl) / 3)%Q ltac:(in_scorers)).
    rewrite Hrouge. cbn [mbind result_bind]. by rewrite H1, H2, Hl.
Qed.

Lemma corpus_block_entries (kv kv' : list string * list Q) :
  entries P kv ->
  (if Metrics.wanted "corpus_f1" requested_metrics then
     '(corpus_f1, precision, recall) ←
       Metrics.computeCF1 (map Metrics.normalize_text greedy)
         (map (map Metrics.normalize_text) texts);
     Ok (kv.1 ++ ["corpus_f1"; "precision"; "recall"], kv.2 ++ [corpus_f1; precision; recall])
   else Ok kv) = Ok kv' ->
  entries P kv'.
Proof.
  intros Hkv. destruct (Metrics.wanted "corpus_f1" requested_metrics); [|by intros [= <-]].
  destruct (Metrics.computeCF1 _ _) as [[[f p] r]|] eqn:Hc; [|done].
  cbn [mbind result_bind]. intros [= <-].
  apply entries_app; [done|done|].
  repeat (apply Forall_cons; split); [| | |apply Forall_nil_2].
  - apply (Hin "corpus_f1" _ f ltac:(in_scorers)). by rewrite Hc.
  - apply (Hin "precision" _ p ltac:(in_scorers)). by rewrite Hc.
  - apply (Hin "recall" _ r ltac:(in_scorers)). by rewrite Hc.
Qed.

End blocks.

Lemma collect_metrics_values (ext : Metrics.externals) (greedy : list string)
    (requested_metrics : list string) (lang : string)
    (metric_keys : list string) (metric_values : list Q) (answer answer' : Metrics.nested)
    (kv : list string * list Q) (P0 : string * Q -> Prop) :
  entries P0 (metric_keys, metric_values) ->
  Metrics.collect_metrics ext greedy requested_metrics lang (metric_keys, metric_values, answer)
  = Ok (kv, answer') ->
  exists texts,
    answer' = Metrics.TextLists texts /\
    entries
      (fun x =>
         P0 x \/
         (x.1, Ok x.2) ∈ scorers ext greedy texts lang \/
         exists joint_goal_em request_em turn_goal_em,
           dialogue_scores greedy answer = Ok (joint_goal_em, request_em, turn_goal_em, texts) /\
           x ∈ [("joint_goal_em", joint_goal_em); ("turn_request_em", request_em);
                ("turn_goal_em", turn_goal_em);
                ("avg_dialogue", ((joint_goal_em + request_em) / 2)%Q)])
      kv.
Proof.
  intros H0. unfold Metrics.collect_metrics.
  repeat match goal with
         | |- (_ ≫= _) = Ok _ -> _ =>
             let E := fresh "E" in
             match goal with
             | |- (?m ≫= _) = _ -> _ => destruct m as [?|] eqn:E; [|done]; cbn [mbind result_bind]
             end
         | |- (let '(_, _) := ?p in _) = Ok _ -> _ => destruct p
         end.
  intros [= <- <-].
  assert (n = Metrics.TextLists a) as ->
    by (destruct n; cbn [Metrics.as_texts] in E0; congruence).
  exists a. split; [done|]. clear E0.
  set (P := fun x : string * Q => _ \/ _).
  assert (forall name c v, (name, c) ∈ scorers ext greedy a lang -> c = Ok v -> P (name, v))
    as Hin.
  { intros name c v Hc ->. right. by left. }
  assert (entries P p) as Hp.
  { destruct H0 as [Hlen HP0]. cbn [fst snd] in Hlen, HP0.
    destruct (Metrics.wanted "joint_goal_em" requested_metrics).
    - fold (dialogue_scores greedy answer) in E.
      destruct (dialogue_scores greedy answer) as [[[[j r] t] ans]|] eqn:Hd; [|done].
      cbn [mbind result_bind] in E. injection E as H1 H2. subst ans p.
      apply (entries_app P (metric_keys, metric_values)); [| done |].
      + split; [done|]. eapply Forall_impl; [exact HP0|]. intros x Hx. by left.
      + apply Forall_forall. intros x Hx. right. right. exists j, r, t. by split.
    - injection E as <- _. split; [done|].
      eapply Forall_impl; [exact HP0|]. intros x Hx. by left. }
  clear E H0.
  assert (entries P (p.1 ++ ["em"], p.2 ++ [a0])) as Hem.
  { apply entries_app; [done|done|]. constructor; [|constructor].
    apply (Hin "em" _ a0 ltac:(in_scorers) E1). }
  clear Hp E1.
  repeat match goal with
         | E : Metrics.add_metric _ ?name ?c ?kv0 = Ok ?kv1, H : entries P ?kv0 |- _ =>
             apply (add_metric_scored ext greedy a lang requested_metrics P Hin name c kv0 kv1
                      ltac:(in_scorers) H) in E; clear H
         | E : (if Metrics.wanted "avg_rouge" _ then _ else Ok ?kv0) = Ok ?kv1,
           H : entries P ?kv0 |- _ =>
             apply (rouge_block_entries ext greedy a lang requested_metrics P Hin kv0 kv1 H) in E;
               clear H
         | E : (if Metrics.wanted "corpus_f1" _ then _ else Ok ?kv0) = Ok ?kv1,
           H : entries P ?kv0 |- _ =>
             apply (corpus_block_entries ext greedy a lang requested_metrics P Hin kv0 kv1 H) in E;
               clear H
         end.
  done.
Qed.

(** The entries that the scorers leave behind, each with the value of its
    name. *)
Lemma compute_scores_values (ext : Metrics.externals) (query : Metrics.Query)
    (greedy : list string) (answer : Metrics.answers) (requested_metrics : list string)
    (lang : string) (h h' : Metrics.heap) (kv : list string * list Q)
    (answer' : Metrics.nested) :
  Metrics.compute_scores ext query greedy answer requested_metrics lang h
  = (Ok (kv, answer'), h') ->
  exists texts,
    answer' = Metrics.TextLists texts /\
    Forall (scored ext query greedy answer requested_metrics lang h h' texts) (zip kv.1 kv.2).
Proof.
  unfold Metrics.compute_scores.
  destruct (Metrics.wrap answer) as [answer0|] eqn:Hw; [|done].
  destruct (Metrics.wanted "lfem" requested_metrics) eqn:Hl.
  - destruct answer0 as [a|a|a]; cbn [Metrics.lfem_block].
    + destruct (Metrics.firsts a); cbn [mbind result_bind]; [|done].
      by destruct (bool_decide _).
    + destruct (Metrics.computeLFEM query greedy a h) as [[[lfem ans]|e] h1] eqn:Hlfem; [|done].
      cbn [mbind result_bind].
      destruct (Metrics.collect_metrics _ _ _ _ _) as [[kv0 a0]|] eqn:Hc; [|done].
      intros [= <- <- <-].
      apply (collect_metrics_values _ _ _ _ _ _ _ _ _ (fun x => x = ("lfem", lfem))) in Hc.
      2:{ split; [done|]. by repeat constructor. }
      destruct Hc as (texts & -> & _ & Hall). exists texts. split; [done|].
      eapply Forall_impl; [exact Hall|]. intros x [->|[Hx|Hx]].
      * right. left. split; [done|]. exists a. split; [done|]. by exists ans.
      * by left.
      * right. right. destruct Hx as (j & r & t & Hd & Hx).
        exists (Metrics.TextLists ans), j, r, t. split; [|done].
        intros Hnot. by apply bool_decide_eq_true in Hl.
    + destruct (Metrics.firsts a); cbn [mbind result_bind]; [|done].
      by destruct (bool_decide _).
  - cbn [mbind result_bind].
    destruct (Metrics.collect_metrics _ _ _ _ _) as [[kv0 a0]|] eqn:Hc; [|done].
    intros [= <- <- <-].
    apply (collect_metrics_values _ _ _ _ _ _ _ _ _ (fun _ => False)) in Hc.
    2:{ split; [done|]. constructor. }
    destruct Hc as (texts & -> & _ & Hall). exists texts. split; [done|].
    eapply Forall_impl; [exact Hall|]. intros x [[]|[Hx|Hx]].
    + by left.
    + right. right. destruct Hx as (j & r & t & Hd & Hx).
      by exists answer0, j, r, t.
Qed.

(** X26. When the scorers have returned, [metric_keys] holds the
    produced names: [em], each requested name that is computed on its own,
    and the members of a group ([turn_request_em], [turn_goal_em],
    [avg_dialogue]; [rouge1], [rouge2], [rougeL]; [precision], [recall])
    when the leading metric of the group ([joint_goal_em]; [avg_rouge];
    [corpus_f1]) is requested.  [compute_metrics] then returns exactly when
    every requested name is produced, and raises [KeyError] otherwise; the
    keys of the dict it returns are the requested names, in the order of the
    request, and each has the score of its own scorer ([scored]): what that
    scorer returns on the predictions and the answers that are returned
    beside the dict.  For requests among the metrics that need no library
    it does return, on non-empty predictions with as many answers. *)
Theorem compute_metrics_requested (ext : Metrics.externals) (query : Metrics.Query)
    (greedy : list string) (answer : Metrics.answers) (requested_metrics : list string)
    (lang : string) (h : Metrics.heap) :
  match Metrics.compute_scores ext query greedy answer requested_metrics lang h with
  | (Raise e, h') =>
      Metrics.compute_metrics ext query greedy answer requested_metrics lang h = (Raise e, h')
  | (Ok (metric_keys, metric_values, answer'), h') =>
      metric_keys = List.filter (produced requested_metrics) metric_names /\
      length metric_values = length metric_keys /\
      if served requested_metrics then
        exists metric_dict texts,
          Metrics.compute_metrics ext query greedy answer requested_metrics lang h
          = (Ok (metric_dict, answer'), h') /\
          answer' = Metrics.TextLists texts /\
          (NoDup requested_metrics -> map fst metric_dict = requested_metrics) /\
          NoDup (map fst metric_dict) /\
          (forall key, key ∈ map fst metric_dict <-> key ∈ requested_metrics) /\
          Forall (fun x => x ∈ zip metric_keys metric_values) metric_dict /\
          Forall (scored ext query greedy answer requested_metrics lang h h' texts) metric_dict
      else
        Metrics.compute_metrics ext query greedy answer requested_metrics lang h
        = (Raise KeyError, h')
  end /\
  (forall texts,
     answer = Metrics.Texts texts -> greedy <> [] -> length texts = length greedy ->
     requested_metrics ⊆ builtin -> served requested_metrics = true ->
     exists metric_dict answer',
       Metrics.compute_metrics ext query greedy answer requested_metrics lang h
       = (Ok (metric_dict, answer'), h) /\
       (NoDup requested_metrics -> map fst metric_dict = requested_metrics)).
Proof.
  assert (match Metrics.compute_scores ext query greedy answer requested_metrics lang h with
          | (Raise e, h') =>
              Metrics.compute_metrics ext query greedy answer requested_metrics lang h
              = (Raise e, h')
          | (Ok (metric_keys, metric_values, answer'), h') =>
              metric_keys = List.filter (produced requested_metrics) metric_names /\
              length metric_values = length metric_keys /\
              if served requested_metrics then
                exists metric_dict texts,
                  Metrics.compute_metrics ext query greedy answer requested_metrics lang h
                  = (Ok (metric_dict, answer'), h') /\
                  answer' = Metrics.TextLists texts /\
                  (NoDup requested_metrics -> map fst metric_dict = requested_metrics) /\
                  NoDup (map fst metric_dict) /\
                  (forall key, key ∈ map fst metric_dict <-> key ∈ requested_metrics) /\
                  Forall (fun x => x ∈ zip metric_keys metric_values) metric_dict /\
                  Forall (scored ext query greedy answer requested_metrics lang h h' texts)
                         metric_dict
              else
                Metrics.compute_metrics ext query greedy answer requested_metrics lang h
                = (Raise KeyError, h')
          end) as Hmain.
  { unfold Metrics.compute_metrics.
    destruct (Metrics.compute_scores ext query greedy answer requested_metrics lang h)
      as [[[[metric_keys metric_values] answer']|e] h'] eqn:Hs; [|done].
    pose proof (compute_scores_values _ _ _ _ _ _ _ _ _ _ Hs) as (texts & Htexts & Hscored).
    apply compute_scores_keys in Hs as [Hk Hv]. cbn [fst snd] in Hk, Hv, Hscored.
    split; [done|]. split; [done|].
    pose proof (select_metrics_spec requested_metrics (metric_keys, metric_values) Hv) as Hsel.
    cbn [fst snd] in Hsel.
    assert (forallb (fun name => bool_decide (name ∈ metric_keys)) requested_metrics
            = served requested_metrics) as Hf by (rewrite Hk; apply served_keys).
    rewrite Hf in Hsel.
    cbn [mbind result_bind].
    destruct (served requested_metrics).
    - destruct Hsel as (metric_dict & -> & Hnd & Hnd' & Hkeys & Hin).
      exists metric_dict, texts. repeat (split; [done|]).
      apply Forall_forall. intros x Hx.
      apply (proj1 (Forall_forall _ _) Hscored). by apply (proj1 (Forall_forall _ _) Hin).
    - by rewrite Hsel. }
  split; [exact Hmain|].
  intros texts -> Hg Hlen Hsub Hserved.
  destruct (compute_scores_builtin ext query greedy texts requested_metrics lang h Hsub Hg Hlen)
    as [[[metric_keys metric_values] answer'] Hs].
  rewrite Hs, Hserved in Hmain.
  destruct Hmain as (_ & _ & metric_dict & texts' & Hm & _ & Hnd & _).
  by exists metric_dict, answer'.
Qed.

Lemma compute_metrics_requested_witness :
  exists metric_dict answer',
    Metrics.compute_metrics no_externals wikisql ["x y"; "z"] (Metrics.Texts ["x y"; "w"])
      ["precision"; "em"; "corpus_f1"; "f1"] "en"
      {| Metrics.sqls := ∅; Metrics.cond_lists := ∅ |}
    = (Ok (metric_dict, answer'), {| Metrics.sqls := ∅; Metrics.cond_lists := ∅ |}) /\
    (NoDup ["precision"; "em"; "corpus_f1"; "f1"] ->
     map fst metric_dict = ["precision"; "em"; "corpus_f1"; "f1"]).
Proof.
  apply (proj2 (compute_metrics_requested no_externals wikisql ["x y"; "z"]
                  (Metrics.Texts ["x y"; "w"]) ["precision"; "em"; "corpus_f1"; "f1"] "en"
                  {| Metrics.sqls := ∅; Metrics.cond_lists := ∅ |}) ["x y"; "w"]).
  - reflexivity.
  - done.
  - reflexivity.
  - intros name Hname. apply (bool_decide_unpack _). revert name Hname.
    apply Forall_forall. repeat constructor.
  - vm_compute. reflexivity.
Defined.

(** The same request, evaluated: every name has the score of its own
    scorer. *)
Example compute_metrics_four_scores :
  Metrics.compute_metrics no_externals wikisql ["x y"; "z"] (Metrics.Texts ["x y"; "w"])
    ["precision"; "em"; "corpus_f1"; "f1"] "en"
    {| Metrics.sqls := ∅; Metrics.cond_lists := ∅ |}
  = (Ok ([("precision", (100 # 2)%Q); ("em", (100 # 2)%Q);
          ("corpus_f1", (800 # 16)%Q); ("f1", (3200 # 64)%Q)],
         Metrics.TextLists [["x y"]; ["w"]]),
     {| Metrics.sqls := ∅; Metrics.cond_lists := ∅ |}).
Proof. vm_compute. reflexivity. Qed.

(** ** What the scorers write into their arguments *)

(** The only change a call may make: a condition list of a gold SQL query
    has its value replaced by the lowercased text of that value. *)
Definition lowered_only (h h' : Metrics.heap) : Prop :=
  Metrics.sqls h' = Metrics.sqls h /\
  forall c,
    Metrics.cond_lists h' !! c = Metrics.cond_lists h !! c \/
    exists lc lc', Metrics.cond_lists h !! c = Some lc /\ lowered lc = Some lc' /\
                   Metrics.cond_lists h' !! c = Some lc'.

Lemma lowered_only_refl (h : Metrics.heap) : lowered_only h h.
Proof. split; [done|]. intros c. by left. Qed.

Lemma lowered_only_trans (h0 h1 h2 : Metrics.heap) :
  lowered_only h0 h1 -> lowered_only h1 h2 -> lowered_only h0 h2.
Proof.
  intros [Hs1 Hc1] [Hs2 Hc2]. split; [congruence|]. intros c.
  destruct (Hc2 c) as [H2|(lc1 & lc2 & H1 & Hl & H2)].
  - rewrite H2. apply Hc1.
  - destruct (Hc1 c) as [H1'|(lc & lc' & H0 & Hl' & H1')].
    + right. exists lc1, lc2. by rewrite <- H1'.
    + right. exists lc, lc'. split; [done|]. split; [done|].
      assert (lc' = lc1) as -> by congruence.
      apply lowered_idem in Hl'. congruence.
Qed.

Lemma lower_cond_lowered_only (h : Metrics.heap) (c : positive) :
  lowered_only h (Metrics.lower_cond h c).2.
Proof.
  unfold Metrics.lower_cond.
  destruct (Metrics.cond_lists h !! c) as [lc|] eqn:Hc; [|apply lowered_only_refl].
  destruct (lc !! 2%nat) as [v|] eqn:Hv; [|apply lowered_only_refl].
  split; [done|]. intros c'. simpl.
  destruct (decide (c = c')) as [<-|Hne].
  - right. exists lc, (<[2%nat := Metrics.VStr (Str.lower (Metrics.str v))]> lc).
    split; [done|]. split; [by unfold lowered; rewrite Hv|]. by rewrite lookup_insert_eq.
  - left. by rewrite lookup_insert_ne.
Qed.

Lemma lower_conds_lowered_only (conds : list positive) (h : Metrics.heap) :
  lowered_only h (Metrics.lower_conds h conds).2.
Proof.
  revert h. induction conds as [|c conds IH]; intros h; [apply lowered_only_refl|].
  simpl. pose proof (lower_cond_lowered_only h c) as Hc.
  destruct (Metrics.lower_cond h c) as [[[]|e] h1]; simpl in Hc; [|done].
  by apply (lowered_only_trans h h1), IH.
Qed.

Lemma lfem_try_lowered_only (query : Metrics.Query) (g : string) (ex : Metrics.example)
    (h : Metrics.heap) :
  lowered_only h (Metrics.lfem_try query g ex h).2.
Proof.
  unfold Metrics.lfem_try.
  destruct (Metrics.to_lf query g (Metrics.ex_table_header ex)); [|apply lowered_only_refl].
  destruct (Metrics.sqls h !! Metrics.ex_sql ex) as [gt|] eqn:Hgt; [|apply lowered_only_refl].
  pose proof (lower_conds_lowered_only (Metrics.sql_conds gt) h) as Hc.
  destruct (Metrics.lower_conds h (Metrics.sql_conds gt)) as [[[]|e] h1]; simpl in *; [|done].
  destruct Hc as [Hs Hc]. split; [|done]. simpl. rewrite Hs.
  apply insert_id. rewrite Hgt. by destruct gt.
Qed.

Lemma lfem_loop_lowered_only (query : Metrics.Query)
    (pairs : list (string * Metrics.example))
    (st : Z * Z * list (list string) * Metrics.heap) :
  lowered_only st.2 (fold_left (Metrics.lfem_step query) pairs st).2.
Proof.
  revert st. induction pairs as [|[g ex] pairs IH]; intros st; [apply lowered_only_refl|].
  simpl. eapply lowered_only_trans; [|apply IH].
  destruct st as [[[count correct] text_answers] h]. simpl.
  pose proof (lfem_try_lowered_only query g ex h) as Ht.
  by destruct (Metrics.lfem_try query g ex h) as [[b|e] h1].
Qed.

Lemma computeLFEM_lowered_only (query : Metrics.Query) (greedy : list string)
    (answer : list (list Metrics.example)) (h : Metrics.heap) :
  lowered_only h (Metrics.computeLFEM query greedy answer h).2.
Proof.
  unfold Metrics.computeLFEM.
  destruct (traverse _ answer) as [exs|]; [|apply lowered_only_refl].
  pose proof (lfem_loop_lowered_only query (zip greedy exs) (0, 0, [], h)) as Hl.
  destruct (fold_left _ _ _) as [[[count correct] text_answers] h1]. simpl in Hl.
  by destruct (truediv correct count).
Qed.

Lemma lfem_block_lowered_only (query : Metrics.Query) (greedy : list string)
    (answer : Metrics.nested) (h : Metrics.heap) :
  lowered_only h (Metrics.lfem_block query greedy answer h).2.
Proof.
  destruct answer as [a|a|a]; simpl; try apply lowered_only_refl.
  pose proof (computeLFEM_lowered_only query greedy a h) as Hl.
  by destruct (Metrics.computeLFEM query greedy a h) as [[[lfem ans]|e] h1].
Qed.

(** C4 (as amended). A call of [compute_metrics] that does not request
    [lfem] leaves the heap as it is; a call that does changes nothing but
    the condition lists of the gold SQL queries, whose value is replaced by
    its lowercased text. *)
Theorem compute_metrics_frame (ext : Metrics.externals) (query : Metrics.Query)
    (greedy : list string) (answer : Metrics.answers) (requested_metrics : list string)
    (lang : string) (h : Metrics.heap) :
  let h' := (Metrics.compute_metrics ext query greedy answer requested_metrics lang h).2 in
  ("lfem" ∉ requested_metrics -> h' = h) /\ lowered_only h h'.
Proof.
  unfold Metrics.compute_metrics, Metrics.compute_scores.
  destruct (Metrics.wrap answer) as [answer'|e].
  2:{ split; [done|apply lowered_only_refl]. }
  unfold Metrics.wanted. destruct (decide ("lfem" ∈ requested_metrics)) as [Hin|Hnot].
  - rewrite bool_decide_eq_true_2 by done.
    pose proof (lfem_block_lowered_only query greedy answer' h) as Hl.
    destruct (Metrics.lfem_block query greedy answer' h) as [st h1]. simpl in *.
    split; [done|exact Hl].
  - rewrite bool_decide_eq_false_2 by done. simpl.
    split; [done|apply lowered_only_refl].
Qed.

Lemma compute_metrics_frame_witness :
  (Metrics.compute_metrics no_externals wikisql people_greedy
     (Metrics.Lists (Metrics.Records [[people_record]; [people_record]]))
     ["em"] "en" people_heap).2 = people_heap.
Proof.
  apply (proj1 (compute_metrics_frame no_externals wikisql people_greedy
                  (Metrics.Lists (Metrics.Records [[people_record]; [people_record]]))
                  ["em"] "en" people_heap)).
  apply (bool_decide_unpack _). vm_compute. exact I.
Defined.

(** C4 (counterexample). With [lfem] requested the gold condition
    [[1, 1, 30]] of the record is [[1, 1, '30']] after the call. *)
Lemma compute_metrics_frame_counterexample :
  let h' := (Metrics.compute_metrics no_externals wikisql people_greedy
               (Metrics.Lists (Metrics.Records [[people_record]; [people_record]]))
               ["lfem"] "en" people_heap).2 in
  Metrics.cond_lists people_heap !! 2%positive
    = Some [Metrics.VInt 1; Metrics.VInt 1; Metrics.VInt 30] /\
  Metrics.cond_lists h' !! 2%positive
    = Some [Metrics.VInt 1; Metrics.VInt 1; Metrics.VStr "30"] /\
  h' <> people_heap.
Proof.
  split; [reflexivity|]. split; [vm_compute; reflexivity|].
  intros H. apply (f_equal (fun h => Metrics.cond_lists h !! 2%positive)) in H.
  vm_compute in H. discriminate H.
Qed.

(** ** The alias trie *)

Lemma find_child_set_child (c c' : ascii) (t : Ned.trie) (cs : list (ascii * Ned.trie)) :
  Ned.find_child c (Ned.set_child c' t cs)
  = if Ascii.eqb c c' then Some t else Ned.find_child c cs.
Proof.
  induction cs as [|[c0 t0] cs IH]; simpl.
  - by destruct (Ascii.eqb c c').
  - destruct (Ascii.eqb c' c0) eqn:E0; simpl.
    + apply Ascii.eqb_eq in E0 as <-. by destruct (Ascii.eqb c c').
    + rewrite IH. destruct (Ascii.eqb c c0) eqn:E1; [|done].
      apply Ascii.eqb_eq in E1 as ->.
      destruct (Ascii.eqb c0 c') eqn:E2; [|done].
      apply Ascii.eqb_eq in E2 as ->. by rewrite Ascii.eqb_refl in E0.
Qed.

Lemma member_empty (s : string) : Ned.member s Ned.empty = false.
Proof. by destruct s. Qed.

(** A key is in the trie after an insertion when it is the inserted key or
    was in the trie before. *)
Lemma member_insert (key s : string) (t : Ned.trie) :
  Ned.member s (Ned.insert key t) = bool_decide (s = key) || Ned.member s t.
Proof.
  revert s t. induction key as [|c r IH]; intros s t.
  - destruct s as [|c' r']; [done|]. by destruct t.
  - destruct s as [|c' r']; [by destruct t|].
    cbn [Ned.insert Ned.member Ned.children].
    rewrite find_child_set_child.
    destruct (Ascii.eqb c' c) eqn:E.
    + apply Ascii.eqb_eq in E as ->. rewrite IH.
      destruct (Ned.find_child c (Ned.children t)) as [t'|]; simpl.
      * f_equal. apply bool_decide_ext. split; congruence.
      * rewrite member_empty, !orb_false_r.
        apply bool_decide_ext. split; congruence.
    + rewrite bool_decide_eq_false_2; [done|].
      intros [= -> _]. by rewrite Ascii.eqb_refl in E.
Qed.

Lemma member_inserts (keys : list string) (s : string) (t : Ned.trie) :
  Ned.member s (fold_left (fun t key => Ned.insert key t) keys t)
  = bool_decide (s ∈ keys) || Ned.member s t.
Proof.
  revert t. induction keys as [|k keys IH]; intros t; simpl; [done|].
  rewrite IH, member_insert, orb_assoc. f_equal.
  destruct (decide (s = k)) as [->|Hne].
  - rewrite (bool_decide_eq_true_2 (k = k)) by done. rewrite orb_true_r.
    symmetry. apply bool_decide_eq_true. by left.
  - rewrite (bool_decide_eq_false_2 (s = k)) by done. rewrite orb_false_r.
    apply bool_decide_ext. rewrite elem_of_cons.
    split; [by right | by intros [?|?]].
Qed.

Lemma member_Trie (keys : list string) (s : string) :
  Ned.member s (Ned.Trie keys) = true <-> s ∈ keys.
Proof.
  unfold Ned.Trie. rewrite member_inserts, member_empty, orb_false_r.
  apply bool_decide_eq_true.
Qed.

Lemma elem_of_dict_keys (d : gmap string string) (s : string) :
  s ∈ map fst (map_to_list d) <-> is_Some (d !! s).
Proof.
  rewrite list_elem_of_fmap. split.
  - intros ([k v] & -> & Hin). apply elem_of_map_to_list in Hin. by exists v.
  - intros [v Hv]. exists (s, v). split; [done|]. by apply elem_of_map_to_list.
Qed.

(** C7. A string is in the trie [all_aliases] that the constructors of
    [NaiveEntityDisambiguator] and [EntityOracleEntityDisambiguator] build
    exactly when it is a key of the dict [alias2type] they have read. *)
Theorem all_aliases_refines_alias2type (base : Ned.disambiguator)
    (loaded : gmap string string) (s : string) :
  (Ned.member s (Ned.all_aliases (Ned.NaiveEntityDisambiguator base loaded)) = true
   <-> is_Some (Ned.alias2type (Ned.NaiveEntityDisambiguator base loaded) !! s)) /\
  (Ned.member s (Ned.all_aliases (Ned.EntityOracleEntityDisambiguator base loaded)) = true
   <-> is_Some (Ned.alias2type (Ned.EntityOracleEntityDisambiguator base loaded) !! s)).
Proof.
  split; simpl; by rewrite member_Trie, elem_of_dict_keys.
Qed.

(** The keys listed below a node are keys of the trie. *)
Lemma keys_of_child (c : ascii) (t' : Ned.trie) (cs : list (ascii * Ned.trie)) (y : string) :
  Ned.find_child c cs = Some t' -> y ∈ Ned.keys_of t' ->
  String c y ∈ flat_map (fun '(c, t') => map (String c) (Ned.keys_of t')) cs.
Proof.
  induction cs as [|[c0 t0] cs IH]; simpl; [done|].
  destruct (Ascii.eqb c c0) eqn:E.
  - apply Ascii.eqb_eq in E as ->. intros [= ->] Hy.
    apply elem_of_app. left. by apply list_elem_of_fmap_2.
  - intros Hf Hy. apply elem_of_app. right. by apply IH.
Qed.

Lemma keys_of_set_child (c : ascii) (t' : Ned.trie) (cs : list (ascii * Ned.trie)) (x : string) :
  x ∈ flat_map (fun '(c, t') => map (String c) (Ned.keys_of t')) (Ned.set_child c t' cs) ->
  x ∈ map (String c) (Ned.keys_of t') \/
  x ∈ flat_map (fun '(c, t') => map (String c) (Ned.keys_of t')) cs.
Proof.
  induction cs as [|[c0 t0] cs IH]; simpl.
  - rewrite app_nil_r. by left.
  - destruct (Ascii.eqb c c0); simpl.
    + intros [H|H]%elem_of_app; [by left|]. right. apply elem_of_app. by right.
    + intros [H|H]%elem_of_app.
      * right. apply elem_of_app. by left.
      * destruct (IH H) as [?|?]; [by left|]. right. apply elem_of_app. by right.
Qed.

Lemma keys_of_unfold (t : Ned.trie) :
  Ned.keys_of t
  = (if Ned.final t then [""] else [])
    ++ flat_map (fun '(c, t') => map (String c) (Ned.keys_of t')) (Ned.children t).
Proof. by destruct t. Qed.

Lemma keys_of_insert (key x : string) (t : Ned.trie) :
  x ∈ Ned.keys_of (Ned.insert key t) -> x = key \/ x ∈ Ned.keys_of t.
Proof.
  revert x t. induction key as [|c r IH]; intros x t.
  - rewrite (keys_of_unfold t). cbn [Ned.insert Ned.keys_of].
    intros [H|H]%elem_of_app.
    + left. by apply list_elem_of_singleton in H.
    + right. apply elem_of_app. by right.
  - rewrite (keys_of_unfold t). cbn [Ned.insert Ned.keys_of].
    intros [H|H]%elem_of_app.
    + right. apply elem_of_app. by left.
    + apply keys_of_set_child in H as [H|H].
      * apply list_elem_of_fmap in H as (y & -> & Hy).
        apply IH in Hy as [->|Hy]; [by left|]. right.
        apply elem_of_app. right.
        destruct (Ned.find_child c (Ned.children t)) as [t'|] eqn:E; simpl in Hy.
        -- by apply (keys_of_child c t').
        -- by apply elem_of_nil in Hy.
      * right. apply elem_of_app. by right.
Qed.

Lemma keys_of_Trie (keys : list string) (x : string) :
  x ∈ Ned.keys_of (Ned.Trie keys) -> x ∈ keys.
Proof.
  unfold Ned.Trie.
  assert (forall t, x ∈ Ned.keys_of (fold_left (fun t key => Ned.insert key t) keys t) ->
                    x ∈ keys \/ x ∈ Ned.keys_of t) as H.
  { induction keys as [|k keys IH]; intros t; simpl; [by right|].
    intros [Hx|Hx]%IH; [left; by right|].
    apply keys_of_insert in Hx as [->|Hx]; [left; by left|by right]. }
  intros [Hx|Hx]%H; [done|]. by apply elem_of_nil in Hx.
Qed.

Lemma keys_of_subtrie (prefix y : string) (t t' : Ned.trie) :
  Ned.subtrie prefix t = Some t' -> y ∈ Ned.keys_of t' ->
  String.append prefix y ∈ Ned.keys_of t.
Proof.
  revert t. induction prefix as [|c r IH]; intros t; simpl.
  - by intros [= ->].
  - destruct (Ned.find_child c (Ned.children t)) as [t0|] eqn:E; [|done].
    intros Hsub Hy. rewrite (keys_of_unfold t). apply elem_of_app. right.
    apply (keys_of_child c t0); [done|]. by apply IH.
Qed.

(** [trie.keys(prefix)] only lists keys the trie was built from. *)
Lemma keys_Trie (keys : list string) (prefix x : string) :
  x ∈ Ned.keys (Ned.Trie keys) prefix -> x ∈ keys.
Proof.
  unfold Ned.keys.
  destruct (Ned.subtrie prefix (Ned.Trie keys)) as [t'|] eqn:E.
  - intros (y & -> & Hy)%list_elem_of_fmap.
    apply keys_of_Trie. by apply (keys_of_subtrie prefix y _ t').
  - by intros ?%elem_of_nil.
Qed.

(** ** The n-gram scan *)

Section scan.

Variable self : Ned.disambiguator.
Variable env : Ned.helpers.
Variable tokens : list string.

(** Two token spans [start, end) overlap. *)
Definition span_overlap (a b : Z * Z * Z) : Prop :=
  a.1.2 < b.2 /\ b.1.2 < a.2.

Definition span_len (a : Z * Z * Z) : Z := a.2 - a.1.2.

(** The tokens tagged as verbs. *)
Definition verbs_of : list string :=
  map fst (List.filter (fun x : string * string => Str.startswith "V" x.2)
                       (Ned.pos_tag env tokens)).

(** The normalised text of the [n] tokens from position [k]. *)
Definition gram_text (k n : Z) : string :=
  Ned.normalize_text env
    (Str.join " " (Ned.slice tokens (Z.to_nat k) (Z.to_nat (k + n)))).

(** The text may be recorded: not banned, not a verb, an alias. *)
Definition qualifies (text : string) : Prop :=
  Ned.is_banned env text = false /\ (text ∉ verbs_of) /\
  Ned.member text (Ned.all_aliases self) = true.

(** A recorded match [[type, start, end]] for lengths between [lo] and [hi]. *)
Definition recorded_ok (lo hi : Z) (a : Z * Z * Z) : Prop :=
  0 <= a.1.2 /\ a.2 <= len tokens /\ 1 <= span_len a /\ lo <= span_len a <= hi /\
  qualifies (gram_text a.1.2 (span_len a)) /\
  exists type, Ned.alias2type self !! gram_text a.1.2 (span_len a) = Some type /\
               a.1.1 = default (Ned.unk_id self) (Ned.typeqid2id self !! type).

(** The [n]-gram at [k] is recorded, or a recorded match that is at least
    as long overlaps it. *)
Definition covered (used : list (Z * Z * Z)) (k n : Z) : Prop :=
  exists a, a ∈ used /\ n <= span_len a /\
            ((a.1.2 = k /\ a.2 = k + n) \/ span_overlap (0, k, k + n) a).

Definition disjoint (a b : Z * Z * Z) : Prop := ~ span_overlap a b.

Definition not_longer (a b : Z * Z * Z) : Prop := span_len b <= span_len a.

Lemma ForallOrdPairs_snoc {A} (R : A -> A -> Prop) (l : list A) (a : A) :
  ForallOrdPairs R l -> Forall (fun b => R b a) l -> ForallOrdPairs R (l ++ [a]).
Proof.
  induction 1 as [|b l Hb Hl IH]; intros Ha; simpl.
  - repeat constructor.
  - inversion Ha as [|? ? Hba Ha']; subst. constructor.
    + apply Forall_app. split; [done|]. by constructor.
    + by apply IH.
Qed.

Lemma has_overlap_false (start end_ : Z) (used : list (Z * Z * Z)) :
  Ned.has_overlap start end_ used = false ->
  Forall (fun b => disjoint b (0, start, end_)) used.
Proof.
  unfold Ned.has_overlap. induction used as [|[[t s] e] used IH]; simpl; [done|].
  intros [H1 H2]%orb_false_iff. constructor; [|by apply IH].
  unfold disjoint, span_overlap. simpl. lia.
Qed.

Lemma has_overlap_true (start end_ : Z) (used : list (Z * Z * Z)) :
  Ned.has_overlap start end_ used = true ->
  exists a, a ∈ used /\ span_overlap (0, start, end_) a.
Proof.
  unfold Ned.has_overlap. induction used as [|[[t s] e] used IH]; simpl; [done|].
  intros [H|H]%orb_true_iff.
  - exists (t, s, e). split; [by left|]. unfold span_overlap. simpl. lia.
  - destruct (IH H) as (a & Ha & Hov). exists a. split; [by right|done].
Qed.

Lemma covered_mono (used used' : list (Z * Z * Z)) (k n : Z) :
  used ⊆ used' -> covered used k n -> covered used' k n.
Proof. intros Hsub (a & Ha & H). exists a. split; [by apply Hsub|done]. Qed.

(** What holds while the grams of length [n] are read, before the gram at
    position [k]. *)
Record scan_inv (lo hi n : Z) (k : Z) (used : list (Z * Z * Z)) : Prop := {
  inv_recorded : Forall (recorded_ok lo hi) used;
  inv_disjoint : ForallOrdPairs disjoint used;
  inv_order : ForallOrdPairs not_longer used;
  inv_long : Forall (fun a => n <= span_len a) used;
  inv_covered : forall n' k',
    n < n' \/ (n' = n /\ k' < k) ->
    lo <= n' <= hi -> 1 <= n' -> 0 <= k' -> k' + n' <= len tokens ->
    qualifies (gram_text k' n') -> covered used k' n'
}.

(** Every alias of the trie has a type in [alias2type]. *)
Definition aliases_typed : Prop :=
  forall s, Ned.member s (Ned.all_aliases self) = true -> is_Some (Ned.alias2type self !! s).

(** One gram. *)
Lemma scan_gram_inv (lo hi : Z) (n k : nat) (used : list (Z * Z * Z)) :
  (1 <= n)%nat -> lo <= Z.of_nat n <= hi -> (k + n <= length tokens)%nat ->
  scan_inv lo hi (Z.of_nat n) (Z.of_nat k) used ->
  match Ned.scan_gram self env verbs_of
          (Z.of_nat k - 1, Z.of_nat n + Z.of_nat k - 1, used)
          (List.firstn n (List.skipn k tokens)) with
  | Ok st =>
      st.1 = (Z.of_nat k, Z.of_nat n + Z.of_nat k) /\
      scan_inv lo hi (Z.of_nat n) (Z.of_nat k + 1) st.2
  | Raise _ => ~ aliases_typed
  end.
Proof.
  intros Hn Hrange Hk [Hrec Hdis Hord Hlong Hcov]. unfold Ned.scan_gram.
  replace (Z.of_nat k - 1 + 1) with (Z.of_nat k) by lia.
  replace (Z.of_nat n + Z.of_nat k - 1 + 1) with (Z.of_nat n + Z.of_nat k) by lia.
  assert (Ned.normalize_text env (Str.join " " (List.firstn n (List.skipn k tokens)))
          = gram_text (Z.of_nat k) (Z.of_nat n)) as ->.
  { unfold gram_text, Ned.slice. do 3 f_equal. lia. by rewrite Nat2Z.id. }
  set (text := gram_text (Z.of_nat k) (Z.of_nat n)).
  (* the grams before this one stay covered when [used] grows *)
  assert (forall used', used ⊆ used' ->
            (qualifies text -> covered used' (Z.of_nat k) (Z.of_nat n)) ->
            forall n' k',
              Z.of_nat n < n' \/ (n' = Z.of_nat n /\ k' < Z.of_nat k + 1) ->
              lo <= n' <= hi -> 1 <= n' -> 0 <= k' -> k' + n' <= len tokens ->
              qualifies (gram_text k' n') -> covered used' k' n') as Hcov'.
  { intros used' Hsub Hhere n' k' Hlt H1 H2 H3 H4 Hq.
    destruct (decide (n' = Z.of_nat n /\ k' = Z.of_nat k)) as [[-> ->]|Hne].
    - by apply Hhere.
    - apply (covered_mono used); [done|]. apply Hcov; try done. lia. }
  destruct (negb (Ned.is_banned env text) && negb (bool_decide (text ∈ verbs_of))
            && Ned.member text (Ned.all_aliases self)) eqn:Htest.
  2:{ split; [done|]. split; try done.
      apply Hcov'; [done|]. intros (Hb & Hv & Hm). exfalso.
      rewrite Hb, Hm, bool_decide_eq_false_2 in Htest by done. done. }
  apply andb_true_iff in Htest as [[Hb Hv]%andb_true_iff Hm].
  apply negb_true_iff in Hb. apply negb_true_iff, bool_decide_eq_false in Hv.
  destruct (Ned.has_overlap (Z.of_nat k) (Z.of_nat n + Z.of_nat k) used) eqn:Hov.
  - split; [done|]. split; try done.
    apply Hcov'; [done|]. intros _.
    apply has_overlap_true in Hov as (a & Ha & Hov). exists a. split; [done|].
    split; [by apply (proj1 (Forall_forall _ _) Hlong)|]. right.
    by replace (Z.of_nat k + Z.of_nat n) with (Z.of_nat n + Z.of_nat k) by lia.
  - unfold getitem.
    destruct (Ned.alias2type self !! text) as [type|] eqn:Htype.
    2:{ simpl. intros Htyped. destruct (Htyped text Hm) as [type Htype']. congruence. }
    simpl.
    set (a := (default (Ned.unk_id self) (Ned.typeqid2id self !! type),
               Z.of_nat k, Z.of_nat n + Z.of_nat k)).
    assert (span_len a = Z.of_nat n) as Hlen by (unfold span_len, a; simpl; lia).
    split; [done|]. split.
    + apply Forall_app. split; [done|]. constructor; [|done].
      unfold recorded_ok. rewrite Hlen. unfold a at 1 2 3 4. simpl.
      split; [lia|]. split; [unfold len; lia|]. split; [lia|]. split; [lia|].
      split; [done|]. by exists type.
    + apply ForallOrdPairs_snoc; [done|].
      apply has_overlap_false in Hov. eapply Forall_impl; [exact Hov|].
      intros b Hb'. unfold disjoint, span_overlap in *. simpl in *. lia.
    + apply ForallOrdPairs_snoc; [done|].
      eapply Forall_impl; [exact Hlong|]. intros b Hb'. simpl in Hb'.
      unfold not_longer. rewrite Hlen. lia.
    + apply Forall_app. split; [done|]. constructor; [rewrite Hlen; lia|done].
    + apply Hcov'; [intros x Hx; apply elem_of_app; by left|]. intros _. exists a.
      split; [apply elem_of_app; right; by constructor|].
      split; [rewrite Hlen; lia|]. left. unfold a. simpl. lia.
Qed.

(** The grams of one length, from position [k] on. *)
Lemma scan_windows_inv (lo hi : Z) (n : nat) (rest : list string) (k : nat)
    (used : list (Z * Z * Z)) :
  (1 <= n)%nat -> lo <= Z.of_nat n <= hi ->
  List.skipn k tokens = rest -> (k <= length tokens)%nat ->
  scan_inv lo hi (Z.of_nat n) (Z.of_nat k) used ->
  match fold_result (Ned.scan_gram self env verbs_of) (Ned.windows n rest)
          (Z.of_nat k - 1, Z.of_nat n + Z.of_nat k - 1, used) with
  | Ok st => forall k', scan_inv lo hi (Z.of_nat n) k' st.2
  | Raise _ => ~ aliases_typed
  end.
Proof.
  intros Hn Hrange. revert k used.
  induction rest as [|t rest IH]; intros k used Hrest Hk Hinv.
  - simpl. intros k'.
    destruct Hinv as [Hrec Hdis Hord Hlong Hcov]. split; try done.
    intros n' k'' Hlt H1 H2 H3 H4 Hq. apply Hcov; try done.
    assert (length (List.skipn k tokens) = 0%nat) as Hlen by (by rewrite Hrest).
    rewrite length_skipn in Hlen. unfold len in H4. lia.
  - assert (length (t :: rest) = (length tokens - k)%nat) as Hlen
      by (by rewrite <- Hrest, length_skipn).
    change (Ned.windows n (t :: rest)) with
      (if (n <=? length (t :: rest))%nat
       then List.firstn n (t :: rest) :: Ned.windows n rest else []).
    destruct (Nat.leb_spec n (length (t :: rest))) as [Hle|Hgt].
    + cbn [fold_result]. rewrite <- Hrest.
      pose proof (scan_gram_inv lo hi n k used Hn Hrange ltac:(lia) Hinv) as Hstep.
      destruct (Ned.scan_gram self env verbs_of _ _) as [[[s e] used']|err]; [|done].
      destruct Hstep as [[= -> ->] Hinv']. simpl in Hinv'.
      specialize (IH (S k) used').
      replace (Z.of_nat (S k) - 1) with (Z.of_nat k) in IH by lia.
      replace (Z.of_nat n + Z.of_nat (S k) - 1) with (Z.of_nat n + Z.of_nat k) in IH by lia.
      apply IH.
      * replace (S k) with (k + 1)%nat by lia.
        rewrite <- drop_drop. by rewrite Hrest.
      * simpl in Hlen. lia.
      * by replace (Z.of_nat (S k)) with (Z.of_nat k + 1) by lia.
    + simpl. intros k'.
      destruct Hinv as [Hrec Hdis Hord Hlong Hcov]. split; try done.
      intros n' k'' Hlt H1 H2 H3 H4 Hq. apply Hcov; try done.
      unfold len in H4. lia.
Qed.

(** The lengths from [h] downwards. *)
Lemma scan_lengths_inv (lo hi : Z) (count : nat) (h : Z) (used : list (Z * Z * Z)) :
  lo <= h - Z.of_nat count + 1 -> h <= hi ->
  (forall k, scan_inv lo hi (h + 1) k used) ->
  match fold_result (Ned.scan_length self env tokens verbs_of) (Ned.countdown h count) used with
  | Ok used' => forall k, scan_inv lo hi (h - Z.of_nat count + 1) k used'
  | Raise _ => ~ (0 <= lo /\ aliases_typed)
  end.
Proof.
  revert h used. induction count as [|count IH]; intros h used Hlow Hhi Hinv.
  - simpl. by replace (h - Z.of_nat 0 + 1) with (h + 1) by lia.
  - cbn [Ned.countdown fold_result].
    assert (forall k, (1 <= h -> k = 0) -> scan_inv lo hi h k used) as Hinv0.
    { intros k Hk0. destruct (Hinv 0) as [Hrec Hdis Hord Hlong Hcov]. split; try done.
      - eapply Forall_impl; [exact Hlong|]. simpl. intros; lia.
      - intros n' k' Hlt H1 H2 H3 H4 Hq.
        destruct (Hinv (k' + 1)) as [_ _ _ _ Hcov'].
        apply Hcov'; try done. lia. }
    assert (match Ned.scan_length self env tokens verbs_of used h with
            | Ok used1 => forall k, scan_inv lo hi h k used1
            | Raise _ => ~ (0 <= lo /\ aliases_typed)
            end) as Hstep.
    { unfold Ned.scan_length, Ned.ngrams.
      destruct (Z.ltb_spec h 0) as [Hneg|Hpos]; [simpl; lia|].
      destruct (Z.eqb_spec h 0) as [Hz|Hnz].
      - simpl. intros k. apply Hinv0. lia.
      - pose proof (scan_windows_inv lo hi (Z.to_nat h) tokens 0 used) as Hwin.
        rewrite Z2Nat.id in Hwin by lia.
        replace (Z.of_nat 0 - 1) with (-1) in Hwin by lia.
        replace (h + Z.of_nat 0 - 1) with (h - 1) in Hwin by lia.
        unfold mbind, result_bind.
        destruct (fold_result _ _ _) as [st|err].
        + apply Hwin; try done; try lia. by apply Hinv0.
        + intros [_ Htyped]. revert Htyped. apply Hwin; try done; try lia. by apply Hinv0. }
    destruct (Ned.scan_length self env tokens verbs_of used h) as [used1|err]; [|done].
    specialize (IH (h - 1) used1).
    replace (h - Z.of_nat (S count) + 1) with (h - 1 - Z.of_nat count + 1) by lia.
    apply IH; [lia|lia|]. intros k. by replace (h - 1 + 1) with h by lia.
Qed.

(** The matches that the scan records. *)
Lemma scan_ngrams_spec (min_entity_len max_entity_len : Z) :
  let lo := Z.min min_entity_len (len tokens) in
  let hi := Z.min max_entity_len (len tokens) in
  match Ned.scan_ngrams self env tokens min_entity_len max_entity_len with
  | Ok used =>
      Forall (recorded_ok lo hi) used /\
      ForallOrdPairs disjoint used /\
      ForallOrdPairs not_longer used /\
      (forall n k, lo <= n <= hi -> 1 <= n -> 0 <= k -> k + n <= len tokens ->
                   qualifies (gram_text k n) -> covered used k n)
  | Raise _ => ~ (0 <= min_entity_len /\ aliases_typed)
  end.
Proof.
  intros lo hi. unfold Ned.scan_ngrams. fold verbs_of. fold lo hi.
  unfold Ned.range_down.
  destruct (Z_lt_le_dec hi lo) as [Hlt|Hle].
  - replace (Z.to_nat (hi - lo + 1)) with 0%nat by lia. simpl.
    split; [done|]. split; [constructor|]. split; [constructor|].
    intros n k Hn. lia.
  - pose proof (scan_lengths_inv lo hi (Z.to_nat (hi - lo + 1)) hi []) as Hscan.
    destruct (fold_result _ _ _) as [used|err].
    + assert (forall k, scan_inv lo hi lo k used) as Hinv.
      { intros k. replace lo with (hi - Z.of_nat (Z.to_nat (hi - lo + 1)) + 1) at 2 by lia.
        apply Hscan; [lia|lia|]. intros k0. split; try constructor.
        intros n' k' Hlt' Hn. lia. }
      destruct (Hinv 0) as [Hrec Hdis Hord _ _]. split; [done|]. split; [done|].
      split; [done|]. intros n k Hn H1 Hk0 Hk Hq.
      destruct (Hinv (k + 1)) as [_ _ _ _ Hcov]. apply Hcov; try done. lia.
    + intros [Hmin Htyped]. apply Hscan; [lia|lia| |].
      * intros k0. split; try constructor. intros n' k' Hlt' Hn. lia.
      * split; [|done]. unfold lo, len. lia.
Qed.

(** C5. [lookup_ngrams] reads the n-gram lengths from the larger bound
    down to the smaller.  It records a match only for an n-gram whose
    normalised text is not banned, is not a verb and is an alias of the
    trie, and it skips an n-gram that overlaps a recorded match.  So the
    recorded spans do not overlap pairwise, they come in the order of
    decreasing length, and every n-gram that could be recorded is recorded
    or overlaps a recorded match at least as long.  The scan completes when
    the lengths are not negative and every alias of the trie has a type. *)
Theorem lookup_ngrams_scan (min_entity_len max_entity_len : Z) :
  let lo := Z.min min_entity_len (len tokens) in
  let hi := Z.min max_entity_len (len tokens) in
  (forall used,
     Ned.scan_ngrams self env tokens min_entity_len max_entity_len = Ok used ->
     Forall (recorded_ok lo hi) used /\
     ForallOrdPairs disjoint used /\
     ForallOrdPairs not_longer used /\
     (forall n k, lo <= n <= hi -> 1 <= n -> 0 <= k -> k + n <= len tokens ->
                  qualifies (gram_text k n) -> covered used k n)) /\
  (0 <= min_entity_len -> aliases_typed ->
   exists used, Ned.scan_ngrams self env tokens min_entity_len max_entity_len = Ok used).
Proof.
  intros lo hi.
  pose proof (scan_ngrams_spec min_entity_len max_entity_len) as Hspec.
  destruct (Ned.scan_ngrams self env tokens min_entity_len max_entity_len) as [used|err].
  - split; [by intros ? [= <-]|]. intros _ _. by exists used.
  - split; [done|]. intros Hmin Htyped. by destruct Hspec.
Qed.

End scan.

(** ** The lookup strategies *)

(** The database is consistent: the keys that the trie lists are aliases
    with at least one token, every alias has a type and every type has an
    identifier. *)
Record consistent (self : Ned.disambiguator) : Prop := {
  listed_alias : forall prefix key,
    key ∈ Ned.keys (Ned.all_aliases self) prefix ->
    is_Some (Ned.alias2type self !! key) /\ Str.split key <> [];
  alias_has_type : forall s,
    Ned.member s (Ned.all_aliases self) = true -> is_Some (Ned.alias2type self !! s);
  type_has_id : forall key type,
    Ned.alias2type self !! key = Some type -> is_Some (Ned.typeqid2id self !! type)
}.

Lemma built_consistent (all_aliases : Ned.trie) (base : Ned.disambiguator)
    (loaded : gmap string string) :
  all_aliases = Ned.Trie (map fst (map_to_list loaded)) ->
  (forall key, is_Some (loaded !! key) -> Str.split key <> []) ->
  (forall key type, loaded !! key = Some type -> is_Some (Ned.typeqid2id base !! type)) ->
  consistent {| Ned.all_aliases := all_aliases;
                Ned.alias2type := loaded;
                Ned.typeqid2id := Ned.typeqid2id base;
                Ned.unk_id := Ned.unk_id base;
                Ned.max_features_size := Ned.max_features_size base |}.
Proof.
  intros -> Htok Hid. split; simpl.
  - intros prefix key Hkey. apply keys_Trie, elem_of_dict_keys in Hkey. by split; [|apply Htok].
  - intros s Hs. by apply member_Trie, elem_of_dict_keys in Hs.
  - done.
Qed.

Lemma naive_consistent (base : Ned.disambiguator) (loaded : gmap string string) :
  (forall key, is_Some (loaded !! key) -> Str.split key <> []) ->
  (forall key type, loaded !! key = Some type -> is_Some (Ned.typeqid2id base !! type)) ->
  consistent (Ned.NaiveEntityDisambiguator base loaded).
Proof. by apply built_consistent. Qed.

Lemma length_times {A} (x : A) (n : Z) : length (Ned.times x n) = Z.to_nat n.
Proof. apply length_replicate. Qed.




Lemma traverse_const {A B} (y : B) (l : list A) :
  traverse (fun _ => Ok y) l = Ok (replicate (length l) y).
Proof. induction l as [|x l IH]; simpl; [done|]. by rewrite IH. Qed.

Lemma getitem_some {V} (d : gmap string V) (k : string) (v : V) :
  d !! k = Some v -> getitem d k = Ok v.
Proof. unfold getitem. by intros ->. Qed.

Lemma bind_ok {A B} (a : A) (f : A -> result B) : Ok a ≫= f = f a.
Proof. done. Qed.








Section lookup.

Variable self : Ned.disambiguator.
Variable env : Ned.helpers.

Section consistent.

Hypothesis Hself : consistent self.




End consistent.


End lookup.

(** The other two paths give every token [max_features_size] identifiers. *)
Lemma slice_assign_Forall {A} (P : A -> Prop) (l new : list A) (beg end_ : Z) :
  Forall P l -> Forall P new -> Forall P (Ned.slice_assign l beg end_ new).
Proof.
  intros Hl Hnew. unfold Ned.slice_assign.
  apply Forall_app. split; [by apply Forall_take|].
  apply Forall_app. split; [done|by apply Forall_drop].
Qed.

Lemma lookup_entry_width_default_ngrams (self : Ned.disambiguator) (env : Ned.helpers)
    (tokens : list string) (database_lookup_method : option string)
    (min_entity_len max_entity_len : Z) (fuel : nat) (tokens_type_ids : list (list Z)) :
  database_lookup_method <> Some "smaller_first" ->
  database_lookup_method <> Some "longer_first" ->
  Ned.lookup fuel self env tokens database_lookup_method min_entity_len max_entity_len
  = Some (Ok tokens_type_ids) ->
  Forall (fun entry => length entry = Z.to_nat (Ned.max_features_size self)) tokens_type_ids.
Proof.
  intros H1 H2. unfold Ned.lookup.
  destruct (decide (database_lookup_method = Some "smaller_first")); [done|].
  destruct (decide (database_lookup_method = Some "longer_first")); [done|].
  assert (forall x m, Forall (fun entry : list Z =>
                                length entry = Z.to_nat (Ned.max_features_size self))
                        (Ned.times (Ned.times x (Ned.max_features_size self)) m)) as Htimes.
  { intros x m. apply Forall_replicate. apply length_times. }
  destruct (decide (database_lookup_method = Some "ngrams")).
  - unfold Ned.lookup_ngrams.
    destruct (Ned.scan_ngrams self env tokens min_entity_len max_entity_len) as [used|];
      [|done].
    rewrite bind_ok. intros [= <-].
    generalize (Htimes (Ned.unk_id self) (len tokens)).
    generalize (Ned.times (Ned.times (Ned.unk_id self) (Ned.max_features_size self))
                          (len tokens)).
    induction used as [|[[t s] e'] used IH]; intros l Hl; [done|].
    simpl. apply IH. by apply slice_assign_Forall.
  - intros [= <-]. apply Htimes.
Qed.

(** A small database: five aliases with their types. *)
Definition city_aliases : gmap string string :=
  {[ "new york" := "Q515"; "new" := "Q1"; "york" := "Q2";
     "big apple pie" := "Q3"; "apple" := "Q4" ]}.

Definition city_base : Ned.disambiguator :=
  {| Ned.all_aliases := Ned.empty;
     Ned.alias2type := ∅;
     Ned.typeqid2id := {[ "Q515" := 5; "Q1" := 1; "Q2" := 2; "Q3" := 3; "Q4" := 4 ]};
     Ned.unk_id := 0;
     Ned.max_features_size := 2 |}.

Definition city_self : Ned.disambiguator := Ned.NaiveEntityDisambiguator city_base city_aliases.

Definition city_env : Ned.helpers :=
  {| Ned.is_banned := fun _ => false;
     Ned.normalize_text := Str.lower;
     Ned.pos_tag := fun tokens => map (fun t => (t, "NN")) tokens |}.

Definition city_tokens : list string := ["i"; "love"; "new"; "york"; "apple"; "pie"].

Lemma city_consistent : consistent city_self.
Proof.
  apply naive_consistent.
  - intros key Hkey Hsplit.
    assert (map_Forall (fun key _ => Str.split key <> []) city_aliases) as Hall
      by (apply (bool_decide_unpack _); vm_compute; exact I).
    destruct Hkey as [type Htype]. by apply (Hall key type).
  - intros key type Htype.
    assert (map_Forall (fun _ type => is_Some (Ned.typeqid2id city_base !! type)) city_aliases)
      as Hall by (apply (bool_decide_unpack _); vm_compute; exact I).
    by apply (Hall key type).
Qed.

Example lookup_city_ngrams :
  Ned.lookup 6 city_self city_env city_tokens (Some "ngrams") 1 4
  = Some (Ok [[0; 0]; [0; 0]; [5; 5]; [5; 5]; [4; 4]; [0; 0]]).
Proof. vm_compute. reflexivity. Qed.

Example scan_city_ngrams :
  Ned.scan_ngrams city_self city_env city_tokens 1 4 = Ok [(5, 2, 4); (4, 4, 5)].
Proof. vm_compute. reflexivity. Qed.

(** C9 (failing input). With [max_features_size = 2] the strategies
    [smaller_first] and [longer_first] give each token one number, the
    identifier times [max_features_size] ([[id * n]] stands where
    [[id] * n] is meant); [ngrams] and the default give each token two
    identifiers. *)
Theorem lookup_entry_width :
  Ned.lookup 6 city_self city_env city_tokens (Some "smaller_first") 2 4
  = Some (Ok [[0]; [0]; [10]; [10]; [8]; [0]]) /\
  Ned.lookup 6 city_self city_env city_tokens (Some "longer_first") 2 4
  = Some (Ok [[0]; [0]; [10]; [10]; [8]; [0]]) /\
  Ned.lookup 6 city_self city_env city_tokens (Some "ngrams") 2 4
  = Some (Ok [[0; 0]; [0; 0]; [5; 5]; [5; 5]; [0; 0]; [0; 0]]) /\
  Ned.lookup 6 city_self city_env city_tokens None 2 4
  = Some (Ok [[0; 0]; [0; 0]; [0; 0]; [0; 0]; [0; 0]; [0; 0]]).
Proof. vm_compute. repeat split; reflexivity. Qed.

(** An alias without any token stalls [lookup_smaller]: the position does
    not move, however many rounds are allowed. *)
Definition blank_self : Ned.disambiguator :=
  Ned.NaiveEntityDisambiguator city_base {[ " " := "Q1" ]}.





Lemma lookup_ngrams_scan_witness :
  exists used,
    Ned.scan_ngrams city_self city_env city_tokens 2 4 = Ok used /\
    ForallOrdPairs disjoint used /\ ForallOrdPairs not_longer used.
Proof.
  destruct (lookup_ngrams_scan city_self city_env city_tokens 2 4) as [Hprops Hex].
  destruct Hex as [used Hused]; [lia|exact (alias_has_type _ city_consistent)|].
  exists used. split; [exact Hused|].
  destruct (Hprops used Hused) as (_ & Hdis & Hord & _). by split.
Defined.

(** * Further properties of [metrics.py] *)

(** ** Token-level F1 *)

Lemma shared_tokens_comm (a b : list string) : shared_tokens a b = shared_tokens b a.
Proof.
  rewrite <- !counter_and_size. f_equal. apply gmultiset_eq. intros x.
  rewrite !multiplicity_intersection. lia.
Qed.

Lemma shared_tokens_self (a : list string) : shared_tokens a a = length a.
Proof.
  rewrite <- counter_and_size, <- (size_list_to_set_disj a). f_equal.
  apply gmultiset_eq. intros x. rewrite multiplicity_intersection. lia.
Qed.

(** X1. [f1_score] is symmetric: the prediction and the ground truth can be
    exchanged. *)
Theorem f1_score_symmetric (prediction ground_truth : string) :
  exists a b,
    Metrics.f1_score prediction ground_truth = Ok a /\
    Metrics.f1_score ground_truth prediction = Ok b /\
    (a == b)%Q.
Proof.
  rewrite !f1_score_value. eexists _, _. split; [reflexivity|]. split; [reflexivity|].
  rewrite (shared_tokens_comm (Str.split ground_truth)).
  destruct (shared_tokens (Str.split prediction) (Str.split ground_truth) =? 0)%nat; [done|].
  set (p := (1 * _ / inject_Z (Z.of_nat (length (Str.split prediction))))%Q).
  set (r := (1 * _ / inject_Z (Z.of_nat (length (Str.split ground_truth))))%Q).
  assert (2 * p * r == 2 * r * p)%Q as -> by ring.
  assert (p + r == r + p)%Q as -> by ring. reflexivity.
Qed.

(** X2. A string scored against itself gets 1, unless it has no token: then
    it gets 0, as any pair without a shared token. *)
Theorem f1_score_self (s : string) :
  exists f1, Metrics.f1_score s s = Ok f1 /\
    (f1 == if bool_decide (Str.split s = []) then 0 else 1)%Q.
Proof.
  rewrite f1_score_value. eexists. split; [reflexivity|].
  rewrite shared_tokens_self.
  destruct (Str.split s) as [|t ts] eqn:E; [done|].
  rewrite bool_decide_eq_false_2 by done.
  destruct (Nat.eqb_spec (length (t :: ts)) 0) as [H|_]; [done|].
  set (n := inject_Z (Z.of_nat (length (t :: ts)))).
  assert (0 < n)%Q as Hn.
  { unfold n. rewrite <- (Zlt_Qlt 0). simpl length. lia. }
  field. lra.
Qed.

(** ** Exact match *)

Lemma traverse_cases {A B} (f : A -> result B) (l : list A) :
  match traverse f l with
  | Ok r => Forall2 (fun x y => f x = Ok y) l r
  | Raise e => Exists (fun x => f x = Raise e) l
  end.
Proof.
  induction l as [|x l IH]; simpl; [constructor|].
  destruct (f x) as [y|e] eqn:Hx; [|by left].
  destruct (traverse f l) as [r|e]; [by constructor|by right].
Qed.

Lemma max_over_no_ground_truth {S} (gt : S -> S -> bool) (metric_fn : string -> string -> result S)
    (prediction : string) :
  Metrics.metric_max_over_ground_truths gt metric_fn prediction [] = Raise ValueError.
Proof. done. Qed.

Lemma em_hits_le (outputs : list string) (targets : list (list string)) :
  (em_hits outputs targets <= length outputs)%nat.
Proof.
  unfold em_hits. etransitivity; [apply length_filter|].
  revert targets. induction outputs as [|o outputs IH]; intros [|t targets]; simpl; try lia.
  specialize (IH targets). lia.
Qed.

(** [computeEM], evaluated. *)
Lemma computeEM_eval (outputs : list string) (targets : list (list string)) :
  Metrics.computeEM outputs targets
  = if forallb (fun ot : string * list string => negb (bool_decide (ot.2 = [])))
         (zip outputs targets)
    then
      if bool_decide (outputs = []) then Raise ZeroDivisionError
      else Ok (inject_Z (Z.of_nat (em_hits outputs targets))
               / inject_Z (Z.of_nat (length outputs)) * 100)%Q
    else Raise ValueError.
Proof.
  unfold Metrics.computeEM.
  destruct (forallb _ (zip outputs targets)) eqn:Hall.
  - assert (traverse
              (fun '(o, t) => Metrics.metric_max_over_ground_truths bool_gt
                                (fun p g => Ok (Metrics.exact_match p g)) o t)
              (zip outputs targets)
            = Ok (map (fun ot : string * list string => bool_decide (ot.1 ∈ ot.2))
                      (zip outputs targets))) as ->.
    { rewrite <- traverse_ok. apply traverse_ext.
      apply Forall_forall. intros [o t] Hin%list_elem_of_In.
      apply (proj1 (forallb_forall _ _) Hall) in Hin.
      apply max_exact_match. simpl in Hin. apply negb_true_iff, bool_decide_eq_false in Hin.
      done. }
    cbn [mbind result_bind]. unfold truediv, len.
    destruct outputs as [|o outputs]; [done|].
    rewrite bool_decide_eq_false_2 by done.
    destruct (Z.eqb_spec (Z.of_nat (length (o :: outputs))) 0) as [H0|H0].
    { simpl in H0. lia. }
    cbn [mbind result_bind].
    rewrite sum_bools_count.
    by rewrite (count_true_map (fun ot : string * list string => ot.1 ∈ ot.2)).
  - pose proof (traverse_cases
                  (fun '(o, t) => Metrics.metric_max_over_ground_truths bool_gt
                                    (fun p g => Ok (Metrics.exact_match p g)) o t)
                  (zip outputs targets)) as Ht.
    destruct (traverse _ _) as [r|e].
    + exfalso. apply not_true_iff_false in Hall. apply Hall, forallb_forall.
      intros [o t] Hin%list_elem_of_In. simpl.
      apply list_elem_of_lookup in Hin as [i Hi].
      destruct (Forall2_lookup_l _ _ _ _ _ Ht Hi) as (y & _ & Hy).
      destruct t; [done|]. by rewrite bool_decide_eq_false_2.
    + cbn [mbind result_bind].
      apply Exists_exists in Ht as ([o t] & Hin & He).
      destruct t as [|g t]; [by injection He as <-|].
      unfold Metrics.metric_max_over_ground_truths in He.
      by rewrite traverse_ok in He.
Qed.

(** X3. [computeEM] divides by the number of predictions, also when there
    are fewer answers than predictions: a prediction without an answer
    counts as wrong.  It raises [ValueError] when a prediction is paired
    with an empty list of ground truths, and [ZeroDivisionError] when there
    is no prediction; otherwise the score lies between 0 and 100. *)
Theorem computeEM_cases (outputs : list string) (targets : list (list string)) :
  match Metrics.computeEM outputs targets with
  | Ok q =>
      outputs <> [] /\
      Forall (fun ot : string * list string => ot.2 <> []) (zip outputs targets) /\
      (q == 100 * (inject_Z (Z.of_nat (em_hits outputs targets))
                   / inject_Z (Z.of_nat (length outputs))))%Q /\
      (0 <= q <= 100)%Q
  | Raise e =>
      (e = ValueError /\
       Exists (fun ot : string * list string => ot.2 = []) (zip outputs targets)) \/
      (e = ZeroDivisionError /\ outputs = [])
  end.
Proof.
  rewrite computeEM_eval.
  destruct (forallb _ (zip outputs targets)) eqn:Hall.
  - destruct (decide (outputs = [])) as [->|Hne]; [by right|].
    rewrite bool_decide_eq_false_2 by done.
    pose proof (em_hits_le outputs targets) as Hle.
    set (hits := inject_Z (Z.of_nat (em_hits outputs targets))).
    set (n := inject_Z (Z.of_nat (length outputs))).
    assert (0 <= hits)%Q as Hh by (unfold hits; rewrite <- (Zle_Qle 0); lia).
    assert (hits <= n)%Q as Hhn by (unfold hits, n; rewrite <- Zle_Qle; lia).
    assert (0 < n)%Q as Hn.
    { unfold n. rewrite <- (Zlt_Qlt 0). destruct outputs; [done|]. simpl length. lia. }
    split; [done|]. split; [|split; [field; lra|]].
    + apply Forall_forall. intros ot Hin%list_elem_of_In.
      apply (proj1 (forallb_forall _ _) Hall) in Hin.
      by apply negb_true_iff, bool_decide_eq_false in Hin.
    + assert (0 <= hits / n <= 1)%Q as [H1 H2].
      { split; [apply Qle_shift_div_l; lra|apply Qle_shift_div_r; lra]. }
      split; nra.
  - left. split; [done|]. apply Exists_exists.
    apply not_true_iff_false in Hall.
    destruct (decide (Exists (fun ot : string * list string => ot.2 = [])
                             (zip outputs targets))) as [Hex|Hno];
      [by apply Exists_exists in Hex|].
    exfalso. apply Hall, forallb_forall. intros ot Hin%list_elem_of_In.
    apply negb_true_iff, bool_decide_eq_false. intros Hnil.
    apply Hno, Exists_exists. by exists ot.
Qed.

Lemma percent_le (a b n : Q) :
  (0 < n -> a <= b -> a / n * 100 <= b / n * 100)%Q.
Proof.
  intros Hn Hab. apply Qmult_le_compat_r; [|lra].
  unfold Qdiv. apply Qmult_le_compat_r; [done|].
  apply Qinv_le_0_compat. lra.
Qed.

Lemma zip_normalized (outputs : list string) (targets : list (list string)) :
  zip (map Metrics.normalize_text outputs) (map (map Metrics.normalize_text) targets)
  = map (fun ot : string * list string =>
           (Metrics.normalize_text ot.1, map Metrics.normalize_text ot.2))
        (zip outputs targets).
Proof.
  revert targets. induction outputs as [|o outputs IH]; intros [|t targets]; simpl; try done.
  by rewrite IH.
Qed.

(** X4. Normalisation never loses an exact match: where [computeEM] gives a
    score for the raw texts, it gives one at least as high for the
    normalised texts (the metric [nem] against [em]); where it raises, it
    raises the same for the normalised texts. *)
Theorem computeEM_normalized (outputs : list string) (targets : list (list string)) :
  let norm_greedy := map Metrics.normalize_text outputs in
  let norm_answer := map (map Metrics.normalize_text) targets in
  match Metrics.computeEM outputs targets with
  | Ok em => exists nem, Metrics.computeEM norm_greedy norm_answer = Ok nem /\ (em <= nem)%Q
  | Raise e => Metrics.computeEM norm_greedy norm_answer = Raise e
  end.
Proof.
  intros norm_greedy norm_answer. rewrite !computeEM_eval.
  unfold norm_greedy, norm_answer. rewrite zip_normalized.
  assert (forallb (fun ot : string * list string => negb (bool_decide (ot.2 = [])))
            (map (fun ot : string * list string =>
                    (Metrics.normalize_text ot.1, map Metrics.normalize_text ot.2))
                 (zip outputs targets))
          = forallb (fun ot : string * list string => negb (bool_decide (ot.2 = [])))
              (zip outputs targets)) as ->.
  { induction (zip outputs targets) as [|[o t] l IH]; [done|].
    cbn [map forallb fst snd]. rewrite IH. f_equal. by destruct t. }
  destruct (forallb _ (zip outputs targets)); [|done].
  destruct outputs as [|o outputs]; [done|].
  rewrite !bool_decide_eq_false_2 by done.
  eexists. split; [reflexivity|].
  assert (em_hits (o :: outputs) targets
          <= em_hits (map Metrics.normalize_text (o :: outputs))
               (map (map Metrics.normalize_text) targets))%nat as Hle.
  { unfold em_hits. rewrite zip_normalized.
    induction (zip (o :: outputs) targets) as [|[o' t'] l IH]; [done|].
    cbn [map fst snd].
    destruct (decide (o' ∈ t')) as [Hin|Hnot].
    - rewrite filter_cons_True by done.
      rewrite filter_cons_True
        by (cbn [fst snd]; by apply (list_elem_of_fmap_2 Metrics.normalize_text)).
      simpl. lia.
    - rewrite filter_cons_False by done.
      etransitivity; [exact IH|].
      match goal with |- (_ <= length (filter ?P (?x :: ?l')))%nat =>
        destruct (decide (P x));
          [rewrite (filter_cons_True P) by done; simpl; lia
          |rewrite (filter_cons_False P) by done; lia] end. }
  rewrite length_map. apply percent_le.
  - rewrite <- (Zlt_Qlt 0). simpl length. lia.
  - rewrite <- Zle_Qle. lia.
Qed.

(** ** [computeF1] *)

Lemma max_floats_spec (l : list Q) (x : Q) :
  let m := fold_left (fun m y => if Q_gt y m then y else m) l x in
  m ∈ x :: l /\ Forall (fun y => y <= m)%Q (x :: l).
Proof.
  revert x. induction l as [|y l IH]; intros x; cbn [fold_left].
  - split; [by left|]. constructor; [apply Qle_refl|constructor].
  - destruct (IH (if Q_gt y x then y else x)) as [Hin Hall].
    apply Forall_cons in Hall as [Hm Hall].
    set (m := fold_left _ l _) in *.
    assert (x <= m /\ y <= m)%Q as [Hx Hy].
    { unfold Q_gt in Hm. destruct (Qle_bool y x) eqn:E; cbn [negb] in Hm.
      - apply Qle_bool_iff in E. split; [done|]. by apply (Qle_trans _ x).
      - assert (~ (y <= x)%Q) as Hn by (intros H; apply Qle_bool_iff in H; congruence).
        split; [|done]. apply (Qle_trans _ y); [|done]. apply Qlt_le_weak, Qnot_le_lt, Hn. }
    split.
    + apply elem_of_cons in Hin as [Hin|Hin]; [|by do 2 right].
      rewrite Hin. destruct (Q_gt y x); [right; by left|by left].
    + by repeat constructor.
Qed.

Lemma f1_score_range (prediction ground_truth : string) :
  exists f1, Metrics.f1_score prediction ground_truth = Ok f1 /\ (0 <= f1 <= 1)%Q.
Proof.
  rewrite f1_score_value. eexists. split; [reflexivity|].
  set (pt := Str.split prediction). set (gt := Str.split ground_truth).
  pose proof (shared_tokens_le_l pt gt) as Hl.
  pose proof (shared_tokens_le_r pt gt) as Hr.
  destruct (Nat.eqb_spec (shared_tokens pt gt) 0) as [Hz|Hz].
  - split; unfold Qle; simpl; lia.
  - set (same := inject_Z (Z.of_nat (shared_tokens pt gt))).
    assert (0 < same)%Q as Hs by (unfold same; rewrite <- (Zlt_Qlt 0); lia).
    assert (same <= inject_Z (Z.of_nat (length pt)))%Q as Hsn
      by (unfold same; rewrite <- Zle_Qle; lia).
    assert (same <= inject_Z (Z.of_nat (length gt)))%Q as Hsm
      by (unfold same; rewrite <- Zle_Qle; lia).
    rewrite !Qmult_1_l. by apply harmonic_mean_bounds.
Qed.

(** The best F1 of a prediction over a non-empty list of ground truths:
    between 0 and 1, and at least the F1 against each of them. *)
Lemma max_f1_spec (o : string) (t : list string) :
  t <> [] ->
  exists m, Metrics.metric_max_over_ground_truths Q_gt Metrics.f1_score o t = Ok m /\
    (0 <= m <= 1)%Q /\
    forall g f1, g ∈ t -> Metrics.f1_score o g = Ok f1 -> (f1 <= m)%Q.
Proof.
  intros Ht. unfold Metrics.metric_max_over_ground_truths.
  pose proof (traverse_cases (Metrics.f1_score o) t) as Hc.
  destruct (traverse (Metrics.f1_score o) t) as [scores|e].
  2:{ apply Exists_exists in Hc as (g & _ & Hg).
      destruct (f1_score_range o g) as (f1 & Hf & _). congruence. }
  cbn [mbind result_bind].
  destruct scores as [|x scores]; [by inversion Hc; subst|].
  cbn [max_by]. eexists. split; [reflexivity|].
  destruct (max_floats_spec scores x) as [Hin Hall].
  set (m := fold_left _ scores x) in *. split.
  - apply list_elem_of_lookup in Hin as [i Hi].
    destruct (Forall2_lookup_r _ _ _ _ _ Hc Hi) as (g & _ & Hg).
    destruct (f1_score_range o g) as (f1 & Hf & Hb). congruence.
  - intros g f1 [i Hi]%list_elem_of_lookup Hf.
    destruct (Forall2_lookup_l _ _ _ _ _ Hc Hi) as (y & Hy & Hg).
    assert (y = f1) as -> by congruence.
    apply (proj1 (Forall_forall _ _) Hall). by apply list_elem_of_lookup_2 in Hy.
Qed.

(** The best F1 of a prediction over its ground truths, 0 when there is
    none. *)
Definition best_f1 (ot : string * list string) : Q :=
  match Metrics.metric_max_over_ground_truths Q_gt Metrics.f1_score ot.1 ot.2 with
  | Ok m => m
  | Raise _ => inject_Z 0
  end.

(** [computeF1], evaluated. *)
Lemma computeF1_eval (outputs : list string) (targets : list (list string)) :
  Metrics.computeF1 outputs targets
  = if forallb (fun ot : string * list string => negb (bool_decide (ot.2 = [])))
         (zip outputs targets)
    then
      if bool_decide (outputs = []) then Raise ZeroDivisionError
      else Ok (sum_floats (map best_f1 (zip outputs targets))
               / inject_Z (Z.of_nat (length outputs)) * 100)%Q
    else Raise ValueError.
Proof.
  unfold Metrics.computeF1.
  destruct (forallb _ (zip outputs targets)) eqn:Hall.
  - assert (traverse
              (fun '(o, t) => Metrics.metric_max_over_ground_truths Q_gt Metrics.f1_score o t)
              (zip outputs targets)
            = Ok (map best_f1 (zip outputs targets))) as ->.
    { rewrite <- traverse_ok. apply traverse_ext.
      apply Forall_forall. intros [o t] Hin%list_elem_of_In.
      apply (proj1 (forallb_forall _ _) Hall) in Hin.
      simpl in Hin. apply negb_true_iff, bool_decide_eq_false in Hin.
      destruct (max_f1_spec o t Hin) as (m & Hm & _).
      unfold best_f1. cbn [fst snd]. cbv beta iota.
      by destruct (Metrics.metric_max_over_ground_truths Q_gt Metrics.f1_score o t). }
    cbn [mbind result_bind].
    destruct outputs as [|o outputs]; [done|].
    rewrite bool_decide_eq_false_2 by done.
    rewrite fdiv_ok; [done|].
    unfold len, Qeq. cbn [Qnum Qden inject_Z length]. lia.
  - pose proof (traverse_cases
                  (fun '(o, t) => Metrics.metric_max_over_ground_truths Q_gt Metrics.f1_score o t)
                  (zip outputs targets)) as Ht.
    destruct (traverse _ _) as [r|e].
    + exfalso. apply not_true_iff_false in Hall. apply Hall, forallb_forall.
      intros [o t] Hin%list_elem_of_In. simpl.
      apply list_elem_of_lookup in Hin as [i Hi].
      destruct (Forall2_lookup_l _ _ _ _ _ Ht Hi) as (y & _ & Hy).
      destruct t; [done|]. by rewrite bool_decide_eq_false_2.
    + cbn [mbind result_bind].
      apply Exists_exists in Ht as ([o t] & Hin & He).
      destruct t as [|g t]; [by injection He as <-|].
      destruct (max_f1_spec o (g :: t)) as (m & Hm & _); [done|]. congruence.
Qed.

Lemma sum_floats_bounds (l : list Q) (k : Q) :
  Forall (fun y => 0 <= y <= 1)%Q l ->
  (k <= fold_left Qplus l k <= k + inject_Z (Z.of_nat (length l)))%Q.
Proof.
  intros H. revert k. induction H as [|y l [Hy0 Hy1] _ IH]; intros k.
  - cbn [fold_left length]. split; [apply Qle_refl|].
    assert (inject_Z (Z.of_nat 0) == 0)%Q as -> by reflexivity. lra.
  - cbn [fold_left]. destruct (IH (k + y)%Q) as [H1 H2].
    assert (inject_Z (Z.of_nat (length (y :: l))) == inject_Z (Z.of_nat (length l)) + 1)%Q as ->.
    { rewrite <- (inject_Z_plus _ 1). f_equiv. simpl length. lia. }
    split; lra.
Qed.

Lemma best_f1_range (l : list (string * list string)) :
  Forall (fun ot : string * list string => ot.2 <> []) l ->
  Forall (fun y => 0 <= y <= 1)%Q (map best_f1 l).
Proof.
  intros H. apply Forall_fmap. eapply Forall_impl; [exact H|].
  intros [o t] Ht. destruct (max_f1_spec o t Ht) as (m & Hm & Hb & _).
  unfold compose, best_f1. cbn [fst snd] in *. by rewrite Hm.
Qed.

Lemma zip_length_le {A B} (a : list A) (b : list B) : (length (zip a b) <= length a)%nat.
Proof.
  revert b. induction a as [|x a IH]; intros [|y b]; simpl; try lia.
  specialize (IH b). lia.
Qed.

Lemma forallb_nonempty (l : list (string * list string)) :
  forallb (fun ot : string * list string => negb (bool_decide (ot.2 = []))) l = true <->
  Forall (fun ot : string * list string => ot.2 <> []) l.
Proof.
  rewrite forallb_forall, Forall_forall. split.
  - intros H ot Hin%list_elem_of_In. apply H in Hin.
    by apply negb_true_iff, bool_decide_eq_false in Hin.
  - intros H ot Hin%list_elem_of_In. apply negb_true_iff, bool_decide_eq_false. by apply H.
Qed.

(** X5. [computeF1] returns a score between 0 and 100; it raises
    [ValueError] when a prediction is paired with an empty list of ground
    truths and [ZeroDivisionError] when there is no prediction, and in no
    other case: the divisions inside [f1_score] never fail. *)
Theorem computeF1_cases (outputs : list string) (targets : list (list string)) :
  match Metrics.computeF1 outputs targets with
  | Ok q =>
      outputs <> [] /\
      Forall (fun ot : string * list string => ot.2 <> []) (zip outputs targets) /\
      (0 <= q <= 100)%Q
  | Raise e =>
      (e = ValueError /\
       Exists (fun ot : string * list string => ot.2 = []) (zip outputs targets)) \/
      (e = ZeroDivisionError /\ outputs = [])
  end.
Proof.
  rewrite computeF1_eval.
  destruct (forallb _ (zip outputs targets)) eqn:Hall.
  - apply forallb_nonempty in Hall.
    destruct (decide (outputs = [])) as [->|Hne]; [by right|].
    rewrite bool_decide_eq_false_2 by done.
    split; [done|]. split; [done|].
    pose proof (sum_floats_bounds _ (inject_Z 0) (best_f1_range _ Hall)) as [H1 H2].
    fold (sum_floats (map best_f1 (zip outputs targets))) in H1, H2.
    rewrite length_map in H2.
    pose proof (zip_length_le outputs targets) as Hz.
    set (total := sum_floats _) in *.
    set (n := inject_Z (Z.of_nat (length outputs))).
    assert (inject_Z (Z.of_nat (length (zip outputs targets))) <= n)%Q as Hzn
      by (unfold n; rewrite <- Zle_Qle; lia).
    assert (0 < n)%Q as Hn.
    { unfold n. rewrite <- (Zlt_Qlt 0). destruct outputs; [done|]. simpl length. lia. }
    assert (inject_Z 0 == 0)%Q as H0 by reflexivity.
    assert (0 <= total / n <= 1)%Q as [Ha Hb].
    { split; [apply Qle_shift_div_l; lra|apply Qle_shift_div_r; lra]. }
    split; nra.
  - left. split; [done|].
    destruct (decide (Exists (fun ot : string * list string => ot.2 = [])
                             (zip outputs targets))) as [Hex|Hno]; [done|].
    exfalso. apply not_true_iff_false in Hall. apply Hall, forallb_nonempty.
    apply Forall_forall. intros ot Hin Hnil. apply Hno, Exists_exists. by exists ot.
Qed.

(** A prediction that has a token and is one of its ground truths has the
    best F1 there is. *)
Lemma best_f1_hit (o : string) (t : list string) :
  Str.split o <> [] -> o ∈ t -> (1 <= best_f1 (o, t))%Q.
Proof.
  intros Ho Hin. unfold best_f1. cbn [fst snd].
  destruct (max_f1_spec o t) as (m & Hm & _ & Hmax);
    [intros ->; by apply elem_of_nil in Hin|].
  rewrite Hm.
  pose proof (Hmax o _ Hin (f1_score_value o o)) as Hle.
  rewrite shared_tokens_self in Hle.
  destruct (Nat.eqb_spec (length (Str.split o)) 0) as [H|_].
  { by destruct (Str.split o). }
  set (n := inject_Z (Z.of_nat (length (Str.split o)))) in *.
  assert (0 < n)%Q as Hn.
  { unfold n. rewrite <- (Zlt_Qlt 0). destruct (Str.split o); [done|]. simpl length. lia. }
  assert (2 * (1 * n / n) * (1 * n / n) / (1 * n / n + 1 * n / n) == 1)%Q as Heq
    by (field; lra).
  by rewrite Heq in Hle.
Qed.

Lemma best_f1_nonneg (o : string) (t : list string) : (0 <= best_f1 (o, t))%Q.
Proof.
  unfold best_f1. cbn [fst snd]. destruct t as [|g t]; [done|].
  destruct (max_f1_spec o (g :: t)) as (m & -> & [H _] & _); done.
Qed.

Lemma hits_le_best_f1 (l : list (string * list string)) (k : Q) :
  Forall (fun ot : string * list string => Str.split ot.1 <> []) l ->
  (k + inject_Z (Z.of_nat (length (filter (fun ot : string * list string => ot.1 ∈ ot.2) l)))
   <= fold_left Qplus (map best_f1 l) k)%Q.
Proof.
  intros H. revert k. induction H as [|[o t] l Ho _ IH]; intros k.
  - cbn [map fold_left]. rewrite filter_nil. cbn [length].
    assert (inject_Z (Z.of_nat 0) == 0)%Q as -> by reflexivity. lra.
  - cbn [map fold_left]. specialize (IH (k + best_f1 (o, t))%Q).
    cbn [fst] in Ho.
    destruct (decide (o ∈ t)) as [Hin|Hnot].
    + rewrite filter_cons_True by done.
      pose proof (best_f1_hit o t Ho Hin) as H1.
      assert (inject_Z (Z.of_nat (length ((o, t) :: filter
                 (fun ot : string * list string => ot.1 ∈ ot.2) l)))
              == inject_Z (Z.of_nat (length (filter
                 (fun ot : string * list string => ot.1 ∈ ot.2) l))) + 1)%Q as ->.
      { rewrite <- (inject_Z_plus _ 1). f_equiv. simpl length. lia. }
      lra.
    + rewrite filter_cons_False by done.
      pose proof (best_f1_nonneg o t). lra.
Qed.

Lemma zip_tokens (outputs : list string) (targets : list (list string)) :
  Forall (fun o => Str.split o <> []) outputs ->
  Forall (fun ot : string * list string => Str.split ot.1 <> []) (zip outputs targets).
Proof.
  intros H. revert targets. induction H as [|o outputs Ho _ IH]; intros [|t targets];
    simpl; constructor; auto.
Qed.

(** X6. When every prediction has at least one token, the exact-match score
    is at most the F1 score: a prediction that equals one of its ground
    truths has F1 1 against it.  (A prediction without tokens that equals
    its ground truth counts for [computeEM] and not for [computeF1].) *)
Theorem computeEM_le_computeF1 (outputs : list string) (targets : list (list string)) :
  Forall (fun o => Str.split o <> []) outputs ->
  match Metrics.computeEM outputs targets with
  | Ok em => exists f1, Metrics.computeF1 outputs targets = Ok f1 /\ (em <= f1)%Q
  | Raise e => Metrics.computeF1 outputs targets = Raise e
  end.
Proof.
  intros Htok. rewrite computeEM_eval, computeF1_eval.
  destruct (forallb _ (zip outputs targets)); [|done].
  destruct (decide (outputs = [])) as [->|Hne]; [done|].
  rewrite bool_decide_eq_false_2 by done.
  eexists. split; [reflexivity|]. apply percent_le.
  - rewrite <- (Zlt_Qlt 0). destruct outputs; [done|]. simpl length. lia.
  - pose proof (hits_le_best_f1 _ (inject_Z 0) (zip_tokens outputs targets Htok)) as H.
    unfold em_hits, sum_floats.
    assert (inject_Z 0 == 0)%Q as H0 by reflexivity. lra.
Qed.

Lemma computeEM_le_computeF1_witness :
  Forall (fun o => Str.split o <> []) ["the cat"; "a dog"] /\
  match Metrics.computeEM ["the cat"; "a dog"] [["the cat"]; ["the dog"; "dog"]] with
  | Ok em =>
      exists f1,
        Metrics.computeF1 ["the cat"; "a dog"] [["the cat"]; ["the dog"; "dog"]] = Ok f1 /\
        (em <= f1)%Q
  | Raise e =>
      Metrics.computeF1 ["the cat"; "a dog"] [["the cat"]; ["the dog"; "dog"]] = Raise e
  end.
Proof.
  assert (Forall (fun o => Str.split o <> []) ["the cat"; "a dog"]) as H
    by (repeat constructor; by vm_compute).
  split; [exact H|].
  exact (computeEM_le_computeF1 ["the cat"; "a dog"] [["the cat"]; ["the dog"; "dog"]] H).
Defined.

(** ** Partial exact match *)

Lemma zip_all_equal_prefix (a b : list string) :
  Forall (fun pg : string * string => pg.1 = pg.2) (zip a b) <->
  a `prefix_of` b \/ b `prefix_of` a.
Proof.
  revert b. induction a as [|x a IH]; intros [|y b]; simpl.
  - split; [left; by exists []|constructor].
  - split; [left; by exists (y :: b)|constructor].
  - split; [right; by exists (x :: a)|constructor].
  - rewrite Forall_cons, IH. cbn [fst snd]. split.
    + intros [-> [H|H]]; [left|right]; by apply prefix_cons.
    + intros [H|H].
      * pose proof (prefix_cons_inv_1 _ _ _ _ H). pose proof (prefix_cons_inv_2 _ _ _ _ H).
        auto.
      * pose proof (prefix_cons_inv_1 _ _ _ _ H). pose proof (prefix_cons_inv_2 _ _ _ _ H).
        auto.
Qed.

Lemma count_true_all (l : list bool) :
  length (filter (fun b => b = true) l) = length l <-> Forall (fun b => b = true) l.
Proof.
  induction l as [|b l IH]; [by split; [constructor|]|].
  destruct b.
  - rewrite filter_cons_True by done. simpl length. rewrite Forall_cons.
    split; [intros [= H]; split; [done|by apply IH]|intros [_ H]; f_equal; by apply IH].
  - rewrite filter_cons_False by done. rewrite Forall_cons. simpl length.
    pose proof (length_filter (fun b => b = true) l). split; [lia|by intros [? _]].
Qed.

(** X7. [partial_exact_match] compares the two token lists position by
    position, up to the shorter of them.  It raises [ZeroDivisionError]
    when either string has no token; otherwise the score lies between 0 and
    1, and it is 1 exactly when one token list is a prefix of the other:
    what the longer list has beyond the shorter is not looked at. *)
Theorem partial_exact_match_cases (prediction ground_truth : string) :
  match Metrics.partial_exact_match prediction ground_truth with
  | Ok q =>
      Str.split prediction <> [] /\ Str.split ground_truth <> [] /\
      (0 <= q <= 1)%Q /\
      ((q == 1)%Q <->
       Str.split prediction `prefix_of` Str.split ground_truth \/
       Str.split ground_truth `prefix_of` Str.split prediction)
  | Raise e =>
      e = ZeroDivisionError /\ (Str.split prediction = [] \/ Str.split ground_truth = [])
  end.
Proof.
  unfold Metrics.partial_exact_match.
  set (pt := Str.split prediction). set (gt := Str.split ground_truth).
  unfold truediv, len. rewrite length_map, sum_bools_count.
  destruct (Z.eqb_spec (Z.of_nat (length (zip pt gt))) 0) as [H0|H0].
  { split; [done|]. destruct pt; [by left|]. destruct gt; [by right|]. simpl in H0. lia. }
  pose proof (length_filter (fun b => b = true)
                (map (fun '(p, g) => bool_decide (p = g)) (zip pt gt))) as Hle.
  rewrite length_map in Hle.
  set (c := length (filter _ _)) in *.
  set (n := length (zip pt gt)) in *.
  assert (0 < inject_Z (Z.of_nat n))%Q as Hn by (rewrite <- (Zlt_Qlt 0); lia).
  assert (0 <= inject_Z (Z.of_nat c))%Q as Hc by (rewrite <- (Zle_Qle 0); lia).
  assert (inject_Z (Z.of_nat c) <= inject_Z (Z.of_nat n))%Q as Hcn by (rewrite <- Zle_Qle; lia).
  split; [intros E; unfold n in H0; by rewrite E in H0|].
  split; [intros E; unfold n in H0; rewrite E in H0; by destruct pt|].
  split; [split; [apply Qle_shift_div_l; lra|apply Qle_shift_div_r; lra]|].
  rewrite <- zip_all_equal_prefix.
  assert ((inject_Z (Z.of_nat c) / inject_Z (Z.of_nat n) == 1)%Q <-> c = n) as ->.
  { split.
    - intros E. assert (inject_Z (Z.of_nat c) == inject_Z (Z.of_nat n))%Q as E'.
      { rewrite <- (Qmult_1_l (inject_Z (Z.of_nat n))), <- E. field. lra. }
      unfold Qeq in E'. cbn [Qnum Qden inject_Z] in E'. lia.
    - intros ->. field. lra. }
  unfold c, n. rewrite <- (length_map (fun '(p, g) => bool_decide (p = g)) (zip pt gt)).
  rewrite count_true_all, Forall_fmap.
  apply Forall_iff. intros [p g]. unfold compose. cbn [fst snd].
  apply bool_decide_eq_true.
Qed.

(** ** Corpus-level F1 *)

Lemma score_counts (pairs : list (string * list string)) (st : Z * Z * Z * Z) :
  (let '(tp, tn, sys_pos, real_pos) := st in
   0 <= tp /\ tp <= sys_pos /\ tp <= real_pos) ->
  let '(tp, tn, sys_pos, real_pos) :=
    fold_left (fun '(a, b, c, d) '(g, a') =>
                 let '(tp, tn, sys_pos, real_pos) := Metrics.score g a' in
                 (a + tp, b + tn, c + sys_pos, d + real_pos)) pairs st in
  0 <= tp /\ tp <= sys_pos /\ tp <= real_pos.
Proof.
  revert st. induction pairs as [|[g a'] pairs IH]; intros [[[tp tn] sp] rp] Hst; [done|].
  cbn [fold_left]. apply IH.
  pose proof (score_bounds g a') as Hs.
  destruct (Metrics.score g a') as [[[tp' tn'] sp'] rp']. lia.
Qed.

(** X8. [computeCF1] never raises: a true positive is counted both as a
    system positive and as a real positive, so no division is by zero.  The
    three values it returns (F1, precision, recall, in this order) lie
    between 0 and 100, and they are all 0 (when no prediction is a true
    positive) or all positive. *)
Theorem computeCF1_range (greedy : list string) (answer : list (list string)) :
  exists f p r,
    Metrics.computeCF1 greedy answer = Ok (f, p, r) /\
    (0 <= p <= 100)%Q /\ (0 <= r <= 100)%Q /\ (0 <= f <= 100)%Q /\
    ((f == 0 /\ p == 0 /\ r == 0)%Q \/ (0 < f /\ 0 < p /\ 0 < r)%Q).
Proof.
  unfold Metrics.computeCF1.
  pose proof (score_counts (zip greedy answer) (0, 0, 0, 0)) as Hfold.
  destruct (fold_left _ _ _) as [[[tp tn] sp] rp].
  destruct Hfold as (H0 & Hs & Hr); [lia|].
  destruct (Z.eqb_spec tp 0) as [Hz|Hz].
  { eexists _, _, _. split; [reflexivity|].
    split; [split; lra|]. split; [split; lra|]. split; [split; lra|].
    left. repeat split; lra. }
  assert (0 < inject_Z tp)%Q as Htp by (rewrite <- (Zlt_Qlt 0); lia).
  assert (inject_Z tp <= inject_Z sp)%Q as Hsp by (by rewrite <- Zle_Qle).
  assert (inject_Z tp <= inject_Z rp)%Q as Hrp by (by rewrite <- Zle_Qle).
  rewrite fdiv_ok by lra. cbn [mbind result_bind].
  rewrite fdiv_ok by lra. cbn [mbind result_bind].
  set (p := (inject_Z tp / inject_Z sp)%Q). set (r := (inject_Z tp / inject_Z rp)%Q).
  assert (0 < p <= 1)%Q as [Hp0 Hp1].
  { split; [apply Qlt_shift_div_l; lra|apply Qle_shift_div_r; lra]. }
  assert (0 < r <= 1)%Q as [Hr0 Hr1].
  { split; [apply Qlt_shift_div_l; lra|apply Qle_shift_div_r; lra]. }
  rewrite fdiv_ok by lra. cbn [mbind result_bind].
  eexists _, _, _. split; [reflexivity|].
  assert (0 < 2 * p * r / (p + r) <= 1)%Q as [Hf0 Hf1].
  { split.
    - apply Qlt_shift_div_l; [lra|]. nra.
    - apply Qle_shift_div_r; [lra|]. nra. }
  split; [split; lra|]. split; [split; lra|]. split; [split; lra|].
  right. repeat split; lra.
Qed.

(** ** Dialogue state tracking *)

(** X9. [dict_cmp] tells whether two dicts are equal: each key of either is
    a key of the other, with the same value. *)
Theorem dict_cmp_eq (d1 d2 : gmap string string) :
  Metrics.dict_cmp d1 d2 = true <-> d1 = d2.
Proof.
  unfold Metrics.dict_cmp. rewrite andb_true_iff, !bool_decide_eq_true. split.
  - intros [H12 H21]. apply map_eq. intros k.
    destruct (d1 !! k) as [v|] eqn:E1.
    + symmetry. by apply (H12 k v).
    + destruct (d2 !! k) as [v|] eqn:E2; [|done].
      pose proof (H21 k v E2). congruence.
  - intros ->. split; by intros k v Hk.
Qed.

(** ** [computeDialogue] *)



(** The order of the pairs [(idx, gold)] when no two have the same [idx]. *)
Definition by_index (a b : Z * string) : Prop := a.1 < b.1.

Global Instance by_index_antisymm : AntiSymm eq by_index.
Proof. intros a b. unfold by_index. lia. Qed.











(** ** [computeLFEM], called again *)

(** X11. [computeLFEM] can be repeated: a second call on the same
    predictions and records, which the first call has left with their
    condition values lowercased, returns what the first call returned. *)
Theorem computeLFEM_repeatable (query : Metrics.Query) (greedy : list string)
    (answer : list (list Metrics.example)) (h : Metrics.heap) :
  let h1 := (Metrics.computeLFEM query greedy answer h).2 in
  (Metrics.computeLFEM query greedy answer h1).1
  = (Metrics.computeLFEM query greedy answer h).1.
Proof.
  unfold Metrics.computeLFEM.
  destruct (traverse (fun x => index x 0) answer) as [exs|e]; [|done].
  destruct (lfem_loop query h (zip greedy exs) 0 0 [] h) as (h1 & -> & Hsame); [done|].
  assert ((let '(count, correct, text_answers, h') :=
             (0 + len (zip greedy exs), 0 + lfem_hits query h (zip greedy exs),
              [] ++ map (fun ge : string * Metrics.example =>
                           [Str.lower (Metrics.ex_answer ge.2)]) (zip greedy exs), h1) in
           match truediv correct count with
           | Ok v => (Ok ((v * 100)%Q, text_answers), h')
           | Raise e => (Raise e, h')
           end).2 = h1) as ->.
  { cbn beta iota zeta. by destruct (truediv _ _). }
  destruct (lfem_loop query h (zip greedy exs) 0 0 [] h1 Hsame) as (h2 & -> & _).
  cbn beta iota zeta. by destruct (truediv _ _).
Qed.

(** ** [compute_metrics]: what else it computes and returns *)

(** The first two steps of [compute_metrics] when neither [lfem] nor
    [joint_goal_em] is requested: the answers are wrapped (which reads
    [answer[0]]), then [computeEM] runs on them, whatever they are. *)
Definition wrap_and_computeEM (greedy : list string) (answer : Metrics.answers) : result Q :=
  answer ← Metrics.wrap answer;
  match answer with
  | Metrics.TextLists a => Metrics.computeEM greedy a
  | Metrics.Records a => Metrics.computeEM_foreign greedy a
  | Metrics.Turns a => Metrics.computeEM_foreign greedy a
  end.

(** X12. [compute_metrics] computes [em] whether it is requested or not:
    when [computeEM] raises on the answers (texts, records or turns), or
    [answer[0]] before it, the call raises the same and changes nothing,
    whatever the request (without [lfem] and [joint_goal_em], which come
    first). *)
Theorem compute_metrics_em_always (ext : Metrics.externals) (query : Metrics.Query)
    (greedy : list string) (answer : Metrics.answers) (requested_metrics : list string)
    (lang : string) (h : Metrics.heap) (e : exn) :
  "lfem" ∉ requested_metrics -> "joint_goal_em" ∉ requested_metrics ->
  wrap_and_computeEM greedy answer = Raise e ->
  Metrics.compute_metrics ext query greedy answer requested_metrics lang h = (Raise e, h).
Proof.
  intros Hl Hj Hem.
  assert (Metrics.wanted "lfem" requested_metrics = false) as Hl'
    by (by apply bool_decide_eq_false).
  assert (Metrics.wanted "joint_goal_em" requested_metrics = false) as Hj'
    by (by apply bool_decide_eq_false).
  unfold Metrics.compute_metrics, Metrics.compute_scores.
  unfold wrap_and_computeEM in Hem.
  destruct (Metrics.wrap answer) as [answer'|e']; cbn [mbind result_bind] in Hem;
    [|by injection Hem as ->].
  rewrite Hl'. cbn [mbind result_bind]. unfold Metrics.collect_metrics. rewrite Hj'.
  destruct answer' as [a|a|a];
    cbn [mbind result_bind Metrics.as_texts]; unfold Metrics.foreign_exit; by rewrite Hem.
Qed.

Lemma compute_metrics_em_always_witness :
  Metrics.compute_metrics no_externals wikisql ["x"]
    (Metrics.Lists (Metrics.Records [[]; []])) ["f1"] "en"
    {| Metrics.sqls := ∅; Metrics.cond_lists := ∅ |}
  = (Raise ValueError, {| Metrics.sqls := ∅; Metrics.cond_lists := ∅ |}).
Proof.
  apply (compute_metrics_em_always no_externals wikisql ["x"]
           (Metrics.Lists (Metrics.Records [[]; []])) ["f1"] "en" _ ValueError).
  - apply (bool_decide_unpack _). vm_compute. exact I.
  - apply (bool_decide_unpack _). vm_compute. exact I.
  - reflexivity.
Defined.

Lemma collect_metrics_answer (ext : Metrics.externals) (greedy : list string)
    (requested_metrics : list string) (lang : string)
    (st : list string * list Q * Metrics.nested) (kv : list string * list Q)
    (answer' : Metrics.nested) :
  Metrics.wanted "joint_goal_em" requested_metrics = false ->
  Metrics.collect_metrics ext greedy requested_metrics lang st = Ok (kv, answer') ->
  answer' = st.2.
Proof.
  intros Hj. destruct st as [[metric_keys metric_values] answer].
  unfold Metrics.collect_metrics. rewrite Hj. cbn [mbind result_bind snd].
  repeat match goal with
         | |- (_ ≫= _) = Ok _ -> _ =>
             match goal with
             | |- (?m ≫= _) = _ -> _ => destruct m as [?|]; [|done]; cbn [mbind result_bind]
             end
         end.
  by intros [= _ <-].
Qed.

(** X13. Unless [lfem] or [joint_goal_em] is requested, [compute_metrics]
    changes nothing and returns, beside the scores, the answers it was
    given: as they are when they are lists already, each in a list of its
    own when they are plain strings. *)
Theorem compute_metrics_answers (ext : Metrics.externals) (query : Metrics.Query)
    (greedy : list string) (answer : Metrics.answers) (requested_metrics : list string)
    (lang : string) (h h' : Metrics.heap) (metric_dict : list (string * Q))
    (answer' : Metrics.nested) :
  "lfem" ∉ requested_metrics -> "joint_goal_em" ∉ requested_metrics ->
  Metrics.compute_metrics ext query greedy answer requested_metrics lang h
  = (Ok (metric_dict, answer'), h') ->
  Metrics.wrap answer = Ok answer' /\ h' = h.
Proof.
  intros Hl Hj.
  assert (Metrics.wanted "lfem" requested_metrics = false) as Hl'
    by (by apply bool_decide_eq_false).
  assert (Metrics.wanted "joint_goal_em" requested_metrics = false) as Hj'
    by (by apply bool_decide_eq_false).
  unfold Metrics.compute_metrics, Metrics.compute_scores.
  destruct (Metrics.wrap answer) as [answer0|]; [|done].
  rewrite Hl'. cbn [mbind result_bind].
  destruct (Metrics.collect_metrics _ _ _ _ _) as [[kv a]|] eqn:Hc; [|done].
  apply collect_metrics_answer in Hc; [|done]. cbn [snd] in Hc. subst a.
  cbn [mbind result_bind].
  destruct (Metrics.select_metrics requested_metrics kv); [|done].
  cbn [mbind result_bind]. by intros [= _ <- <-].
Qed.

Lemma compute_metrics_answers_witness :
  Metrics.compute_metrics no_externals wikisql ["x y"; "z"]
    (Metrics.Texts ["x y"; "w"]) ["em"; "nf1"] "en"
    {| Metrics.sqls := ∅; Metrics.cond_lists := ∅ |}
  = (Ok ([("em", (100 # 2)%Q); ("nf1", (3200 # 64)%Q)], Metrics.TextLists [["x y"]; ["w"]]),
     {| Metrics.sqls := ∅; Metrics.cond_lists := ∅ |}) /\
  Metrics.wrap (Metrics.Texts ["x y"; "w"]) = Ok (Metrics.TextLists [["x y"]; ["w"]]).
Proof.
  assert (Metrics.compute_metrics no_externals wikisql ["x y"; "z"]
            (Metrics.Texts ["x y"; "w"]) ["em"; "nf1"] "en"
            {| Metrics.sqls := ∅; Metrics.cond_lists := ∅ |}
          = (Ok ([("em", (100 # 2)%Q); ("nf1", (3200 # 64)%Q)],
                 Metrics.TextLists [["x y"]; ["w"]]),
             {| Metrics.sqls := ∅; Metrics.cond_lists := ∅ |})) as H
    by (vm_compute; reflexivity).
  split; [exact H|].
  refine (proj1 (compute_metrics_answers _ _ _ _ _ _ _ _ _ _ _ _ H));
    apply (bool_decide_unpack _); vm_compute; exact I.
Defined.

(** ** The references of the BLEU and TER scorers *)

Lemma index_nat {A} (l : list A) (i : nat) :
  index l (Z.of_nat i) = match l !! i with Some x => Ok x | None => Raise IndexError end.
Proof.
  unfold index. assert ((Z.of_nat i <? 0) = false) as E by (apply Z.ltb_ge; lia).
  rewrite E. cbn zeta. by rewrite E, Nat2Z.id.
Qed.

Lemma traverse_only_raises {A B} (f : A -> result B) (l : list A) (e0 : exn) :
  (forall x e, f x = Raise e -> e = e0) ->
  forall e, traverse f l = Raise e -> e = e0.
Proof.
  intros Hf e He. pose proof (traverse_cases f l) as Hc. rewrite He in Hc.
  apply Exists_exists in Hc as (x & _ & Hx). by apply (Hf x).
Qed.

Lemma references_at (targets : list (list string)) (i : nat) :
  traverse (fun t => index t (Z.of_nat i)) targets
  = if forallb (fun t : list string => (i <? length t)%nat) targets
    then Ok (map (fun t : list string => default "" (t !! i)) targets)
    else Raise IndexError.
Proof.
  induction targets as [|t targets IH]; [done|].
  cbn [traverse forallb map]. rewrite index_nat, IH.
  destruct (Nat.ltb_spec i (length t)) as [Hlt|Hge].
  - destruct (lookup_lt_is_Some_2 t i Hlt) as [x ->]. cbn [andb default].
    by destruct (forallb _ targets).
  - by rewrite lookup_ge_None_2.
Qed.

(** The references regrouped by position, as the BLEU and TER scorers pass
    them on. *)
Lemma by_reference_eval (t0 : list string) (targets : list (list string)) :
  Metrics.by_reference (t0 :: targets)
  = if forallb (fun t : list string => (length t0 <=? length t)%nat) targets
    then Ok (map (fun i => map (fun t : list string => default "" (t !! i)) (t0 :: targets))
                 (seq 0 (length t0)))
    else Raise IndexError.
Proof.
  unfold Metrics.by_reference. cbn [index]. cbn [mbind result_bind].
  change (index (t0 :: targets) 0) with (Ok (A := list string) t0).
  cbn [mbind result_bind].
  destruct (forallb _ targets) eqn:Hall.
  - rewrite <- traverse_ok. apply traverse_ext, Forall_forall.
    intros i Hi%elem_of_seq. rewrite references_at.
    assert (forallb (fun t : list string => (i <? length t)%nat) (t0 :: targets) = true) as ->;
      [|done].
    cbn [forallb]. apply andb_true_iff. split; [apply Nat.ltb_lt; lia|].
    apply forallb_forall. intros t Ht.
    apply (proj1 (forallb_forall _ _) Hall) in Ht.
    apply Nat.leb_le in Ht. apply Nat.ltb_lt. lia.
  - pose proof (traverse_cases
                  (fun i => traverse (fun t : list string => index t (Z.of_nat i)) (t0 :: targets))
                  (seq 0 (length t0))) as Hc.
    destruct (traverse _ (seq 0 (length t0))) as [rows|e] eqn:Ht.
    + exfalso. apply not_true_iff_false in Hall. apply Hall, forallb_forall.
      intros t Hin. apply Nat.leb_le.
      destruct (Nat.le_gt_cases (length t0) (length t)) as [|Hlt]; [done|exfalso].
      assert (length t ∈ seq 0 (length t0)) as Hi by (apply elem_of_seq; lia).
      apply list_elem_of_lookup in Hi as [k Hk].
      destruct (Forall2_lookup_l _ _ _ _ _ Hc Hk) as (row & _ & Hrow).
      rewrite references_at in Hrow.
      assert (forallb (fun t' : list string => (length t <? length t')%nat) (t0 :: targets)
              = false) as Hf; [|by rewrite Hf in Hrow].
      apply not_true_iff_false. intros Hf.
      assert (In t (t0 :: targets)) as Hin' by (by right).
      apply (proj1 (forallb_forall _ _) Hf) in Hin'. apply Nat.ltb_lt in Hin'. lia.
    + f_equal. apply (traverse_only_raises _ _ IndexError) in Ht; [done|].
      intros i e' He'. rewrite references_at in He'.
      destruct (forallb _ (t0 :: targets)); congruence.
Qed.

(** X14. The scorers [computeBLEU], [computeT5BLEU] and [computeTER] regroup
    the references by position, reference [i] of every example together.
    The number of positions is the number of references of the first
    example: an example with fewer references than the first raises
    [IndexError], and what a later example has beyond that number is
    dropped.  With no example at all the three raise [IndexError]. *)
Theorem computeBLEU_references (ext : Metrics.externals) (outputs : list string)
    (t0 : list string) (targets : list (list string)) :
  let refs :=
    map (fun i => map (fun t : list string => default "" (t !! i)) (t0 :: targets))
        (seq 0 (length t0)) in
  (Metrics.computeBLEU ext outputs [] = Raise IndexError /\
   Metrics.computeT5BLEU ext outputs [] = Raise IndexError /\
   Metrics.computeTER ext outputs [] = Raise IndexError) /\
  if forallb (fun t : list string => (length t0 <=? length t)%nat) targets then
    Metrics.computeBLEU ext outputs (t0 :: targets)
    = Metrics.corpus_bleu ext true "13a" outputs refs /\
    Metrics.computeT5BLEU ext outputs (t0 :: targets)
    = Metrics.corpus_bleu ext false "intl" outputs refs /\
    Metrics.computeTER ext outputs (t0 :: targets)
    = (score ← Metrics.ter_corpus_score ext outputs refs; Ok (score * 100)%Q)
  else
    Metrics.computeBLEU ext outputs (t0 :: targets) = Raise IndexError /\
    Metrics.computeT5BLEU ext outputs (t0 :: targets) = Raise IndexError /\
    Metrics.computeTER ext outputs (t0 :: targets) = Raise IndexError.
Proof.
  intros refs. split; [by repeat split|].
  unfold Metrics.computeBLEU, Metrics.computeT5BLEU, Metrics.computeTER.
  rewrite by_reference_eval. fold refs.
  by destruct (forallb _ targets).
Qed.

(** ** The shape of a normalised text *)

(** X15. A text that [normalize_text] returns has none of the letters [A]
    to [Z] and no character of [string.punctuation], its words are
    separated by single spaces with none at either end, and none of its
    words is an article ([a], [an], [the]). *)
Theorem normalize_text_shape (s : string) :
  let t := Metrics.normalize_text s in
  all_chars (fun c => negb (Str.is_upper c) && negb (Str.is_punct c)) t = true /\
  Str.join " " (Str.split t) = t /\
  Forall (fun w => w ∉ ["a"; "an"; "the"]) (Str.split t).
Proof.
  intros t.
  assert (all_chars plain t = true) as Hplain.
  { apply all_chars_white_space_fix; [done|].
    apply all_chars_remove_articles; [done|]. apply plain_remove_punc_lower. }
  assert (clean false t = true) as Hclean.
  { apply clean_white_space_fix, clean_remove_articles. }
  assert (Str.join " " (Str.split t) = t) as Hjoin.
  { apply (white_space_fix_idem
             (Metrics.remove_articles (Metrics.remove_punc (Metrics.lower s)))). }
  split; [exact Hplain|]. split; [exact Hjoin|].
  rewrite <- Hjoin, clean_join in Hclean.
  apply Forall_forall. intros w Hw%list_elem_of_In.
  apply (proj1 (forallb_forall _ _) Hclean) in Hw.
  intros Hart. repeat (apply elem_of_cons in Hart as [->|Hart]; [by vm_compute in Hw|]).
  by apply elem_of_nil in Hart.
Qed.

(** ** [to_lf]: the selected column *)

Lemma find_sel_cons (x : string * Z) (l : list (string * Z)) (s : string) (sel : option Z) :
  Metrics.find_sel (x :: l) s sel
  = Metrics.find_sel l s (if decide (x.1 = s) then Some x.2 else sel).
Proof. by destruct x. Qed.

Lemma find_sel_app (l : list (string * Z)) (x : string * Z) (s : string) (sel : option Z) :
  Metrics.find_sel (l ++ [x]) s sel
  = if decide (x.1 = s) then Some x.2 else Metrics.find_sel l s sel.
Proof. unfold Metrics.find_sel. rewrite fold_left_app. by destruct x. Qed.

Lemma find_sel_filter (l : list (string * Z)) (s : string) (sel : option Z) :
  Metrics.find_sel l s sel
  = Metrics.find_sel (filter (fun x : string * Z => x.1 = s) l) s sel.
Proof.
  revert sel. induction l as [|x l IH]; intros sel; [done|].
  rewrite find_sel_cons. destruct (decide (x.1 = s)) as [Hx|Hx].
  - rewrite filter_cons_True by done. rewrite find_sel_cons, decide_True by done. apply IH.
  - rewrite filter_cons_False by done. apply IH.
Qed.

(** A stable sort keeps the order of the elements that have the same key. *)
Lemma filter_insert_desc {A} (key : A -> nat) (P : A -> Prop) `{!forall x, Decision (P x)}
    (x : A) (l : list A) :
  (forall a b, P a -> P b -> key a = key b) ->
  filter P (insert_desc key x l) = filter P (x :: l).
Proof.
  intros Hkey. induction l as [|y l IH]; [done|].
  cbn [insert_desc]. destruct (Nat.ltb_spec (key x) (key y)) as [Hlt|_]; [|done].
  destruct (decide (P y)) as [Hy|Hy].
  - assert (~ P x) as Hx by (intros Hx; specialize (Hkey x y Hx Hy); lia).
    rewrite (filter_cons_True P y) by done. rewrite IH.
    by rewrite !(filter_cons_False P x), (filter_cons_True P y) by done.
  - rewrite (filter_cons_False P y) by done. rewrite IH.
    destruct (decide (P x)).
    + by rewrite !(filter_cons_True P x), (filter_cons_False P y) by done.
    + by rewrite !(filter_cons_False P x), (filter_cons_False P y) by done.
Qed.

Lemma filter_sort_desc {A} (key : A -> nat) (P : A -> Prop) `{!forall x, Decision (P x)}
    (l : list A) :
  (forall a b, P a -> P b -> key a = key b) ->
  filter P (sort_desc key l) = filter P l.
Proof.
  intros Hkey. induction l as [|x l IH]; [done|].
  cbn [sort_desc foldr]. rewrite filter_insert_desc by done.
  destruct (decide (P x)).
  - rewrite !(filter_cons_True P x) by done. f_equal. exact IH.
  - rewrite !(filter_cons_False P x) by done. exact IH.
Qed.

(** The sort of the headers by length has no part in the choice of the
    column. *)
Lemma find_sel_sorted (l : list (string * Z)) (s : string) (sel : option Z) :
  Metrics.find_sel (sort_desc (fun x : string * Z => String.length x.1) l) s sel
  = Metrics.find_sel l s sel.
Proof.
  rewrite find_sel_filter, filter_sort_desc, <- find_sel_filter; [done|].
  intros a b Ha Hb. cbn beta. by rewrite Ha, Hb.
Qed.

(** The column [i] is the last one with the name [name]. *)
Definition is_last_column (name : string) (cols : list string) (i : nat) : Prop :=
  cols !! i = Some name /\ forall j, (i < j)%nat -> cols !! j <> Some name.

Lemma find_sel_headers (table_header : list string) (name : string) (sel : option Z) :
  let headers_unsorted :=
    map (fun '(i, y) => (Str.lower y, i)) (enumerate table_header) in
  (forall i, is_last_column name (map Str.lower table_header) i ->
             Metrics.find_sel headers_unsorted name sel = Some (Z.of_nat i)) /\
  (name ∉ map Str.lower table_header ->
   Metrics.find_sel headers_unsorted name sel = sel).
Proof.
  induction table_header as [|y h IH] using rev_ind.
  - split; [by intros i [Hi _]|done].
  - cbn zeta in *. unfold enumerate in *. rewrite imap_app, !map_app.
    cbn [imap map]. rewrite find_sel_app. cbn [fst snd]. rewrite Nat.add_0_r.
    destruct IH as [IHlast IHnone].
    destruct (decide (Str.lower y = name)) as [Hy|Hy]; split.
    + intros i [Hi Hlast]. f_equal. f_equal.
      destruct (Nat.lt_trichotomy i (length h)) as [Hlt|[->|Hgt]]; [|done|].
      * exfalso. apply (Hlast (length h) Hlt).
        rewrite lookup_app_r by (by rewrite length_map).
        by rewrite length_map, Nat.sub_diag, <- Hy.
      * apply lookup_lt_Some in Hi. rewrite length_app, length_map in Hi. simpl in Hi. lia.
    + intros Hnot. exfalso. apply Hnot. apply elem_of_app. right. rewrite Hy. by left.
    + intros i [Hi Hlast]. apply IHlast. split.
      * apply lookup_app_Some in Hi as [Hi|[Hge Hi]]; [done|].
        rewrite length_map in Hi, Hge.
        destruct (i - length h)%nat; simpl in Hi; [congruence|done].
      * intros j Hj Hcol. apply (Hlast j Hj). by rewrite lookup_app_l_Some with (x := name).
    + intros Hnot. apply IHnone. intros Hin. apply Hnot, elem_of_app. by left.
Qed.

(** X23. A prediction without [where] whose words between the first and
    the last two are the lowercased name of a column: [to_lf] selects the
    last column of that name, with no aggregation and no condition. *)
Theorem to_lf_column (query : Metrics.Query) (s : string) (table_header : list string)
    (i : nat) :
  Str.contains "where" s = false ->
  is_last_column (Str.join " " (Metrics.slice_1_m2 (Str.split s)))
                 (map Str.lower table_header) i ->
  Metrics.to_lf query s table_header
  = Ok {| Metrics.lf_sel := Some (Z.of_nat i); Metrics.lf_conds := [];
          Metrics.lf_agg := 0 |}.
Proof.
  intros Hwhere Hlast. unfold Metrics.to_lf. rewrite Hwhere.
  rewrite find_sel_sorted.
  by rewrite (proj1 (find_sel_headers table_header _ None) i Hlast).
Qed.

Lemma to_lf_column_witness :
  Metrics.to_lf wikisql "select age from table" ["Name"; "Age"; "AGE"]
  = Ok {| Metrics.lf_sel := Some 2; Metrics.lf_conds := []; Metrics.lf_agg := 0 |}.
Proof.
  apply (to_lf_column wikisql "select age from table" ["Name"; "Age"; "AGE"] 2).
  - reflexivity.
  - split; [reflexivity|]. intros j Hj.
    rewrite lookup_ge_None_2; [done|]. simpl. lia.
Defined.

(** X24. A prediction without [where] whose words between the first and
    the last two are no column name: the first of them is looked up among
    the lowercased aggregation operators ([IndexError] when there is no
    word, [KeyError] when the word is no operator), and the words after it
    name the column, which is [None] when there is no such column. *)
Theorem to_lf_aggregate (query : Metrics.Query) (s : string) (table_header : list string) :
  let name := Str.join " " (Metrics.slice_1_m2 (Str.split s)) in
  let cols := map Str.lower table_header in
  Str.contains "where" s = false ->
  name ∉ cols ->
  match Metrics.to_lf query s table_header with
  | Ok lf =>
      exists op rest,
        Str.split name = op :: rest /\
        Metrics.index_dict (map Str.lower (Metrics.agg_ops query)) !! op
        = Some (Metrics.lf_agg lf) /\
        Metrics.lf_conds lf = [] /\
        match Metrics.lf_sel lf with
        | Some sel => exists i, sel = Z.of_nat i /\ is_last_column (Str.join " " rest) cols i
        | None => Str.join " " rest ∉ cols
        end
  | Raise e =>
      (e = IndexError /\ Str.split name = []) \/
      (e = KeyError /\ exists op rest,
         Str.split name = op :: rest /\
         Metrics.index_dict (map Str.lower (Metrics.agg_ops query)) !! op = None)
  end.
Proof.
  intros name cols Hwhere Hname. unfold Metrics.to_lf. rewrite Hwhere.
  rewrite find_sel_sorted. fold name.
  rewrite (proj2 (find_sel_headers table_header name None) Hname).
  destruct (Str.split name) as [|op rest] eqn:Hsplit; [by left|].
  change (index (op :: rest) 0) with (Ok (A := string) op). cbn [mbind result_bind].
  unfold getitem.
  destruct (Metrics.index_dict (map Str.lower (Metrics.agg_ops query)) !! op) as [agg|] eqn:Hop.
  2:{ right. split; [done|]. by exists op, rest. }
  cbn [mbind result_bind List.skipn]. rewrite find_sel_sorted.
  change (List.skipn 0 rest) with rest.
  exists op, rest. split; [done|]. split; [done|]. split; [done|].
  cbn [Metrics.lf_sel].
  destruct (decide (Str.join " " rest ∈ cols)) as [Hin|Hnot].
  - assert (exists i, is_last_column (Str.join " " rest) cols i) as [i Hi].
    { clear -Hin. induction cols as [|c cols IH] using rev_ind;
        [by apply elem_of_nil in Hin|].
      destruct (decide (c = Str.join " " rest)) as [->|Hc].
      - exists (length cols). split.
        + by rewrite lookup_app_r, Nat.sub_diag.
        + intros j Hj. rewrite lookup_ge_None_2; [done|]. rewrite length_app. simpl. lia.
      - apply elem_of_app in Hin as [Hin|Hin%list_elem_of_singleton]; [|done].
        destruct (IH Hin) as [i [Hi Hlast]]. exists i. split.
        + by apply lookup_app_l_Some.
        + intros j Hj Hcol. apply lookup_app_Some in Hcol as [Hcol|[Hge Hcol]].
          * by apply (Hlast j).
          * destruct (j - length cols)%nat; simpl in Hcol; [congruence|done]. }
    rewrite (proj1 (find_sel_headers table_header _ None) i Hi). by exists i.
  - by rewrite (proj2 (find_sel_headers table_header _ None) Hnot).
Qed.

Lemma to_lf_aggregate_witness :
  let name := Str.join " " (Metrics.slice_1_m2 (Str.split "select count name from table")) in
  let cols := map Str.lower ["Name"; "Age"] in
  (name ∉ cols) /\
  match Metrics.to_lf wikisql "select count name from table" ["Name"; "Age"] with
  | Ok lf =>
      exists op rest,
        Str.split name = op :: rest /\
        Metrics.index_dict (map Str.lower (Metrics.agg_ops wikisql)) !! op
        = Some (Metrics.lf_agg lf) /\
        Metrics.lf_conds lf = [] /\
        match Metrics.lf_sel lf with
        | Some sel => exists i, sel = Z.of_nat i /\ is_last_column (Str.join " " rest) cols i
        | None => Str.join " " rest ∉ cols
        end
  | Raise e =>
      (e = IndexError /\ Str.split name = []) \/
      (e = KeyError /\ exists op rest,
         Str.split name = op :: rest /\
         Metrics.index_dict (map Str.lower (Metrics.agg_ops wikisql)) !! op = None)
  end.
Proof.
  assert (Str.join " " (Metrics.slice_1_m2 (Str.split "select count name from table"))
          ∉ map Str.lower ["Name"; "Age"]) as H
    by (apply (bool_decide_unpack _); vm_compute; exact I).
  split; [exact H|].
  exact (to_lf_aggregate wikisql "select count name from table" ["Name"; "Age"] eq_refl H).
Defined.

Example to_lf_count_name :
  Metrics.to_lf wikisql "select count name from table" ["Name"; "Age"]
  = Ok {| Metrics.lf_sel := Some 0; Metrics.lf_conds := []; Metrics.lf_agg := 3 |}.
Proof. vm_compute. reflexivity. Qed.

(** ** [computeROUGE] *)

Lemma average_keys (rouges : list (gmap string Q)) (keys : list string)
    (avg0 : gmap string Q) :
  rouges <> [] ->
  exists avg,
    fold_result
      (fun (avg_rouges : gmap string Q) (key : string) =>
         q ← fdiv (sum_floats (map (fun r : gmap string Q => default (inject_Z 0) (r !! key))
                                  rouges))
                  (inject_Z (len rouges));
         Ok (<[key := (q * 100)%Q]> avg_rouges))
      keys avg0 = Ok avg /\
    forall key,
      avg !! key
      = if bool_decide (key ∈ keys)
        then Some (sum_floats (map (fun r : gmap string Q => default (inject_Z 0) (r !! key))
                                   rouges)
                   / inject_Z (len rouges) * 100)%Q
        else avg0 !! key.
Proof.
  intros Hne.
  assert (~ (inject_Z (len rouges) == 0)%Q) as Hn.
  { unfold len, Qeq. cbn [Qnum Qden inject_Z]. destruct rouges; [done|]. simpl length. lia. }
  revert avg0. induction keys as [|k keys IH]; intros avg0.
  - exists avg0. split; [done|]. intros key. by rewrite bool_decide_eq_false_2 by apply not_elem_of_nil.
  - cbn [fold_result]. rewrite fdiv_ok by done. cbn [mbind result_bind].
    destruct (IH (<[k := (sum_floats (map (fun r : gmap string Q =>
                                             default (inject_Z 0) (r !! k)) rouges)
                          / inject_Z (len rouges) * 100)%Q]> avg0)) as (avg & -> & Havg).
    exists avg. split; [done|]. intros key. rewrite Havg.
    destruct (decide (key ∈ keys)) as [Hin|Hnot].
    + rewrite !bool_decide_eq_true_2; [done|by right|done].
    + rewrite (bool_decide_eq_false_2 (key ∈ keys)) by done.
      destruct (decide (key = k)) as [->|Hk].
      * rewrite bool_decide_eq_true_2 by (by left). by rewrite lookup_insert_eq.
      * rewrite bool_decide_eq_false_2 by (by intros [?|?]%elem_of_cons).
        by rewrite lookup_insert_ne.
Qed.

(** X25. [computeROUGE] averages the scores of the examples under the keys
    of the first example: a key that only a later example has is dropped,
    and an example without one of these keys counts with 0 for it. *)
Theorem computeROUGE_keys (ext : Metrics.externals) (greedy : list string)
    (answer : list (list string)) (r0 : gmap string Q) (rouges : list (gmap string Q)) :
  Metrics.compute_rouge_scores ext greedy answer = Ok (r0 :: rouges) ->
  exists avg_rouges,
    Metrics.computeROUGE ext greedy answer = Ok (Some avg_rouges) /\
    forall key,
      avg_rouges !! key
      = match r0 !! key with
        | Some _ =>
            Some (sum_floats (map (fun r : gmap string Q => default (inject_Z 0) (r !! key))
                                  (r0 :: rouges))
                  / inject_Z (len (r0 :: rouges)) * 100)%Q
        | None => None
        end.
Proof.
  intros Hscores. unfold Metrics.computeROUGE. rewrite Hscores. cbn [mbind result_bind].
  destruct (average_keys (r0 :: rouges) (map fst (map_to_list r0)) ∅) as (avg & -> & Havg);
    [done|].
  exists avg. split; [done|]. intros key. rewrite Havg.
  destruct (r0 !! key) as [v|] eqn:E.
  - rewrite bool_decide_eq_true_2; [done|].
    apply list_elem_of_fmap. exists (key, v). split; [done|]. by apply elem_of_map_to_list.
  - rewrite bool_decide_eq_false_2; [done|].
    intros ([k v] & -> & Hin)%list_elem_of_fmap. apply elem_of_map_to_list in Hin.
    simpl in E. congruence.
Qed.

(** A ROUGE scorer that gives every summary the number of its sentences. *)
Definition sentence_count_rouge : Metrics.externals :=
  {| Metrics.foreign_score := fun _ _ _ _ => Raise TypeError;
     Metrics.requote_program := fun s => s;
     Metrics.precision_metric := fun _ _ => Raise ValueError;
     Metrics.recall_metric := fun _ _ => Raise ValueError;
     Metrics.f1_metric := fun _ _ => Raise ValueError;
     Metrics.bertscore_metric := fun _ _ _ => Raise ValueError;
     Metrics.ter_corpus_score := fun _ _ => Raise ValueError;
     Metrics.corpus_bleu := fun _ _ _ _ => Raise ValueError;
     Metrics.sacrebleu_metric := fun _ _ => Raise ValueError;
     Metrics.bleu_metric := fun _ _ => Raise ValueError;
     Metrics.score_summary := fun s _ => Ok {[ "rouge_1_f_score" := inject_Z (len s) ]};
     Metrics.seqeval_f1_score := fun _ _ _ => Raise ValueError |}.

Lemma computeROUGE_keys_witness :
  exists avg_rouges,
    Metrics.computeROUGE sentence_count_rouge ["a b. c"; "d"] [["a"]; ["d. e"]]
    = Ok (Some avg_rouges) /\
    forall key,
      avg_rouges !! key
      = match ({[ "rouge_1_f_score" := inject_Z 2 ]} : gmap string Q) !! key with
        | Some _ =>
            Some (sum_floats
                    (map (fun r : gmap string Q => default (inject_Z 0) (r !! key))
                         [ {[ "rouge_1_f_score" := inject_Z 2 ]};
                           {[ "rouge_1_f_score" := inject_Z 1 ]} ])
                  / inject_Z (len [ ({[ "rouge_1_f_score" := inject_Z 2 ]} : gmap string Q);
                                    {[ "rouge_1_f_score" := inject_Z 1 ]} ]) * 100)%Q
        | None => None
        end.
Proof.
  apply (computeROUGE_keys sentence_count_rouge ["a b. c"; "d"] [["a"]; ["d. e"]]).
  vm_compute. reflexivity.
Defined.

(** * Further properties of [ned/main.py] *)

(** ** [lookup_entities] *)

Lemma slice_assign_grows {A} (l new : list A) (beg end_ : Z) :
  0 <= beg <= end_ -> end_ - beg <= len new ->
  (length l <= length (Ned.slice_assign l beg end_ new))%nat.
Proof.
  unfold Ned.slice_assign, Ned.clip, len. intros Hb Hn.
  destruct (Z.ltb_spec beg 0); [lia|].
  rewrite !length_app, length_take, length_drop.
  destruct (Z.ltb_spec end_ 0); lia.
Qed.

Lemma times_width (self : Ned.disambiguator) (x m : Z) :
  Forall (fun entry : list Z => length entry = Z.to_nat (Ned.max_features_size self))
         (Ned.times (Ned.times x (Ned.max_features_size self)) m).
Proof.
  apply Forall_forall. intros entry Hin%elem_of_replicate.
  destruct Hin as [-> _]. apply length_times.
Qed.

Lemma split_on_nonempty (sep : ascii) (s : string) : Str.split_on sep s <> [].
Proof.
  destruct s as [|c r]; [done|]. cbn [Str.split_on].
  destruct (Ascii.eqb c sep); [done|]. by destruct (Str.split_on sep r).
Qed.

(** One entity: what [label_entity] leaves, and when it raises. *)
Lemma label_entity_shape (self : Ned.disambiguator) (tokens_text : string)
    (tokens_type_ids : list (list Z)) (ent : string) :
  Forall (fun entry : list Z => length entry = Z.to_nat (Ned.max_features_size self))
         tokens_type_ids ->
  match Ned.label_entity self tokens_text tokens_type_ids ent with
  | Ok r =>
      Forall (fun entry : list Z => length entry = Z.to_nat (Ned.max_features_size self)) r /\
      (length tokens_type_ids <= length r)%nat
  | Raise e =>
      Ned.member ent (Ned.all_aliases self) = true /\
      ((e = ValueError /\ Str.find ent tokens_text = None) \/
       (e = KeyError /\ Ned.alias2type self !! ent = None))
  end.
Proof.
  intros Hall. unfold Ned.label_entity.
  destruct (Ned.member ent (Ned.all_aliases self)); cbn [negb]; [|done].
  unfold Str.index. destruct (Str.find ent tokens_text) as [idx|]; cbn [mbind result_bind].
  2:{ split; [done|]. by left. }
  unfold getitem. destruct (Ned.alias2type self !! ent) as [type|]; cbn [mbind result_bind].
  2:{ split; [done|]. by right. }
  split.
  - apply slice_assign_Forall; [done|apply times_width].
  - pose proof (split_on_nonempty " " ent) as Hne.
    apply slice_assign_grows; unfold len; [lia|].
    rewrite length_times. destruct (Str.split_on " " ent); [done|]. simpl length. lia.
Qed.

Lemma label_entities_shape (self : Ned.disambiguator) (tokens_text : string)
    (entities : list string) (tokens_type_ids : list (list Z)) :
  Forall (fun entry : list Z => length entry = Z.to_nat (Ned.max_features_size self))
         tokens_type_ids ->
  match fold_result (Ned.label_entity self tokens_text) entities tokens_type_ids with
  | Ok r =>
      Forall (fun entry : list Z => length entry = Z.to_nat (Ned.max_features_size self)) r /\
      (length tokens_type_ids <= length r)%nat
  | Raise e =>
      Exists (fun ent =>
                Ned.member ent (Ned.all_aliases self) = true /\
                ((e = ValueError /\ Str.find ent tokens_text = None) \/
                 (e = KeyError /\ Ned.alias2type self !! ent = None))) entities
  end.
Proof.
  revert tokens_type_ids. induction entities as [|ent entities IH]; intros l Hl; [done|].
  cbn [fold_result]. pose proof (label_entity_shape self tokens_text l ent Hl) as Hone.
  destruct (Ned.label_entity self tokens_text l ent) as [l'|e]; [|by left].
  destruct Hone as [Hl' Hlen]. specialize (IH l' Hl').
  destruct (fold_result _ entities l') as [r|e]; [|by right].
  destruct IH as [Hr Hlen']. split; [done|lia].
Qed.

(** X16. [lookup_entities] gives every entry exactly [max_features_size]
    identifiers, and at least one entry for each token.  An entity that is
    no alias is passed over; the call raises [ValueError] for an alias that
    does not occur in the sentence and [KeyError] for an alias without a
    type, and for nothing else. *)
Theorem lookup_entities_shape (self : Ned.disambiguator) (tokens entities : list string) :
  match Ned.lookup_entities self tokens entities with
  | Ok tokens_type_ids =>
      Forall (fun entry : list Z => length entry = Z.to_nat (Ned.max_features_size self))
             tokens_type_ids /\
      (length tokens <= length tokens_type_ids)%nat
  | Raise e =>
      Exists (fun ent =>
                Ned.member ent (Ned.all_aliases self) = true /\
                ((e = ValueError /\ Str.find ent (Str.join " " tokens) = None) \/
                 (e = KeyError /\ Ned.alias2type self !! ent = None))) entities
  end.
Proof.
  unfold Ned.lookup_entities.
  pose proof (label_entities_shape self (Str.join " " tokens) entities
                (Ned.times (Ned.times (Ned.unk_id self) (Ned.max_features_size self))
                           (len tokens)) (times_width self _ _)) as H.
  destruct (fold_result _ entities _) as [r|e]; [|done].
  destruct H as [Hr Hlen]. split; [done|].
  rewrite length_times in Hlen. unfold len in Hlen. lia.
Qed.

(** *** Where an entity is written *)

Lemma take_cons (n : nat) (c : ascii) (r : string) :
  Str.take (S n) (String c r) = String c (Str.take n r).
Proof. done. Qed.

Lemma take_app_char (a : string) (c : ascii) (b : string) :
  Str.take (S (String.length a)) (a +:+ String c b) = a +:+ String c "".
Proof.
  induction a as [|x a IH]; [done|].
  rewrite !app_cons. change (String.length (String x a)) with (S (String.length a)).
  by rewrite take_cons, IH.
Qed.

Lemma rstrip_app_space (a : string) (c : ascii) :
  Str.is_space c = true -> Str.rstrip (a +:+ String c "") = Str.rstrip a.
Proof.
  intros Hc. induction a as [|x a IH].
  - rewrite app_nil. cbn [Str.rstrip]. by rewrite Hc.
  - rewrite app_cons. cbn [Str.rstrip]. by rewrite IH.
Qed.

Lemma rstrip_app (a b : string) :
  Str.rstrip b <> "" -> Str.rstrip (a +:+ b) = a +:+ Str.rstrip b.
Proof.
  intros Hb. induction a as [|x a IH]; [by rewrite !app_nil|].
  rewrite !app_cons. cbn [Str.rstrip]. rewrite IH.
  destruct (a +:+ Str.rstrip b) as [|y r] eqn:E; [|done].
  destruct a; [by rewrite app_nil in E|by rewrite app_cons in E].
Qed.

Lemma rstrip_token (w : string) : is_token w -> Str.rstrip w = w.
Proof.
  intros [Hne Hw]. induction w as [|c r IH]; [done|].
  cbn [all_chars] in Hw. apply andb_true_iff in Hw as [Hc Hr].
  cbn [Str.rstrip]. destruct r as [|d r'].
  - cbn [Str.rstrip]. by destruct (Str.is_space c).
  - by rewrite IH.
Qed.

Lemma join_cons (sep x y : string) (l : list string) :
  Str.join sep (x :: y :: l) = x +:+ sep +:+ Str.join sep (y :: l).
Proof. done. Qed.

Lemma join_tokens_nonempty (l : list string) :
  Forall is_token l -> l <> [] -> Str.join " " l <> "".
Proof.
  intros Hl Hne. destruct l as [|w l]; [done|].
  apply Forall_cons in Hl as [[Hw _] _].
  destruct l as [|y l]; [done|]. rewrite join_cons.
  destruct w; [done|]. by rewrite app_cons.
Qed.

Lemma rstrip_join (l : list string) :
  Forall is_token l -> Str.rstrip (Str.join " " l) = Str.join " " l.
Proof.
  induction 1 as [|w l Hw Hl IH]; [done|].
  destruct l as [|y l]; [by apply rstrip_token|].
  rewrite join_cons, rstrip_app; rewrite rstrip_app; rewrite IH; try done.
  all: by apply join_tokens_nonempty.
Qed.

Lemma lstrip_join (l : list string) :
  Forall is_token l -> Str.lstrip (Str.join " " l) = Str.join " " l.
Proof.
  intros Hl. destruct l as [|w l]; [done|].
  apply Forall_cons in Hl as [[Hne Hw] _].
  destruct w as [|c r]; [done|]. cbn [all_chars] in Hw.
  apply andb_true_iff in Hw as [Hc _]. apply negb_true_iff in Hc.
  destruct l as [|y l].
  - cbn [Str.join Str.lstrip]. by rewrite Hc.
  - rewrite join_cons, app_cons. cbn [Str.lstrip]. by rewrite Hc.
Qed.

Lemma split_on_token (w s : string) :
  all_chars (fun c => negb (Str.is_space c)) w = true ->
  Str.split_on " " (w +:+ String " " s) = w :: Str.split_on " " s.
Proof.
  induction w as [|c r IH]; intros Hw; [by rewrite app_nil|].
  cbn [all_chars] in Hw. apply andb_true_iff in Hw as [Hc Hr].
  rewrite app_cons. cbn [Str.split_on].
  destruct (Ascii.eqb c " ") eqn:E.
  { apply Ascii.eqb_eq in E as ->. done. }
  by rewrite (IH Hr).
Qed.

Lemma split_on_word (w : string) :
  all_chars (fun c => negb (Str.is_space c)) w = true -> Str.split_on " " w = [w].
Proof.
  induction w as [|c r IH]; intros Hw; [done|].
  cbn [all_chars] in Hw. apply andb_true_iff in Hw as [Hc Hr].
  cbn [Str.split_on].
  destruct (Ascii.eqb c " ") eqn:E.
  { apply Ascii.eqb_eq in E as ->. done. }
  by rewrite (IH Hr).
Qed.

Lemma split_on_join (l : list string) :
  Forall is_token l -> l <> [] -> Str.split_on " " (Str.join " " l) = l.
Proof.
  induction 1 as [|w l [Hne Hw] Hl IH]; [done|]. intros _.
  destruct l as [|y l]; [by apply split_on_word|].
  rewrite join_cons.
  change (w +:+ " " +:+ Str.join " " (y :: l)) with (w +:+ String " " (Str.join " " (y :: l))).
  rewrite split_on_token by done. by rewrite IH.
Qed.

(** The position [token_pos] that [lookup_entities] computes for an
    occurrence right after the tokens [pre]. *)
Lemma token_pos_after (pre : list string) (tail : string) :
  Forall is_token pre -> pre <> [] ->
  len (Str.split_on " "
         (Str.strip (Str.take (S (String.length (Str.join " " pre)))
                              (Str.join " " pre +:+ String " " tail))))
  = len pre.
Proof.
  intros Hpre Hne. rewrite take_app_char. unfold Str.strip.
  rewrite rstrip_app_space by done. rewrite rstrip_join, lstrip_join by done.
  by rewrite split_on_join.
Qed.

(** X17. [lookup_entities] finds the position of an entity from the text
    before its first occurrence in the sentence: when that occurrence comes
    right after the tokens [pre] (at least one, none of them empty or with
    whitespace inside), the entries of the entity are written from position
    [len(pre)] on, one for each of its words. *)
Theorem lookup_entities_position (self : Ned.disambiguator) (tokens pre : list string)
    (tail ent type : string) :
  Ned.member ent (Ned.all_aliases self) = true ->
  Ned.alias2type self !! ent = Some type ->
  Forall is_token pre -> pre <> [] ->
  Str.join " " tokens = Str.join " " pre +:+ String " " tail ->
  Str.find ent (Str.join " " tokens) = Some (S (String.length (Str.join " " pre))) ->
  let ent_num_tokens := len (Str.split_on " " ent) in
  let type_id := default (Ned.unk_id self) (Ned.typeqid2id self !! type) in
  Ned.lookup_entities self tokens [ent]
  = Ok (Ned.slice_assign
          (Ned.times (Ned.times (Ned.unk_id self) (Ned.max_features_size self)) (len tokens))
          (len pre) (len pre + ent_num_tokens)
          (Ned.times (Ned.times type_id (Ned.max_features_size self)) ent_num_tokens)).
Proof.
  intros Hmem Htype Hpre Hne Htext Hfind n type_id.
  unfold Ned.lookup_entities. cbn [fold_result]. unfold Ned.label_entity.
  rewrite Hmem. cbn [negb]. unfold Str.index. rewrite Hfind. cbn [mbind result_bind].
  rewrite (getitem_some _ _ _ Htype). cbn [mbind result_bind].
  rewrite Nat2Z.id, Htext, (token_pos_after pre tail Hpre Hne). done.
Qed.

Lemma lookup_entities_position_witness :
  Ned.lookup_entities city_self ["i"; "love"; "new"; "york"] ["new york"]
  = Ok [[0; 0]; [0; 0]; [5; 5]; [5; 5]].
Proof.
  assert (Forall is_token ["i"; "love"]) as Hpre by (repeat constructor; by vm_compute).
  rewrite (lookup_entities_position city_self ["i"; "love"; "new"; "york"] ["i"; "love"]
             "new york" "new york" "Q515"); try done.
Defined.

(** X18. The position is one too far for an entity at the very start of
    the sentence: the text before it is empty, and splitting the empty
    text on the space gives one (empty) piece.  The entries of the entity
    are written from position 1 on. *)
Theorem lookup_entities_at_start (self : Ned.disambiguator) (tokens : list string)
    (ent type : string) :
  Ned.member ent (Ned.all_aliases self) = true ->
  Ned.alias2type self !! ent = Some type ->
  Str.startswith ent (Str.join " " tokens) = true ->
  let ent_num_tokens := len (Str.split_on " " ent) in
  let type_id := default (Ned.unk_id self) (Ned.typeqid2id self !! type) in
  Ned.lookup_entities self tokens [ent]
  = Ok (Ned.slice_assign
          (Ned.times (Ned.times (Ned.unk_id self) (Ned.max_features_size self)) (len tokens))
          1 (1 + ent_num_tokens)
          (Ned.times (Ned.times type_id (Ned.max_features_size self)) ent_num_tokens)).
Proof.
  intros Hmem Htype Hstart n type_id.
  unfold Ned.lookup_entities. cbn [fold_result]. unfold Ned.label_entity.
  rewrite Hmem. cbn [negb]. unfold Str.index.
  assert (Str.find ent (Str.join " " tokens) = Some 0%nat) as ->.
  { destruct (Str.join " " tokens); cbn [Str.find]; by rewrite Hstart. }
  cbn [mbind result_bind]. rewrite (getitem_some _ _ _ Htype). cbn [mbind result_bind].
  assert (Str.take (Z.to_nat (Z.of_nat 0)) (Str.join " " tokens) = "") as ->
    by (by destruct (Str.join " " tokens)).
  done.
Qed.

Lemma lookup_entities_at_start_witness :
  Ned.lookup_entities city_self ["new"; "york"; "is"; "big"] ["new york"]
  = Ok [[0; 0]; [5; 5]; [5; 5]; [0; 0]].
Proof.
  rewrite (lookup_entities_at_start city_self ["new"; "york"; "is"; "big"] "new york" "Q515");
    done.
Defined.

(** A sentence that is the entity alone gets one entry more than it has
    tokens. *)
Example lookup_entities_grows :
  Ned.lookup_entities city_self ["new"; "york"] ["new york"] = Ok [[0; 0]; [5; 5]; [5; 5]].
Proof. vm_compute. reflexivity. Qed.

(** ** The lookup strategies at their edges *)

(** X19. When the upper bound on the entity length is below the lower bound
    and below the number of tokens, [lookup_ngrams] has no length to try:
    every token is left unknown. *)
Theorem lookup_ngrams_empty_range (self : Ned.disambiguator) (env : Ned.helpers)
    (tokens : list string) (min_entity_len max_entity_len : Z) :
  max_entity_len < min_entity_len -> max_entity_len < len tokens ->
  Ned.lookup_ngrams self env tokens min_entity_len max_entity_len
  = Ok (Ned.times (Ned.times (Ned.unk_id self) (Ned.max_features_size self)) (len tokens)).
Proof.
  intros Hlt Hlen. unfold Ned.lookup_ngrams, Ned.scan_ngrams, Ned.range_down.
  replace (Z.to_nat (Z.min max_entity_len (len tokens)
                     - Z.min min_entity_len (len tokens) + 1)) with 0%nat by lia.
  done.
Qed.

Lemma lookup_ngrams_empty_range_witness :
  Ned.lookup_ngrams city_self city_env city_tokens 4 2
  = Ok [[0; 0]; [0; 0]; [0; 0]; [0; 0]; [0; 0]; [0; 0]].
Proof.
  rewrite (lookup_ngrams_empty_range city_self city_env city_tokens 4 2); [done|lia|].
  unfold len. simpl. lia.
Defined.

Lemma insert_desc_perm {A} (key : A -> nat) (x : A) (l : list A) :
  insert_desc key x l ≡ₚ x :: l.
Proof.
  induction l as [|y l IH]; simpl; [done|].
  destruct (key x <? key y)%nat; [|done]. rewrite IH. apply Permutation_swap.
Qed.

Lemma sort_desc_perm {A} (key : A -> nat) (l : list A) : sort_desc key l ≡ₚ l.
Proof.
  induction l as [|x l IH]; simpl; [done|].
  rewrite insert_desc_perm. by rewrite IH.
Qed.

(** At an empty token no key with a word matches; a key without any word
    matches with no token at all. *)
Lemma try_keys_blank (self : Ned.disambiguator) (env : Ned.helpers)
    (rest matched_items : list string) :
  Ned.is_banned env "" = false ->
  Forall (fun key => is_Some (Ned.alias2type self !! key)) matched_items ->
  Exists (fun key => Str.split key = []) matched_items ->
  Ned.try_keys self env ("" :: rest) matched_items = Ok (Some (0%nat, [])).
Proof.
  intros Hban Hall Hex. induction Hall as [|key items [type Htype] _ IH].
  { by apply Exists_nil in Hex. }
  cbn [Ned.try_keys]. rewrite (getitem_some _ _ _ Htype), bind_ok.
  pose proof (split_tokens key) as Htok.
  destruct (Str.split key) as [|k ks] eqn:Hk.
  - cbn [Ned.match_tokens length Nat.eqb Str.join seq traverse]. by rewrite Hban.
  - apply Forall_cons in Htok as [[Hne _] _].
    cbn [Ned.match_tokens]. destruct (decide ("" = k)) as [<-|_]; [done|].
    cbn [length Nat.eqb]. apply IH.
    apply Exists_cons in Hex as [Hex|Hex]; [congruence|done].
Qed.

(** X20. [lookup_smaller] does not come to an end on a sentence that begins
    with an empty token (as [sentence.split(' ')] gives for a leading
    space) when the database has an alias without any word that is not
    banned: that alias matches with no token, the position does not move,
    and the loop starts over. *)
Theorem lookup_smaller_blank_alias (self : Ned.disambiguator) (env : Ned.helpers)
    (rest : list string) (blank : string) (min_entity_len max_entity_len : Z) (fuel : nat) :
  (forall key, key ∈ Ned.keys (Ned.all_aliases self) "" ->
               is_Some (Ned.alias2type self !! key)) ->
  blank ∈ Ned.keys (Ned.all_aliases self) "" -> Str.split blank = [] ->
  Ned.is_banned env "" = false ->
  Ned.lookup fuel self env ("" :: rest) (Some "smaller_first") min_entity_len max_entity_len
  = None.
Proof.
  intros Htyped Hblank Hsplit Hban. unfold Ned.lookup.
  rewrite decide_True by done. unfold Ned.lookup_smaller.
  generalize (@nil (list Z)). induction fuel as [|fuel IH]; intros acc; [done|].
  cbn [Ned.lookup_smaller_from length Nat.leb lookup default List.skipn].
  rewrite try_keys_blank; [|done| |].
  - rewrite Nat.add_0_r, app_nil_r. apply IH.
  - apply Forall_forall. intros key Hkey. apply Htyped.
    by rewrite sort_desc_perm in Hkey.
  - apply Exists_exists. exists blank. split; [|done]. by rewrite sort_desc_perm.
Qed.

Lemma lookup_smaller_blank_alias_witness :
  Ned.lookup 1000 blank_self city_env [""; "new"; "york"] (Some "smaller_first") 2 4 = None.
Proof.
  apply (lookup_smaller_blank_alias blank_self city_env ["new"; "york"] " " 2 4 1000).
  - intros key Hkey. apply (bool_decide_unpack _).
    assert (key ∈ [" "]) as ->%list_elem_of_singleton by exact Hkey.
    vm_compute. exact I.
  - apply (bool_decide_unpack _). vm_compute. exact I.
  - reflexivity.
  - reflexivity.
Defined.

(** ** [lookup_longer], one alias after the other *)

Lemma longest_alias_shift (self : Ned.disambiguator) (tokens : list string) (i width : nat) :
  Ned.longest_alias self tokens i width
  = match Ned.longest_alias self (List.skipn i tokens) 0 width with
    | Some (end_, tokens_str) => Some ((i + end_)%nat, tokens_str)
    | None => None
    end.
Proof.
  induction width as [|width IH]; [done|].
  cbn [Ned.longest_alias]. unfold Ned.slice.
  replace (i + S width - i)%nat with (S width) by lia.
  replace (0 + S width - 0)%nat with (S width) by lia.
  change (List.skipn 0 (List.skipn i tokens)) with (List.skipn i tokens).
  destruct (Ned.member _ (Ned.all_aliases self)); [done|]. exact IH.
Qed.

Lemma entries_const {A} (c : result A) (a b n : nat) :
  traverse (fun _ : nat => c) (seq a n) = traverse (fun _ : nat => c) (seq b n).
Proof.
  revert a b. induction n as [|n IH]; intros a b; [done|].
  cbn [seq traverse]. by rewrite (IH (S a) (S b)).
Qed.

(** What [lookup_longer] does from position [i] on is what it does on the
    tokens from [i] on. *)
Lemma lookup_longer_from_shift (self : Ned.disambiguator) (fuel : nat)
    (tokens : list string) (i : nat) (acc : list (list Z)) :
  Ned.lookup_longer_from fuel self tokens i acc
  = match Ned.lookup_longer_from fuel self (List.skipn i tokens) 0 [] with
    | Some (Ok r) => Some (Ok (acc ++ r))
    | Some (Raise e) => Some (Raise e)
    | None => None
    end.
Proof.
  revert tokens i acc. induction fuel as [|fuel IH]; intros tokens i acc.
  - cbn [Ned.lookup_longer_from]. rewrite length_skipn.
    destruct (Nat.leb_spec (length tokens) i) as [Hle|Hlt].
    + rewrite (proj2 (Nat.leb_le _ _)) by lia. by rewrite app_nil_r.
    + by rewrite (proj2 (Nat.leb_gt _ _)) by lia.
  - cbn [Ned.lookup_longer_from]. rewrite length_skipn.
    destruct (Nat.leb_spec (length tokens) i) as [Hle|Hlt].
    { rewrite (proj2 (Nat.leb_le _ _)) by lia. by rewrite app_nil_r. }
    rewrite (proj2 (Nat.leb_gt _ _)) by lia.
    rewrite longest_alias_shift, Nat.sub_0_r.
    destruct (Ned.longest_alias self (List.skipn i tokens) 0 (length tokens - i))
      as [[end_ tokens_str]|].
    + replace (i + end_ - i)%nat with end_ by lia. rewrite Nat.sub_0_r.
      rewrite (entries_const _ i 0).
      destruct (traverse _ (seq 0 end_)) as [entries|e]; [|done].
      rewrite (IH tokens (i + end_)%nat), (IH (List.skipn i tokens) end_).
      rewrite skipn_skipn, (Nat.add_comm end_ i).
      destruct (Ned.lookup_longer_from fuel self (List.skipn (i + end_) tokens) 0 [])
        as [[r|e]|]; [|done|done].
      by rewrite app_nil_l, app_assoc.
    + rewrite (IH tokens (i + 1)%nat), (IH (List.skipn i tokens) (0 + 1)%nat).
      rewrite skipn_skipn, (Nat.add_comm (0 + 1) i).
      destruct (Ned.lookup_longer_from fuel self (List.skipn (i + (0 + 1)) tokens) 0 [])
        as [[r|e]|] eqn:E; rewrite Nat.add_0_l in E; rewrite E; [|done|done].
      by rewrite app_nil_l, app_assoc.
Qed.

Lemma longest_alias_found (self : Ned.disambiguator) (tokens : list string) (w width : nat) :
  (1 <= w <= width)%nat ->
  Ned.member (Str.join " " (List.firstn w tokens)) (Ned.all_aliases self) = true ->
  (forall w', (w < w' <= width)%nat ->
     Ned.member (Str.join " " (List.firstn w' tokens)) (Ned.all_aliases self) = false) ->
  Ned.longest_alias self tokens 0 width = Some (w, Str.join " " (List.firstn w tokens)).
Proof.
  intros Hw Hmem Hmax. induction width as [|width IH]; [lia|].
  cbn [Ned.longest_alias]. unfold Ned.slice.
  replace (0 + S width - 0)%nat with (S width) by lia.
  change (List.skipn 0 tokens) with tokens.
  destruct (decide (w = S width)) as [->|Hne].
  - by rewrite Hmem.
  - rewrite (Hmax (S width)) by lia. apply IH; [lia|]. intros w' Hw'. apply Hmax. lia.
Qed.

Lemma longest_alias_none (self : Ned.disambiguator) (tokens : list string) (width : nat) :
  (forall w', (1 <= w' <= width)%nat ->
     Ned.member (Str.join " " (List.firstn w' tokens)) (Ned.all_aliases self) = false) ->
  Ned.longest_alias self tokens 0 width = None.
Proof.
  intros Hno. induction width as [|width IH]; [done|].
  cbn [Ned.longest_alias]. unfold Ned.slice.
  replace (0 + S width - 0)%nat with (S width) by lia.
  change (List.skipn 0 tokens) with tokens.
  rewrite (Hno (S width)) by lia. apply IH. intros w' Hw'. apply Hno. lia.
Qed.

Lemma lookup_longer_first (fuel : nat) (self : Ned.disambiguator) (env : Ned.helpers)
    (tokens : list string) (min_entity_len max_entity_len : Z) :
  Ned.lookup fuel self env tokens (Some "longer_first") min_entity_len max_entity_len
  = Ned.lookup_longer fuel self tokens.
Proof.
  unfold Ned.lookup. rewrite decide_False by done. by rewrite decide_True.
Qed.

(** X21. [lookup_longer] takes the longest alias that starts the sentence:
    when the first [w] tokens are an alias and no longer run of tokens from
    the start is, each of these [w] tokens gets the entry of that alias,
    and the tokens after them are labelled as [lookup_longer] labels them
    when they are given alone. *)
Theorem lookup_longer_prefix (self : Ned.disambiguator) (env : Ned.helpers)
    (tokens : list string) (w : nat) (type : string) (id : Z)
    (min_entity_len max_entity_len : Z) (fuel : nat) :
  (1 <= w <= length tokens)%nat ->
  Ned.member (Str.join " " (List.firstn w tokens)) (Ned.all_aliases self) = true ->
  (forall w', (w < w' <= length tokens)%nat ->
     Ned.member (Str.join " " (List.firstn w' tokens)) (Ned.all_aliases self) = false) ->
  Ned.alias2type self !! Str.join " " (List.firstn w tokens) = Some type ->
  Ned.typeqid2id self !! type = Some id ->
  Ned.lookup (S fuel) self env tokens (Some "longer_first") min_entity_len max_entity_len
  = match Ned.lookup fuel self env (List.skipn w tokens) (Some "longer_first")
            min_entity_len max_entity_len with
    | Some (Ok r) => Some (Ok (replicate w [id * Ned.max_features_size self] ++ r))
    | Some (Raise e) => Some (Raise e)
    | None => None
    end.
Proof.
  intros Hw Hmem Hmax Htype Hid. rewrite !lookup_longer_first.
  unfold Ned.lookup_longer. cbn [Ned.lookup_longer_from].
  rewrite (proj2 (Nat.leb_gt _ _)) by lia. rewrite Nat.sub_0_r.
  rewrite (longest_alias_found self tokens w (length tokens) Hw Hmem Hmax).
  rewrite (getitem_some _ _ _ Htype). cbn [mbind result_bind].
  rewrite (getitem_some _ _ _ Hid). cbn [mbind result_bind].
  rewrite (traverse_const [id * Ned.max_features_size self]), Nat.sub_0_r, length_seq.
  rewrite lookup_longer_from_shift. by rewrite app_nil_l.
Qed.

Lemma lookup_longer_prefix_witness :
  Ned.lookup 4 city_self city_env ["new"; "york"; "apple"; "pie"] (Some "longer_first") 2 4
  = Some (Ok [[10]; [10]; [8]; [0]]).
Proof.
  rewrite (lookup_longer_prefix city_self city_env ["new"; "york"; "apple"; "pie"] 2
             "Q515" 5 2 4 3).
  - vm_compute. reflexivity.
  - simpl. lia.
  - vm_compute. reflexivity.
  - intros w' Hw'. simpl in Hw'.
    assert (w' = 3 \/ w' = 4)%nat as [-> | ->] by lia; vm_compute; reflexivity.
  - vm_compute. reflexivity.
  - vm_compute. reflexivity.
Defined.

(** X22. When no run of tokens from the start of the sentence is an alias,
    [lookup_longer] gives the first token the entry of the unknown type
    (the one number [unk_id * max_features_size]) and labels the other
    tokens as it labels them when they are given alone. *)
Theorem lookup_longer_unknown (self : Ned.disambiguator) (env : Ned.helpers)
    (token : string) (rest : list string)
    (min_entity_len max_entity_len : Z) (fuel : nat) :
  (forall w', (1 <= w' <= S (length rest))%nat ->
     Ned.member (Str.join " " (List.firstn w' (token :: rest))) (Ned.all_aliases self) = false) ->
  Ned.lookup (S fuel) self env (token :: rest) (Some "longer_first")
    min_entity_len max_entity_len
  = match Ned.lookup fuel self env rest (Some "longer_first")
            min_entity_len max_entity_len with
    | Some (Ok r) => Some (Ok ([Ned.unk_id self * Ned.max_features_size self] :: r))
    | Some (Raise e) => Some (Raise e)
    | None => None
    end.
Proof.
  intros Hno. rewrite !lookup_longer_first.
  unfold Ned.lookup_longer. cbn [Ned.lookup_longer_from length Nat.leb].
  rewrite Nat.sub_0_r, (longest_alias_none self (token :: rest) (S (length rest)) Hno).
  rewrite lookup_longer_from_shift.
  change (List.skipn (0 + 1) (token :: rest)) with rest.
  by destruct (Ned.lookup_longer_from fuel self rest 0 []) as [[r|e]|].
Qed.

Lemma lookup_longer_unknown_witness :
  Ned.lookup 4 city_self city_env ["i"; "love"; "new"; "york"] (Some "longer_first") 2 4
  = Some (Ok [[0]; [0]; [10]; [10]]).
Proof.
  rewrite (lookup_longer_unknown city_self city_env "i" ["love"; "new"; "york"] 2 4 3).
  - vm_compute. reflexivity.
  - intros w' Hw'. simpl in Hw'.
    assert (w' = 1 \/ w' = 2 \/ w' = 3 \/ w' = 4)%nat as [-> | [-> | [-> | ->]]] by lia;
      vm_compute; reflexivity.
Defined.
